(** * Box layouts of [layout/boxlayout.go]

    A shallow embedding of [vBoxLayout] and [hBoxLayout] (their [Layout] and
    [MinSize] methods, and the helpers [isVerticalSpacer] and
    [isHorizontalSpacer]) together with the properties of the two layouts.

    Conventions of the embedding.

    - [float32] is kept abstract: the code is written once over the
      interface [Float32Ops], which lists exactly the operations the source
      performs on [float32] values.  Two instances are given: [binary32]
      (IEEE 754 single precision, round to nearest even, from the Standard
      Library's [SpecFloat]) and [exact] (canonical rationals [Qc], the
      reading in which sizes are real numbers).  Structural theorems are
      proved for every instance; theorems that need the laws of arithmetic
      are proved for [exact].
    - Children are Go interface values with reference semantics.  A child is
      a [handle] into a heap of objects; [Move] and [Resize] update the heap
      and are recorded, in order, in a log of calls.  The same handle may
      occur several times in the slice handed to a layout.
    - [Visible], [MinSize], and the type assertions to [fyne.Growable] and
      [SpacerObject] read fields of the object which [Move] and [Resize]
      leave alone.
    - [paddingFunc] is a pure function of no argument: a layout reads it
      once per call, and [paddingFunc v tt] stands for the value read. *)

From Stdlib Require Import ZArith List Bool Lia QArith Qcanon Lqa.
From Stdlib Require Import Floats.SpecFloat.
Import ListNotations.

Set Implicit Arguments.

(** ** The operations on [float32] used by the source *)

Class Float32Ops (F : Type) : Type := {
  fadd : F -> F -> F;            (* a + b *)
  fsub : F -> F -> F;            (* a - b *)
  fmul : F -> F -> F;            (* a * b *)
  fdiv : F -> F -> F;            (* a / b *)
  flt : F -> F -> bool;          (* a < b, and b > a *)
  of_int : Z -> F                (* float32(n), and the constants 0, 1.0 *)
}.

Declare Scope f32_scope.
Delimit Scope f32_scope with f32.
Infix "+" := fadd : f32_scope.
Infix "-" := fsub : f32_scope.
Infix "*" := fmul : f32_scope.
Infix "/" := fdiv : f32_scope.
Infix "<?" := flt : f32_scope.

(** IEEE 754 binary32 with round to nearest, ties to even. *)
Definition binary32 : Type := spec_float.

#[export] Instance binary32_ops : Float32Ops binary32 := {|
  fadd := SFadd 24 128;
  fsub := SFsub 24 128;
  fmul := SFmul 24 128;
  fdiv := SFdiv 24 128;
  flt := SFltb;
  of_int := fun n => binary_normalize 24 128 n 0 false
|}.

(** Exact arithmetic on canonical rationals. *)
Abbreviation exact := Qc (only parsing).

Definition Qcltb (a b : Qc) : bool :=
  match (a ?= b)%Qc with Lt => true | _ => false end.

#[export] Instance exact_ops : Float32Ops exact := {|
  fadd := Qcplus;
  fsub := Qcminus;
  fmul := Qcmult;
  fdiv := Qcdiv;
  flt := Qcltb;
  of_int := fun n => Q2Qc (inject_Z n)
|}.

(** ** The part of package [fyne] the layouts use *)

Module fyne.

Section Geometry.
Variable F : Type.

Record Size : Type := NewSize { Width : F; Height : F }.
Record Position : Type := NewPos { X : F; Y : F }.

(** [fyne.Growable]: the one method [GrowFactor]. *)
Record Growable : Type := { GrowFactor : F }.

(** [layout.SpacerObject]: the two methods of a spacer. *)
Record SpacerObject : Type := {
  ExpandVertical : bool;
  ExpandHorizontal : bool
}.

(** A canvas object as the layouts see it.  [asGrowable] and
    [asSpacerObject] are the results of the type assertions
    [child.(fyne.Growable)] and [obj.(SpacerObject)]: [None] when the
    assertion fails.  [position] and [size] are what [Move] and [Resize]
    set. *)
Record CanvasObject : Type := {
  Visible : bool;
  MinSize : Size;
  asGrowable : option Growable;
  asSpacerObject : option SpacerObject;
  position : Position;
  size : Size
}.

Definition handle : Type := nat.

Inductive Call : Type :=
| CallMove (child : handle) (p : Position)
| CallResize (child : handle) (s : Size).

Definition target (c : Call) : handle :=
  match c with CallMove h _ => h | CallResize h _ => h end.

(** The objects reachable from the slice, and the calls made so far. *)
Record World : Type := {
  heap : handle -> CanvasObject;
  calls : list Call
}.

Definition update (h : handle) (f : CanvasObject -> CanvasObject)
    (m : handle -> CanvasObject) : handle -> CanvasObject :=
  fun k => if Nat.eqb k h then f (m k) else m k.

Definition set_position (p : Position) (o : CanvasObject) : CanvasObject :=
  {| Visible := Visible o; MinSize := MinSize o;
     asGrowable := asGrowable o; asSpacerObject := asSpacerObject o;
     position := p; size := size o |}.

Definition set_size (s : Size) (o : CanvasObject) : CanvasObject :=
  {| Visible := Visible o; MinSize := MinSize o;
     asGrowable := asGrowable o; asSpacerObject := asSpacerObject o;
     position := position o; size := s |}.

(** [child.Move(p)] *)
Definition Move (child : handle) (p : Position) (w : World) : World :=
  {| heap := update child (set_position p) (heap w);
     calls := calls w ++ [CallMove child p] |}.

(** [child.Resize(s)] *)
Definition Resize (child : handle) (s : Size) (w : World) : World :=
  {| heap := update child (set_size s) (heap w);
     calls := calls w ++ [CallResize child s] |}.
End Geometry.

Arguments NewSize {F} _ _.
Arguments NewPos {F} _ _.
Arguments Width {F} _.
Arguments Height {F} _.
Arguments X {F} _.
Arguments Y {F} _.
Arguments GrowFactor {F} _.
Arguments CallMove {F} _ _.
Arguments CallResize {F} _ _.

(** Modelled from the spec: [fyne.Max] is declared outside [boxlayout.go];
    the layouts use it to set "the result's cross-axis dimension to the
    maximum of its current value and the child's cross-axis minimum". *)
Definition Max {F : Type} `{Float32Ops F} (x y : F) : F :=
  if (y <? x)%f32 then x else y.

End fyne.

Import fyne.

(** [isVerticalSpacer] and [isHorizontalSpacer]: the type assertion to
    [SpacerObject] must succeed and the spacer must expand along the axis. *)
Definition isVerticalSpacer {F : Type} (obj : CanvasObject F) : bool :=
  match asSpacerObject obj with
  | Some spacer => ExpandVertical spacer
  | None => false
  end.

Definition isHorizontalSpacer {F : Type} (obj : CanvasObject F) : bool :=
  match asSpacerObject obj with
  | Some spacer => ExpandHorizontal spacer
  | None => false
  end.

(** ** [vBoxLayout] *)

Module vBoxLayout.

Section Methods.
Context {F : Type} `{Float32Ops F}.

Record t : Type := { paddingFunc : unit -> F }.

(** The variables of the first loop of [Layout]. *)
Record measure : Type := {
  spacers : Z;
  visibleObjects : Z;
  totalMinHights : F;
  growFactors : F;
  measured : World F
}.

(** Body of the first loop. *)
Definition measure_child (size : Size F) (acc : measure) (child : handle)
    : measure :=
  let w := measured acc in
  if negb (Visible (heap w child)) then acc
  else if isVerticalSpacer (heap w child) then
    {| spacers := spacers acc + 1;
       visibleObjects := visibleObjects acc;
       totalMinHights := totalMinHights acc;
       growFactors := growFactors acc;
       measured := w |}
  else
    let minH := Height (MinSize (heap w child)) in
    match asGrowable (heap w child) with
    | Some growable =>
        let minH' := if (minH <? of_int 1)%f32 then of_int 1 else minH in
        {| spacers := spacers acc;
           visibleObjects := visibleObjects acc + 1;
           totalMinHights := (totalMinHights acc + minH)%f32;
           growFactors := (growFactors acc + GrowFactor growable * minH')%f32;
           measured := w |}
    | None =>
        {| spacers := spacers acc;
           visibleObjects := visibleObjects acc + 1;
           totalMinHights := (totalMinHights acc + minH)%f32;
           growFactors := growFactors acc;
           measured := Resize child (NewSize (Width size) minH) w |}
    end.

Definition measure_all (objects : list handle) (size : Size F) (w : World F)
    : measure :=
  fold_left (measure_child size) objects
    {| spacers := 0; visibleObjects := 0;
       totalMinHights := of_int 0; growFactors := of_int 0;
       measured := w |}.

(** [extra], [hPerFactor] and [spacerSize], computed between the loops. *)
Definition extra (v : t) (objects : list handle) (size : Size F)
    (w : World F) : F :=
  let m := measure_all objects size w in
  let padding := paddingFunc v tt in
  (Height size - totalMinHights m
     - padding * of_int (visibleObjects m - 1))%f32.

Definition hPerFactor (v : t) (objects : list handle) (size : Size F)
    (w : World F) : F :=
  let m := measure_all objects size w in
  if (of_int 0 <? growFactors m)%f32
  then (extra v objects size w / growFactors m)%f32
  else of_int 0.

Definition spacerSize (v : t) (objects : list handle) (size : Size F)
    (w : World F) : F :=
  let m := measure_all objects size w in
  if (0 <? spacers m)%Z
  then (extra v objects size w / of_int (spacers m))%f32
  else of_int 0.

(** The variables of the second loop of [Layout]. *)
Record place : Type := { x : F; y : F; placed : World F }.

(** Body of the second loop. *)
Definition place_child (size : Size F) (padding hPerFactor spacerSize : F)
    (st : place) (child : handle) : place :=
  let w := placed st in
  if negb (Visible (heap w child)) then st
  else if isVerticalSpacer (heap w child) then
    {| x := x st; y := (y st + spacerSize)%f32; placed := w |}
  else
    let w1 := Move child (NewPos (x st) (y st)) w in
    let height := Height (MinSize (heap w1 child)) in
    match asGrowable (heap w1 child) with
    | Some growable =>
        let height' :=
          (height + hPerFactor * GrowFactor growable * height)%f32 in
        {| x := x st; y := (y st + (padding + height'))%f32;
           placed := Resize child (NewSize (Width size) height') w1 |}
    | None =>
        {| x := x st; y := (y st + (padding + height))%f32; placed := w1 |}
    end.

Definition place_all (v : t) (objects : list handle) (size : Size F)
    (w : World F) : place :=
  fold_left
    (place_child size (paddingFunc v tt) (hPerFactor v objects size w)
       (spacerSize v objects size w))
    objects
    {| x := of_int 0; y := of_int 0;
       placed := measured (measure_all objects size w) |}.

Definition Layout (v : t) (objects : list handle) (size : Size F)
    (w : World F) : World F :=
  placed (place_all v objects size w).

(** The variables of the loop of [MinSize]. *)
Record minsize : Type := { minSize : Size F; addPadding : bool }.

Definition minsize_child (padding : F) (w : World F) (acc : minsize)
    (child : handle) : minsize :=
  if negb (Visible (heap w child)) || isVerticalSpacer (heap w child)
  then acc
  else
    let childMin := MinSize (heap w child) in
    let width := Max (Width childMin) (Width (minSize acc)) in
    let height := (Height (minSize acc) + Height childMin)%f32 in
    {| minSize :=
         NewSize width
           (if addPadding acc then (height + padding)%f32 else height);
       addPadding := true |}.

Definition MinSize (v : t) (objects : list handle) (w : World F) : Size F :=
  minSize
    (fold_left (minsize_child (paddingFunc v tt) w) objects
       {| minSize := NewSize (of_int 0) (of_int 0); addPadding := false |}).
End Methods.

Arguments t F : clear implicits.
Arguments measure F : clear implicits.
Arguments place F : clear implicits.
Arguments minsize F : clear implicits.

End vBoxLayout.


(** ** [hBoxLayout] *)

Module hBoxLayout.

Section Methods.
Context {F : Type} `{Float32Ops F}.

Record t : Type := { paddingFunc : unit -> F }.

(** The variables of the first loop of [Layout]. *)
Record measure : Type := {
  spacers : Z;
  visibleObjects : Z;
  totalMinWidths : F;
  growFactors : F;
  measured : World F
}.

(** Body of the first loop. *)
Definition measure_child (size : Size F) (acc : measure) (child : handle)
    : measure :=
  let w := measured acc in
  if negb (Visible (heap w child)) then acc
  else if isHorizontalSpacer (heap w child) then
    {| spacers := spacers acc + 1;
       visibleObjects := visibleObjects acc;
       totalMinWidths := totalMinWidths acc;
       growFactors := growFactors acc;
       measured := w |}
  else
    let minW := Width (MinSize (heap w child)) in
    match asGrowable (heap w child) with
    | Some growable =>
        let minW' := if (minW <? of_int 1)%f32 then of_int 1 else minW in
        {| spacers := spacers acc;
           visibleObjects := visibleObjects acc + 1;
           totalMinWidths := (totalMinWidths acc + minW)%f32;
           growFactors := (growFactors acc + GrowFactor growable * minW')%f32;
           measured := w |}
    | None =>
        {| spacers := spacers acc;
           visibleObjects := visibleObjects acc + 1;
           totalMinWidths := (totalMinWidths acc + minW)%f32;
           growFactors := growFactors acc;
           measured := Resize child (NewSize minW (Height size)) w |}
    end.

Definition measure_all (objects : list handle) (size : Size F) (w : World F)
    : measure :=
  fold_left (measure_child size) objects
    {| spacers := 0; visibleObjects := 0;
       totalMinWidths := of_int 0; growFactors := of_int 0;
       measured := w |}.

(** [extra], [wPerFactor] and [spacerSize], computed between the loops. *)
Definition extra (g : t) (objects : list handle) (size : Size F)
    (w : World F) : F :=
  let m := measure_all objects size w in
  let padding := paddingFunc g tt in
  (Width size - totalMinWidths m
     - padding * of_int (visibleObjects m - 1))%f32.

Definition wPerFactor (g : t) (objects : list handle) (size : Size F)
    (w : World F) : F :=
  let m := measure_all objects size w in
  if (of_int 0 <? growFactors m)%f32
  then (extra g objects size w / growFactors m)%f32
  else of_int 0.

Definition spacerSize (g : t) (objects : list handle) (size : Size F)
    (w : World F) : F :=
  let m := measure_all objects size w in
  if (0 <? spacers m)%Z
  then (extra g objects size w / of_int (spacers m))%f32
  else of_int 0.

(** The variables of the second loop of [Layout]. *)
Record place : Type := { x : F; y : F; placed : World F }.

(** Body of the second loop. *)
Definition place_child (size : Size F) (padding wPerFactor spacerSize : F)
    (st : place) (child : handle) : place :=
  let w := placed st in
  if negb (Visible (heap w child)) then st
  else if isHorizontalSpacer (heap w child) then
    {| x := (x st + spacerSize)%f32; y := y st; placed := w |}
  else
    let w1 := Move child (NewPos (x st) (y st)) w in
    let width := Width (MinSize (heap w1 child)) in
    match asGrowable (heap w1 child) with
    | Some growable =>
        let width' :=
          (width + wPerFactor * GrowFactor growable * width)%f32 in
        {| x := (x st + (padding + width'))%f32; y := y st;
           placed := Resize child (NewSize width' (Height size)) w1 |}
    | None =>
        {| x := (x st + (padding + width))%f32; y := y st; placed := w1 |}
    end.

Definition place_all (g : t) (objects : list handle) (size : Size F)
    (w : World F) : place :=
  fold_left
    (place_child size (paddingFunc g tt) (wPerFactor g objects size w)
       (spacerSize g objects size w))
    objects
    {| x := of_int 0; y := of_int 0;
       placed := measured (measure_all objects size w) |}.

Definition Layout (g : t) (objects : list handle) (size : Size F)
    (w : World F) : World F :=
  placed (place_all g objects size w).

(** The variables of the loop of [MinSize]. *)
Record minsize : Type := { minSize : Size F; addPadding : bool }.

Definition minsize_child (padding : F) (w : World F) (acc : minsize)
    (child : handle) : minsize :=
  if negb (Visible (heap w child)) || isHorizontalSpacer (heap w child)
  then acc
  else
    let childMin := MinSize (heap w child) in
    let height := Max (Height childMin) (Height (minSize acc)) in
    let width := (Width (minSize acc) + Width childMin)%f32 in
    {| minSize :=
         NewSize
           (if addPadding acc then (width + padding)%f32 else width)
           height;
       addPadding := true |}.

Definition MinSize (g : t) (objects : list handle) (w : World F) : Size F :=
  minSize
    (fold_left (minsize_child (paddingFunc g tt) w) objects
       {| minSize := NewSize (of_int 0) (of_int 0); addPadding := false |}).
End Methods.

Arguments t F : clear implicits.
Arguments measure F : clear implicits.
Arguments place F : clear implicits.
Arguments minsize F : clear implicits.

End hBoxLayout.

(** [NewCustomPaddedVBoxLayout] and [NewCustomPaddedHBoxLayout].
    [NewVBoxLayout] and [NewHBoxLayout] are the same records with
    [theme.Padding] as the padding function. *)
Definition NewCustomPaddedVBoxLayout {F : Type} (padding : F)
    : vBoxLayout.t F :=
  {| vBoxLayout.paddingFunc := fun _ => padding |}.

Definition NewCustomPaddedHBoxLayout {F : Type} (padding : F)
    : hBoxLayout.t F :=
  {| hBoxLayout.paddingFunc := fun _ => padding |}.

(** ** Concrete worlds used in examples *)

Module Samples.

Section Builders.
Context {F : Type} `{Float32Ops F}.

Definition zeroSize : Size F := NewSize (of_int 0) (of_int 0).
Definition zeroPos : Position F := NewPos (of_int 0) (of_int 0).
Definition sizeZ (w h : Z) : Size F := NewSize (of_int w) (of_int h).

(** An object that is not growable and not a spacer. *)
Definition ordinary (visible : bool) (minW minH : Z) : CanvasObject F :=
  {| Visible := visible; MinSize := sizeZ minW minH;
     asGrowable := None; asSpacerObject := None;
     position := zeroPos; size := zeroSize |}.

(** An object implementing [fyne.Growable]. *)
Definition growing (factor : Z) (minW minH : F) : CanvasObject F :=
  {| Visible := true; MinSize := NewSize minW minH;
     asGrowable := Some {| GrowFactor := of_int factor |};
     asSpacerObject := None;
     position := zeroPos; size := zeroSize |}.

(** An object implementing [SpacerObject]. *)
Definition spacer (vertical horizontal : bool) (minW minH : Z)
    : CanvasObject F :=
  {| Visible := true; MinSize := sizeZ minW minH;
     asGrowable := None;
     asSpacerObject :=
       Some {| ExpandVertical := vertical; ExpandHorizontal := horizontal |};
     position := zeroPos; size := zeroSize |}.

(** The heap holding the listed objects at handles 0, 1, ...; every other
    handle holds an invisible object. *)
Definition world_of (objs : list (CanvasObject F)) : World F :=
  {| heap := fun h => nth h objs (ordinary false 0 0); calls := [] |}.
End Builders.

End Samples.

(** ** Folding a loop body over a slice *)

Section Folds.
Variables (A A' B : Type).

(** An invariant of the loop body holds after the loop. *)
Lemma fold_left_invariant (f : A -> B -> A) (P : A -> Prop) :
  (forall a b, P a -> P (f a b)) ->
  forall l a, P a -> P (fold_left f l a).
Proof.
  intros step l; induction l as [|b l IH]; intros a Ha; simpl; auto.
Qed.

(** Two loops over the same slice whose bodies preserve a relation. *)
Lemma fold_left_related (f : A -> B -> A) (g : A' -> B -> A')
    (R : A -> A' -> Prop) :
  (forall a a' b, R a a' -> R (f a b) (g a' b)) ->
  forall l a a', R a a' -> R (fold_left f l a) (fold_left g l a').
Proof.
  intros step l; induction l as [|b l IH]; intros a a' Ha; simpl; auto.
Qed.

(** The second loop runs over the elements satisfying [keep] only; on the
    others the body of the first loop preserves the relation on its own. *)
Lemma fold_left_related_filter (f : A -> B -> A) (g : A' -> B -> A')
    (R : A -> A' -> Prop) (keep : B -> bool) :
  (forall a a' b, keep b = true -> R a a' -> R (f a b) (g a' b)) ->
  (forall a a' b, keep b = false -> R a a' -> R (f a b) a') ->
  forall l a a', R a a' -> R (fold_left f l a) (fold_left g (filter keep l) a').
Proof.
  intros kept dropped l; induction l as [|b l IH]; intros a a' Ha; simpl; auto.
  destruct (keep b) eqn:Hb; simpl; auto.
Qed.

(** A property which the body establishes at [b0] and never breaks holds
    after the loop as soon as [b0] occurs in the slice. *)
Lemma fold_left_established (f : A -> B -> A) (I Q : A -> Prop) (b0 : B) :
  (forall a b, I a -> I (f a b)) ->
  (forall a b, I a -> Q a -> Q (f a b)) ->
  (forall a, I a -> Q (f a b0)) ->
  forall l a, I a -> In b0 l \/ Q a -> Q (fold_left f l a).
Proof.
  intros inv stable establish l; induction l as [|b l IH]; intros a Ia Hq; simpl.
  - destruct Hq as [[]|Hq]; exact Hq.
  - apply IH; [now apply inv|].
    destruct Hq as [[->|Hin]|Hq]; [right|left|right]; auto.
Qed.
End Folds.

(** ** What [Move] and [Resize] change *)

Section Frame.
Variable F : Type.
Implicit Types (w : World F) (h child : handle) (o : CanvasObject F).

(** Two worlds answer [Visible], [MinSize] and the type assertions alike. *)
Definition same_observers w w' : Prop :=
  (forall h, Visible (heap w h) = Visible (heap w' h)) /\
  (forall h, MinSize (heap w h) = MinSize (heap w' h)) /\
  (forall h, asGrowable (heap w h) = asGrowable (heap w' h)) /\
  (forall h, asSpacerObject (heap w h) = asSpacerObject (heap w' h)).

Lemma same_observers_refl w : same_observers w w.
Proof. repeat split. Qed.

Lemma same_observers_trans w1 w2 w3 :
  same_observers w1 w2 -> same_observers w2 w3 -> same_observers w1 w3.
Proof.
  intros (a1 & a2 & a3 & a4) (b1 & b2 & b3 & b4).
  repeat split; intro h; [rewrite a1|rewrite a2|rewrite a3|rewrite a4]; auto.
Qed.

Lemma same_observers_sym w1 w2 : same_observers w1 w2 -> same_observers w2 w1.
Proof. intros (a1 & a2 & a3 & a4); repeat split; intro h; auto. Qed.

Lemma same_observers_Move child p w : same_observers (Move child p w) w.
Proof.
  repeat split; intro h; simpl; unfold update;
    destruct (Nat.eqb h child); reflexivity.
Qed.

Lemma same_observers_Resize child s w : same_observers (Resize child s w) w.
Proof.
  repeat split; intro h; simpl; unfold update;
    destruct (Nat.eqb h child); reflexivity.
Qed.

Lemma isVerticalSpacer_same w w' h :
  same_observers w w' ->
  isVerticalSpacer (heap w h) = isVerticalSpacer (heap w' h).
Proof. intros (_ & _ & _ & e); unfold isVerticalSpacer; now rewrite e. Qed.

Lemma isHorizontalSpacer_same w w' h :
  same_observers w w' ->
  isHorizontalSpacer (heap w h) = isHorizontalSpacer (heap w' h).
Proof. intros (_ & _ & _ & e); unfold isHorizontalSpacer; now rewrite e. Qed.

(** Reading the heap after a call. *)
Lemma heap_Move_same child p w :
  heap (Move child p w) child = set_position p (heap w child).
Proof. simpl; unfold update; now rewrite Nat.eqb_refl. Qed.

Lemma heap_Move_other child p w h :
  h <> child -> heap (Move child p w) h = heap w h.
Proof.
  intro ne; simpl; unfold update.
  now destruct (Nat.eqb_spec h child).
Qed.

Lemma heap_Resize_same child s w :
  heap (Resize child s w) child = set_size s (heap w child).
Proof. simpl; unfold update; now rewrite Nat.eqb_refl. Qed.

Lemma heap_Resize_other child s w h :
  h <> child -> heap (Resize child s w) h = heap w h.
Proof.
  intro ne; simpl; unfold update.
  now destruct (Nat.eqb_spec h child).
Qed.

Lemma size_Move child p w h : size (heap (Move child p w) h) = size (heap w h).
Proof. simpl; unfold update; now destruct (Nat.eqb h child). Qed.

Lemma position_Resize child s w h :
  position (heap (Resize child s w) h) = position (heap w h).
Proof. simpl; unfold update; now destruct (Nat.eqb h child). Qed.

(** The calls of [w'] are those of [w] followed by calls whose targets all
    satisfy [ok]. *)
Definition calls_extend (ok : handle -> Prop) w w' : Prop :=
  exists cs, calls w' = calls w ++ cs /\ Forall (fun c => ok (target c)) cs.

Lemma calls_extend_refl ok w : calls_extend ok w w.
Proof. exists []; split; [now rewrite app_nil_r | constructor]. Qed.

Lemma calls_extend_trans ok w1 w2 w3 :
  calls_extend ok w1 w2 -> calls_extend ok w2 w3 -> calls_extend ok w1 w3.
Proof.
  intros (cs & e & a) (cs' & e' & a'); exists (cs ++ cs'); split.
  - now rewrite e', e, app_assoc.
  - now apply Forall_app.
Qed.

Lemma calls_extend_Move (ok : handle -> Prop) child p w :
  ok child -> calls_extend ok w (Move child p w).
Proof. intro a; exists [CallMove child p]; split; [reflexivity|]; now repeat constructor. Qed.

Lemma calls_extend_Resize (ok : handle -> Prop) child s w :
  ok child -> calls_extend ok w (Resize child s w).
Proof. intro a; exists [CallResize child s]; split; [reflexivity|]; now repeat constructor. Qed.

(** An object that is the target of none of the new calls is left as it
    was: the heap changes at the targets of calls only. *)
Definition heap_changes_within (ok : handle -> Prop) w w' : Prop :=
  forall h, ~ ok h -> heap w' h = heap w h.
End Frame.

(** ** The kinds of children *)

(** How a layout treats a child: it is skipped (invisible), it is a spacer
    along the layout's axis, or it is laid out, either at its own minimum
    along the axis ([Ordinary]) or with a share of the leftover space
    ([Grows], with its minimum along the axis and its grow factor). *)
Inductive kind (F : Type) : Type :=
| Skipped
| IsSpacer
| Ordinary (min : F)
| Grows (min factor : F).

Arguments Skipped {F}.
Arguments IsSpacer {F}.
Arguments Ordinary {F} _.
Arguments Grows {F} _ _.

Section Kinds.
Context {F : Type} `{Float32Ops F}.
Implicit Types (w : World F) (h child : handle) (o : CanvasObject F).

Definition v_kind_of o : kind F :=
  if negb (Visible o) then Skipped
  else if isVerticalSpacer o then IsSpacer
  else match asGrowable o with
       | Some growable => Grows (Height (MinSize o)) (GrowFactor growable)
       | None => Ordinary (Height (MinSize o))
       end.

Definition h_kind_of o : kind F :=
  if negb (Visible o) then Skipped
  else if isHorizontalSpacer o then IsSpacer
  else match asGrowable o with
       | Some growable => Grows (Width (MinSize o)) (GrowFactor growable)
       | None => Ordinary (Width (MinSize o))
       end.

Definition v_kinds w (objects : list handle) : list (kind F) :=
  map (fun child => v_kind_of (heap w child)) objects.

Definition h_kinds w (objects : list handle) : list (kind F) :=
  map (fun child => h_kind_of (heap w child)) objects.

(** A child that is moved and resized: visible and not a spacer. *)
Definition laid_out (k : kind F) : bool :=
  match k with Ordinary _ | Grows _ _ => true | _ => false end.

Definition is_spacer (k : kind F) : bool :=
  match k with IsSpacer => true | _ => false end.

(** The minimum along the axis of each child laid out, in order. *)
Definition mins (ks : list (kind F)) : list F :=
  flat_map (fun k => match k with
                     | Ordinary m | Grows m _ => [m]
                     | _ => []
                     end) ks.

(** [max(min, 1.0)], as the first loop computes it. *)
Definition floor1 (m : F) : F := if (m <? of_int 1)%f32 then of_int 1 else m.

(** The weight of each growable child laid out, in order. *)
Definition weights (ks : list (kind F)) : list F :=
  flat_map (fun k => match k with
                     | Grows m g => [(g * floor1 m)%f32]
                     | _ => []
                     end) ks.

Definition count_spacers (ks : list (kind F)) : nat :=
  length (filter is_spacer ks).

(** A sum as a loop computes it: from the left, starting at [0]. *)
Definition total (xs : list F) : F := fold_left fadd xs (of_int 0).

(** [extra], [perWeightUnit] and [perSpacer] in the words of the
    description: from the container's size along the axis, the padding and
    the kinds of the children. *)
Definition spec_extra (container padding : F) (ks : list (kind F)) : F :=
  (container - total (mins ks)
     - padding * of_int (Z.of_nat (length (mins ks)) - 1))%f32.

Definition spec_perWeightUnit (container padding : F) (ks : list (kind F))
    : F :=
  if (of_int 0 <? total (weights ks))%f32
  then (spec_extra container padding ks / total (weights ks))%f32
  else of_int 0.

Definition spec_perSpacer (container padding : F) (ks : list (kind F)) : F :=
  if (0 <? Z.of_nat (count_spacers ks))%Z
  then (spec_extra container padding ks
          / of_int (Z.of_nat (count_spacers ks)))%f32
  else of_int 0.

(** The size along the axis a child laid out ends with. *)
Definition final_main (perWeightUnit : F) (k : kind F) : F :=
  match k with
  | Grows m g => (m + perWeightUnit * g * m)%f32
  | Ordinary m => m
  | _ => of_int 0
  end.

Lemma v_kind_of_same w w' h :
  same_observers w w' -> v_kind_of (heap w h) = v_kind_of (heap w' h).
Proof.
  intro e; unfold v_kind_of.
  rewrite (isVerticalSpacer_same h e).
  destruct e as (e1 & e2 & e3 & _); now rewrite e1, e2, e3.
Qed.

Lemma h_kind_of_same w w' h :
  same_observers w w' -> h_kind_of (heap w h) = h_kind_of (heap w' h).
Proof.
  intro e; unfold h_kind_of.
  rewrite (isHorizontalSpacer_same h e).
  destruct e as (e1 & e2 & e3 & _); now rewrite e1, e2, e3.
Qed.

Lemma v_kinds_same w w' l : same_observers w w' -> v_kinds w l = v_kinds w' l.
Proof.
  intro e; unfold v_kinds; apply map_ext; intro h; now apply v_kind_of_same.
Qed.

Lemma h_kinds_same w w' l : same_observers w w' -> h_kinds w l = h_kinds w' l.
Proof.
  intro e; unfold h_kinds; apply map_ext; intro h; now apply h_kind_of_same.
Qed.

(** The kind in terms of the queries the code makes. *)
Lemma v_kind_skipped o : v_kind_of o = Skipped <-> Visible o = false.
Proof.
  unfold v_kind_of; destruct (Visible o), (isVerticalSpacer o), (asGrowable o);
    simpl; intuition congruence.
Qed.


Lemma v_kind_laid_out o :
  laid_out (v_kind_of o) = true <->
  Visible o = true /\ isVerticalSpacer o = false.
Proof.
  unfold v_kind_of; destruct (Visible o), (isVerticalSpacer o), (asGrowable o);
    simpl; intuition congruence.
Qed.

Lemma h_kind_skipped o : h_kind_of o = Skipped <-> Visible o = false.
Proof.
  unfold h_kind_of; destruct (Visible o), (isHorizontalSpacer o), (asGrowable o);
    simpl; intuition congruence.
Qed.


Lemma h_kind_laid_out o :
  laid_out (h_kind_of o) = true <->
  Visible o = true /\ isHorizontalSpacer o = false.
Proof.
  unfold h_kind_of; destruct (Visible o), (isHorizontalSpacer o), (asGrowable o);
    simpl; intuition congruence.
Qed.
End Kinds.

(** ** How a layout changes the world *)

Section Evolution.
Variable F : Type.
Implicit Types (w : World F) (h child : handle) (ok : handle -> Prop).

(** [w] is [w0] after some calls on objects satisfying [ok]: the answers of
    the objects are those of [w0], the log has grown by calls on such
    objects, and every other object is as it was. *)
Record evolves ok w0 w : Prop := {
  ev_observers : same_observers w w0;
  ev_calls : calls_extend ok w0 w;
  ev_frame : heap_changes_within ok w0 w
}.

Lemma evolves_refl ok w : evolves ok w w.
Proof.
  split; [apply same_observers_refl | apply calls_extend_refl | now intros h _].
Qed.

Lemma evolves_Move ok w0 w child p :
  ok child -> evolves ok w0 w -> evolves ok w0 (Move child p w).
Proof.
  intros a [e c f]; split.
  - eapply same_observers_trans; [apply same_observers_Move | exact e].
  - eapply calls_extend_trans; [exact c | now apply calls_extend_Move].
  - intros h nh; rewrite heap_Move_other; [now apply f | congruence].
Qed.

Lemma evolves_Resize ok w0 w child s :
  ok child -> evolves ok w0 w -> evolves ok w0 (Resize child s w).
Proof.
  intros a [e c f]; split.
  - eapply same_observers_trans; [apply same_observers_Resize | exact e].
  - eapply calls_extend_trans; [exact c | now apply calls_extend_Resize].
  - intros h nh; rewrite heap_Resize_other; [now apply f | congruence].
Qed.

Lemma evolves_trans ok w0 w1 w2 :
  evolves ok w0 w1 -> evolves ok w1 w2 -> evolves ok w0 w2.
Proof.
  intros [e c f] [e' c' f']; split.
  - eapply same_observers_trans; eauto.
  - eapply calls_extend_trans; eauto.
  - intros h nh; rewrite f', f; auto.
Qed.
End Evolution.

Section FoldsIn.
Variables (A B : Type).

(** An invariant which the loop body preserves at the elements of the
    slice. *)
Lemma fold_left_invariant_in (f : A -> B -> A) (P : A -> Prop) l :
  (forall a b, In b l -> P a -> P (f a b)) ->
  forall a, P a -> P (fold_left f l a).
Proof.
  induction l as [|b l IH]; intros step a Ha; simpl; auto.
  apply IH; [intros; apply step; simpl; auto | apply step; simpl; auto].
Qed.
End FoldsIn.

(** ** The two loops of [vBoxLayout.Layout] *)

Section VBoxLoops.
Context {F : Type} `{Float32Ops F}.
Import vBoxLayout.
Implicit Types (w : World F) (h child : handle) (sz : Size F) (v : t F).

(** The body of the first loop, by the kind of the child. *)
Lemma v_measure_child_kind sz acc child :
  measure_child sz acc child =
  match v_kind_of (heap (measured acc) child) with
  | Skipped => acc
  | IsSpacer =>
      {| spacers := spacers acc + 1; visibleObjects := visibleObjects acc;
         totalMinHights := totalMinHights acc; growFactors := growFactors acc;
         measured := measured acc |}
  | Grows m g =>
      {| spacers := spacers acc; visibleObjects := visibleObjects acc + 1;
         totalMinHights := (totalMinHights acc + m)%f32;
         growFactors := (growFactors acc + g * floor1 m)%f32;
         measured := measured acc |}
  | Ordinary m =>
      {| spacers := spacers acc; visibleObjects := visibleObjects acc + 1;
         totalMinHights := (totalMinHights acc + m)%f32;
         growFactors := growFactors acc;
         measured := Resize child (NewSize (Width sz) m) (measured acc) |}
  end.
Proof.
  unfold measure_child, v_kind_of.
  destruct (Visible (heap (measured acc) child)),
    (isVerticalSpacer (heap (measured acc) child)),
    (asGrowable (heap (measured acc) child)); reflexivity.
Qed.

(** The body of the second loop, by the kind of the child. *)
Lemma v_place_child_kind sz padding per sp st child :
  place_child sz padding per sp st child =
  match v_kind_of (heap (placed st) child) with
  | Skipped => st
  | IsSpacer => {| x := x st; y := (y st + sp)%f32; placed := placed st |}
  | Grows m g =>
      {| x := x st; y := (y st + (padding + (m + per * g * m)))%f32;
         placed :=
           Resize child (NewSize (Width sz) (m + per * g * m)%f32)
             (Move child (NewPos (x st) (y st)) (placed st)) |}
  | Ordinary m =>
      {| x := x st; y := (y st + (padding + m))%f32;
         placed := Move child (NewPos (x st) (y st)) (placed st) |}
  end.
Proof.
  unfold place_child, v_kind_of.
  rewrite heap_Move_same; simpl.
  destruct (Visible (heap (placed st) child)),
    (isVerticalSpacer (heap (placed st) child)),
    (asGrowable (heap (placed st) child)); reflexivity.
Qed.

(** The first loop: what it counts and sums, and what it does to the
    world. *)
Lemma v_measure_fold ok w0 sz l :
  (forall c, In c l -> laid_out (v_kind_of (heap w0 c)) = true -> ok c) ->
  forall acc, evolves ok w0 (measured acc) ->
  let r := fold_left (measure_child sz) l acc in
  evolves ok w0 (measured r) /\
  spacers r = (spacers acc + Z.of_nat (count_spacers (v_kinds w0 l)))%Z /\
  visibleObjects r
    = (visibleObjects acc + Z.of_nat (length (mins (v_kinds w0 l))))%Z /\
  totalMinHights r = fold_left fadd (mins (v_kinds w0 l)) (totalMinHights acc) /\
  growFactors r = fold_left fadd (weights (v_kinds w0 l)) (growFactors acc).
Proof.
  induction l as [|c l IH]; intros okl acc ev; simpl.
  - rewrite !Z.add_0_r; auto.
  - assert (okc : laid_out (v_kind_of (heap w0 c)) = true -> ok c)
      by (apply okl; simpl; auto).
    assert (okl' : forall c', In c' l ->
              laid_out (v_kind_of (heap w0 c')) = true -> ok c')
      by (intros; apply okl; simpl; auto).
    specialize (IH okl' (measure_child sz acc c)).
    rewrite v_measure_child_kind in IH |- *.
    rewrite (v_kind_of_same c (ev_observers ev)) in IH |- *.
    unfold count_spacers in *; simpl.
    destruct (v_kind_of (heap w0 c)) eqn:K; simpl in *;
      rewrite ?Zpos_P_of_succ_nat.
    + now apply IH.
    + destruct (IH ev) as (a1 & a2 & a3 & a4 & a5); simpl in *.
      refine (conj a1 (conj _ (conj _ (conj a4 a5)))); lia.
    + destruct IH as (a1 & a2 & a3 & a4 & a5);
        [apply evolves_Resize; auto|]; simpl in *.
      refine (conj a1 (conj _ (conj _ (conj a4 a5)))); lia.
    + destruct (IH ev) as (a1 & a2 & a3 & a4 & a5); simpl in *.
      refine (conj a1 (conj _ (conj _ (conj a4 a5)))); lia.
Qed.

Definition v_touched w0 (objects : list handle) : handle -> Prop :=
  fun h => In h objects /\ laid_out (v_kind_of (heap w0 h)) = true.

Lemma v_measure_all_spec objects sz w :
  let r := measure_all objects sz w in
  evolves (v_touched w objects) w (measured r) /\
  spacers r = Z.of_nat (count_spacers (v_kinds w objects)) /\
  visibleObjects r = Z.of_nat (length (mins (v_kinds w objects))) /\
  totalMinHights r = total (mins (v_kinds w objects)) /\
  growFactors r = total (weights (v_kinds w objects)).
Proof.
  unfold measure_all.
  apply (@v_measure_fold (v_touched w objects) w sz objects).
  - now split.
  - apply evolves_refl.
Qed.

(** [extra], [hPerFactor] and [spacerSize] are the quantities of the
    description. *)
Lemma v_extra_spec v objects sz w :
  extra v objects sz w
  = spec_extra (Height sz) (paddingFunc v tt) (v_kinds w objects).
Proof.
  unfold extra, spec_extra.
  destruct (v_measure_all_spec objects sz w) as (_ & _ & e2 & e3 & _).
  now rewrite e2, e3.
Qed.

Lemma v_hPerFactor_spec v objects sz w :
  hPerFactor v objects sz w
  = spec_perWeightUnit (Height sz) (paddingFunc v tt) (v_kinds w objects).
Proof.
  unfold hPerFactor, spec_perWeightUnit.
  rewrite v_extra_spec.
  destruct (v_measure_all_spec objects sz w) as (_ & _ & _ & _ & e4).
  now rewrite e4.
Qed.

Lemma v_spacerSize_spec v objects sz w :
  spacerSize v objects sz w
  = spec_perSpacer (Height sz) (paddingFunc v tt) (v_kinds w objects).
Proof.
  unfold spacerSize, spec_perSpacer.
  rewrite v_extra_spec.
  destruct (v_measure_all_spec objects sz w) as (_ & e1 & _).
  now rewrite e1.
Qed.
End VBoxLoops.

Section VBoxSizes.
Context {F : Type} `{Float32Ops F}.
Import vBoxLayout.
Implicit Types (w : World F) (h child : handle) (sz : Size F) (v : t F).

Lemma v_measure_child_observers sz w acc child :
  same_observers (measured acc) w ->
  same_observers (measured (measure_child sz acc child)) w.
Proof.
  intro e; rewrite v_measure_child_kind.
  destruct (v_kind_of (heap (measured acc) child)); simpl; auto.
  eapply same_observers_trans; [apply same_observers_Resize | exact e].
Qed.

Lemma v_place_child_observers sz padding per sp w st child :
  same_observers (placed st) w ->
  same_observers (placed (place_child sz padding per sp st child)) w.
Proof.
  intro e; rewrite v_place_child_kind.
  destruct (v_kind_of (heap (placed st) child)); simpl; auto.
  - eapply same_observers_trans; [apply same_observers_Move | exact e].
  - eapply same_observers_trans; [apply same_observers_Resize |].
    eapply same_observers_trans; [apply same_observers_Move | exact e].
Qed.

(** The first loop resizes every ordinary child it meets to the
    container's width and the child's own minimum height. *)
Lemma v_measure_size_ordinary objects sz w h m :
  In h objects -> v_kind_of (heap w h) = Ordinary m ->
  size (heap (measured (measure_all objects sz w)) h) = NewSize (Width sz) m.
Proof.
  intros inh K; unfold measure_all.
  apply (@fold_left_established _ _ (measure_child sz)
           (fun acc => same_observers (measured acc) w)
           (fun acc => size (heap (measured acc) h) = NewSize (Width sz) m) h);
    simpl; auto using same_observers_refl.
  - intros; now apply v_measure_child_observers.
  - intros acc b e q; rewrite v_measure_child_kind.
    rewrite (v_kind_of_same b e).
    destruct (v_kind_of (heap w b)) eqn:Kb; cbn [measured placed]; auto.
    destruct (Nat.eq_dec h b) as [->|ne].
    + rewrite heap_Resize_same; cbn [size set_size]; congruence.
    + now rewrite heap_Resize_other.
  - intros acc e; rewrite v_measure_child_kind.
    rewrite (v_kind_of_same h e), K; cbn [measured placed].
    now rewrite heap_Resize_same.
Qed.

(** In the second loop the size of a child, once it is the final one,
    stays so. *)
Lemma v_place_child_size_stable sz padding per sp w st b h :
  same_observers (placed st) w ->
  size (heap (placed st) h)
    = NewSize (Width sz) (final_main per (v_kind_of (heap w h))) ->
  size (heap (placed (place_child sz padding per sp st b)) h)
    = NewSize (Width sz) (final_main per (v_kind_of (heap w h))).
Proof.
  intros e q; rewrite v_place_child_kind.
  rewrite (v_kind_of_same b e).
  destruct (v_kind_of (heap w b)) eqn:Kb; cbn [measured placed]; auto.
  - now rewrite size_Move.
  - destruct (Nat.eq_dec h b) as [->|ne].
    + rewrite heap_Resize_same, Kb; reflexivity.
    + now rewrite heap_Resize_other, size_Move.
Qed.

Lemma v_place_size sz padding per sp w h l :
  forall st, same_observers (placed st) w ->
  (In h l /\ (exists m g, v_kind_of (heap w h) = Grows m g)) \/
  size (heap (placed st) h)
    = NewSize (Width sz) (final_main per (v_kind_of (heap w h))) ->
  size (heap (placed (fold_left (place_child sz padding per sp) l st)) h)
    = NewSize (Width sz) (final_main per (v_kind_of (heap w h))).
Proof.
  intros st e [[inh (m & g & K)]|q].
  - apply (@fold_left_established _ _ (place_child sz padding per sp)
             (fun st => same_observers (placed st) w)
             (fun st => size (heap (placed st) h)
                = NewSize (Width sz) (final_main per (v_kind_of (heap w h)))) h);
      auto.
    + intros; now apply v_place_child_observers.
    + intros; now apply v_place_child_size_stable.
    + intros a ea; rewrite v_place_child_kind.
      rewrite (v_kind_of_same h ea), K; cbn [measured placed].
      now rewrite heap_Resize_same.
  - apply (@fold_left_invariant _ _ (place_child sz padding per sp)
             (fun st => same_observers (placed st) w /\
                size (heap (placed st) h)
                = NewSize (Width sz) (final_main per (v_kind_of (heap w h)))));
      auto.
    intros a b [ea qa]; split;
      [now apply v_place_child_observers | now apply v_place_child_size_stable].
Qed.

(** The size of a child laid out, after [Layout]. *)
Lemma v_Layout_size v objects sz w h :
  In h objects -> laid_out (v_kind_of (heap w h)) = true ->
  size (heap (Layout v objects sz w) h)
  = NewSize (Width sz)
      (final_main (hPerFactor v objects sz w) (v_kind_of (heap w h))).
Proof.
  intros inh lo; unfold Layout, place_all.
  destruct (v_measure_all_spec objects sz w) as (ev & _).
  apply v_place_size; simpl; [exact (ev_observers ev)|].
  destruct (v_kind_of (heap w h)) eqn:K; try discriminate.
  - right; simpl. now apply v_measure_size_ordinary.
  - left; eauto.
Qed.

Lemma v_place_fold_evolves ok sz padding per sp w0 l :
  (forall c, In c l -> laid_out (v_kind_of (heap w0 c)) = true -> ok c) ->
  forall st, evolves ok w0 (placed st) ->
  evolves ok w0 (placed (fold_left (place_child sz padding per sp) l st)).
Proof.
  intros okl st ev.
  apply (@fold_left_invariant_in _ _ (place_child sz padding per sp)
           (fun st => evolves ok w0 (placed st))); auto.
  intros a b inb eva; rewrite v_place_child_kind.
  rewrite (v_kind_of_same b (ev_observers eva)).
  specialize (okl b inb).
  destruct (v_kind_of (heap w0 b)); simpl in *; auto.
  - apply evolves_Move; auto.
  - apply evolves_Resize, evolves_Move; auto.
Qed.

(** [Layout] calls [Move] and [Resize] on visible children of the slice
    that are not spacers, and on nothing else. *)
Lemma v_Layout_evolves v objects sz w :
  evolves (v_touched w objects) w (Layout v objects sz w).
Proof.
  unfold Layout, place_all.
  destruct (v_measure_all_spec objects sz w) as (ev & _).
  apply v_place_fold_evolves; simpl; auto.
  intros c inc lo; now split.
Qed.
End VBoxSizes.

(** ** Swapping the axes *)

Section Transpose.
Variable F : Type.
Implicit Types (w : World F) (h child : handle) (o : CanvasObject F).

Definition transposeSize (s : Size F) : Size F := NewSize (Height s) (Width s).

Definition transposePos (p : Position F) : Position F := NewPos (Y p) (X p).

Definition transposeSpacer (s : SpacerObject) : SpacerObject :=
  {| ExpandVertical := ExpandHorizontal s;
     ExpandHorizontal := ExpandVertical s |}.

Definition transposeObject o : CanvasObject F :=
  {| Visible := Visible o;
     MinSize := transposeSize (MinSize o);
     asGrowable := asGrowable o;
     asSpacerObject := option_map transposeSpacer (asSpacerObject o);
     position := transposePos (position o);
     size := transposeSize (size o) |}.

Definition transposeCall (c : Call F) : Call F :=
  match c with
  | CallMove h p => CallMove h (transposePos p)
  | CallResize h s => CallResize h (transposeSize s)
  end.

Definition transposeWorld w : World F :=
  {| heap := fun h => transposeObject (heap w h);
     calls := map transposeCall (calls w) |}.

(** Two worlds hold the same object at every handle and the same log. *)
Definition world_eq w w' : Prop :=
  (forall h, heap w h = heap w' h) /\ calls w = calls w'.

Lemma transposeSize_involutive s : transposeSize (transposeSize s) = s.
Proof. now destruct s. Qed.

Lemma transposePos_involutive p : transposePos (transposePos p) = p.
Proof. now destruct p. Qed.

Lemma transposeObject_involutive o : transposeObject (transposeObject o) = o.
Proof.
  destruct o as [vis ms gr sp pos s]; unfold transposeObject; simpl.
  rewrite !transposeSize_involutive, transposePos_involutive.
  now destruct sp as [[ev eh]|].
Qed.

Lemma transposeCall_involutive c : transposeCall (transposeCall c) = c.
Proof.
  destruct c; simpl;
    now rewrite ?transposePos_involutive, ?transposeSize_involutive.
Qed.

Lemma world_eq_refl w : world_eq w w.
Proof. now split. Qed.

Lemma world_eq_transpose_twice w : world_eq w (transposeWorld (transposeWorld w)).
Proof.
  split; simpl.
  - intro h; now rewrite transposeObject_involutive.
  - rewrite map_map; symmetry; erewrite map_ext; [apply map_id|].
    apply transposeCall_involutive.
Qed.

Lemma world_eq_Move w w' child p :
  world_eq w (transposeWorld w') ->
  world_eq (Move child (transposePos p) w) (transposeWorld (Move child p w')).
Proof.
  intros [eh ec]; split; simpl.
  - intro h; unfold update; rewrite eh; simpl.
    now destruct (Nat.eqb h child).
  - now rewrite ec, map_app.
Qed.

Lemma world_eq_Resize w w' child s :
  world_eq w (transposeWorld w') ->
  world_eq (Resize child (transposeSize s) w)
    (transposeWorld (Resize child s w')).
Proof.
  intros [eh ec]; split; simpl.
  - intro h; unfold update; rewrite eh; simpl.
    now destruct (Nat.eqb h child).
  - now rewrite ec, map_app.
Qed.

Lemma isHorizontalSpacer_transpose o :
  isHorizontalSpacer (transposeObject o) = isVerticalSpacer o.
Proof.
  unfold isHorizontalSpacer, isVerticalSpacer; simpl.
  now destruct (asSpacerObject o).
Qed.

Lemma isVerticalSpacer_transpose o :
  isVerticalSpacer (transposeObject o) = isHorizontalSpacer o.
Proof.
  unfold isHorizontalSpacer, isVerticalSpacer; simpl.
  now destruct (asSpacerObject o).
Qed.
End Transpose.

Section KindsTransposed.
Context {F : Type} `{Float32Ops F}.

Lemma h_kind_of_transpose (o : CanvasObject F) :
  h_kind_of (transposeObject o) = v_kind_of o.
Proof.
  unfold h_kind_of, v_kind_of.
  now rewrite isHorizontalSpacer_transpose.
Qed.

Lemma v_kind_of_transpose (o : CanvasObject F) :
  v_kind_of (transposeObject o) = h_kind_of o.
Proof.
  unfold h_kind_of, v_kind_of.
  now rewrite isVerticalSpacer_transpose.
Qed.

Lemma v_kinds_transpose (w : World F) l :
  v_kinds (transposeWorld w) l = h_kinds w l.
Proof.
  unfold v_kinds, h_kinds; apply map_ext; intro h; simpl.
  apply v_kind_of_transpose.
Qed.
End KindsTransposed.

(** ** [hBoxLayout] is [vBoxLayout] with the axes swapped *)

Section Mirror.
Context {F : Type} `{Float32Ops F}.
Implicit Types (w : World F) (h child : handle) (sz : Size F).

(** The vertical layout with the padding of a horizontal one. *)
Definition mirrored (g : hBoxLayout.t F) : vBoxLayout.t F :=
  {| vBoxLayout.paddingFunc := hBoxLayout.paddingFunc g |}.

(** The body of the first loop of [hBoxLayout.Layout], by the kind of the
    child. *)
Lemma h_measure_child_kind sz acc child :
  hBoxLayout.measure_child sz acc child =
  match h_kind_of (heap (hBoxLayout.measured acc) child) with
  | Skipped => acc
  | IsSpacer =>
      {| hBoxLayout.spacers := hBoxLayout.spacers acc + 1;
         hBoxLayout.visibleObjects := hBoxLayout.visibleObjects acc;
         hBoxLayout.totalMinWidths := hBoxLayout.totalMinWidths acc;
         hBoxLayout.growFactors := hBoxLayout.growFactors acc;
         hBoxLayout.measured := hBoxLayout.measured acc |}
  | Grows m g =>
      {| hBoxLayout.spacers := hBoxLayout.spacers acc;
         hBoxLayout.visibleObjects := hBoxLayout.visibleObjects acc + 1;
         hBoxLayout.totalMinWidths := (hBoxLayout.totalMinWidths acc + m)%f32;
         hBoxLayout.growFactors :=
           (hBoxLayout.growFactors acc + g * floor1 m)%f32;
         hBoxLayout.measured := hBoxLayout.measured acc |}
  | Ordinary m =>
      {| hBoxLayout.spacers := hBoxLayout.spacers acc;
         hBoxLayout.visibleObjects := hBoxLayout.visibleObjects acc + 1;
         hBoxLayout.totalMinWidths := (hBoxLayout.totalMinWidths acc + m)%f32;
         hBoxLayout.growFactors := hBoxLayout.growFactors acc;
         hBoxLayout.measured :=
           Resize child (NewSize m (Height sz)) (hBoxLayout.measured acc) |}
  end.
Proof.
  unfold hBoxLayout.measure_child, h_kind_of.
  destruct (Visible (heap (hBoxLayout.measured acc) child)),
    (isHorizontalSpacer (heap (hBoxLayout.measured acc) child)),
    (asGrowable (heap (hBoxLayout.measured acc) child)); reflexivity.
Qed.

(** The body of the second loop of [hBoxLayout.Layout], by the kind of the
    child. *)
Lemma h_place_child_kind sz padding per sp st child :
  hBoxLayout.place_child sz padding per sp st child =
  match h_kind_of (heap (hBoxLayout.placed st) child) with
  | Skipped => st
  | IsSpacer =>
      {| hBoxLayout.x := (hBoxLayout.x st + sp)%f32;
         hBoxLayout.y := hBoxLayout.y st;
         hBoxLayout.placed := hBoxLayout.placed st |}
  | Grows m g =>
      {| hBoxLayout.x := (hBoxLayout.x st + (padding + (m + per * g * m)))%f32;
         hBoxLayout.y := hBoxLayout.y st;
         hBoxLayout.placed :=
           Resize child (NewSize (m + per * g * m)%f32 (Height sz))
             (Move child (NewPos (hBoxLayout.x st) (hBoxLayout.y st))
                (hBoxLayout.placed st)) |}
  | Ordinary m =>
      {| hBoxLayout.x := (hBoxLayout.x st + (padding + m))%f32;
         hBoxLayout.y := hBoxLayout.y st;
         hBoxLayout.placed :=
           Move child (NewPos (hBoxLayout.x st) (hBoxLayout.y st))
             (hBoxLayout.placed st) |}
  end.
Proof.
  unfold hBoxLayout.place_child, h_kind_of.
  rewrite heap_Move_same; simpl.
  destruct (Visible (heap (hBoxLayout.placed st) child)),
    (isHorizontalSpacer (heap (hBoxLayout.placed st) child)),
    (asGrowable (heap (hBoxLayout.placed st) child)); reflexivity.
Qed.

(** The variables of the first loops correspond. *)
Definition measure_mirrors (mh : hBoxLayout.measure F) (mv : vBoxLayout.measure F)
    : Prop :=
  hBoxLayout.spacers mh = vBoxLayout.spacers mv /\
  hBoxLayout.visibleObjects mh = vBoxLayout.visibleObjects mv /\
  hBoxLayout.totalMinWidths mh = vBoxLayout.totalMinHights mv /\
  hBoxLayout.growFactors mh = vBoxLayout.growFactors mv /\
  world_eq (hBoxLayout.measured mh) (transposeWorld (vBoxLayout.measured mv)).

(** The variables of the second loops correspond. *)
Definition place_mirrors (sh : hBoxLayout.place F) (sv : vBoxLayout.place F)
    : Prop :=
  hBoxLayout.x sh = vBoxLayout.y sv /\
  hBoxLayout.y sh = vBoxLayout.x sv /\
  world_eq (hBoxLayout.placed sh) (transposeWorld (vBoxLayout.placed sv)).

Lemma measure_child_mirrors sz mh mv child :
  measure_mirrors mh mv ->
  measure_mirrors (hBoxLayout.measure_child sz mh child)
    (vBoxLayout.measure_child (transposeSize sz) mv child).
Proof.
  intros (e1 & e2 & e3 & e4 & e5).
  rewrite h_measure_child_kind, v_measure_child_kind.
  destruct e5 as [eh ec] eqn:E5; rewrite eh; simpl.
  rewrite h_kind_of_transpose.
  destruct (v_kind_of (heap (vBoxLayout.measured mv) child));
    unfold measure_mirrors; simpl; rewrite ?e1, ?e2, ?e3, ?e4;
    repeat split; auto.
  - intro k; simpl; unfold update; rewrite eh; simpl.
    now destruct (Nat.eqb k child).
  - simpl; now rewrite ec, map_app.
Qed.

Lemma measure_all_mirrors objects sz w :
  measure_mirrors (hBoxLayout.measure_all objects sz w)
    (vBoxLayout.measure_all objects (transposeSize sz) (transposeWorld w)).
Proof.
  unfold hBoxLayout.measure_all, vBoxLayout.measure_all.
  apply fold_left_related with (R := measure_mirrors).
  - intros; now apply measure_child_mirrors.
  - unfold measure_mirrors; cbn [hBoxLayout.spacers hBoxLayout.visibleObjects
      hBoxLayout.totalMinWidths hBoxLayout.growFactors hBoxLayout.measured
      vBoxLayout.spacers vBoxLayout.visibleObjects vBoxLayout.totalMinHights
      vBoxLayout.growFactors vBoxLayout.measured].
    repeat (split; [reflexivity|]); apply world_eq_transpose_twice.
Qed.

Lemma h_extra_mirror g objects sz w :
  hBoxLayout.extra g objects sz w
  = vBoxLayout.extra (mirrored g) objects (transposeSize sz) (transposeWorld w).
Proof.
  unfold hBoxLayout.extra, vBoxLayout.extra.
  destruct (measure_all_mirrors objects sz w) as (_ & e2 & e3 & _).
  now rewrite e2, e3.
Qed.

Lemma h_wPerFactor_mirror g objects sz w :
  hBoxLayout.wPerFactor g objects sz w
  = vBoxLayout.hPerFactor (mirrored g) objects (transposeSize sz)
      (transposeWorld w).
Proof.
  unfold hBoxLayout.wPerFactor, vBoxLayout.hPerFactor.
  rewrite h_extra_mirror.
  destruct (measure_all_mirrors objects sz w) as (_ & _ & _ & e4 & _).
  now rewrite e4.
Qed.

Lemma h_spacerSize_mirror g objects sz w :
  hBoxLayout.spacerSize g objects sz w
  = vBoxLayout.spacerSize (mirrored g) objects (transposeSize sz)
      (transposeWorld w).
Proof.
  unfold hBoxLayout.spacerSize, vBoxLayout.spacerSize.
  rewrite h_extra_mirror.
  destruct (measure_all_mirrors objects sz w) as (e1 & _).
  now rewrite e1.
Qed.

Lemma place_child_mirrors sz padding per sp sh sv child :
  place_mirrors sh sv ->
  place_mirrors (hBoxLayout.place_child sz padding per sp sh child)
    (vBoxLayout.place_child (transposeSize sz) padding per sp sv child).
Proof.
  intros (e1 & e2 & e3).
  rewrite h_place_child_kind, v_place_child_kind.
  destruct e3 as [eh ec] eqn:E3; rewrite eh; simpl.
  rewrite h_kind_of_transpose.
  destruct (v_kind_of (heap (vBoxLayout.placed sv) child));
    unfold place_mirrors; simpl; rewrite ?e1, ?e2; repeat split; auto.
  - intro k; simpl; unfold update; rewrite eh; simpl.
    now destruct (Nat.eqb k child).
  - simpl; now rewrite ec, map_app.
  - intro k; simpl; unfold update; rewrite eh; simpl.
    now destruct (Nat.eqb k child).
  - simpl; now rewrite ec, !map_app.
Qed.

Lemma place_all_mirrors g objects sz w :
  place_mirrors (hBoxLayout.place_all g objects sz w)
    (vBoxLayout.place_all (mirrored g) objects (transposeSize sz)
       (transposeWorld w)).
Proof.
  unfold hBoxLayout.place_all, vBoxLayout.place_all.
  rewrite h_wPerFactor_mirror, h_spacerSize_mirror.
  apply fold_left_related with (R := place_mirrors).
  - intros; now apply place_child_mirrors.
  - unfold place_mirrors; simpl; repeat split; auto;
      destruct (measure_all_mirrors objects sz w) as (_ & _ & _ & _ & e5);
      apply e5.
Qed.

Lemma h_Layout_mirror g objects sz w :
  world_eq (hBoxLayout.Layout g objects sz w)
    (transposeWorld
       (vBoxLayout.Layout (mirrored g) objects (transposeSize sz)
          (transposeWorld w))).
Proof. apply place_all_mirrors. Qed.
End Mirror.

(** ** The loop of [MinSize] *)

Section MinSizeLoops.
Context {F : Type} `{Float32Ops F}.
Implicit Types (w : World F) (h child : handle) (sz : Size F).

(** The children of the slice that are laid out, in order. *)
Definition v_laid w (objects : list handle) : list handle :=
  filter (fun child => laid_out (v_kind_of (heap w child))) objects.

Definition h_laid w (objects : list handle) : list handle :=
  filter (fun child => laid_out (h_kind_of (heap w child))) objects.

Lemma v_minsize_child_kind padding w acc child :
  vBoxLayout.minsize_child padding w acc child =
  if laid_out (v_kind_of (heap w child)) then
    let childMin := MinSize (heap w child) in
    let height :=
      (Height (vBoxLayout.minSize acc) + Height childMin)%f32 in
    {| vBoxLayout.minSize :=
         NewSize (Max (Width childMin) (Width (vBoxLayout.minSize acc)))
           (if vBoxLayout.addPadding acc then (height + padding)%f32
            else height);
       vBoxLayout.addPadding := true |}
  else acc.
Proof.
  unfold vBoxLayout.minsize_child, v_kind_of.
  destruct (Visible (heap w child)), (isVerticalSpacer (heap w child)),
    (asGrowable (heap w child)); reflexivity.
Qed.

Lemma h_minsize_child_kind padding w acc child :
  hBoxLayout.minsize_child padding w acc child =
  if laid_out (h_kind_of (heap w child)) then
    let childMin := MinSize (heap w child) in
    let width :=
      (Width (hBoxLayout.minSize acc) + Width childMin)%f32 in
    {| hBoxLayout.minSize :=
         NewSize
           (if hBoxLayout.addPadding acc then (width + padding)%f32
            else width)
           (Max (Height childMin) (Height (hBoxLayout.minSize acc)));
       hBoxLayout.addPadding := true |}
  else acc.
Proof.
  unfold hBoxLayout.minsize_child, h_kind_of.
  destruct (Visible (heap w child)), (isHorizontalSpacer (heap w child)),
    (asGrowable (heap w child)); reflexivity.
Qed.

(** Children that are not laid out do not enter [MinSize]. *)
Lemma v_MinSize_laid v objects w :
  vBoxLayout.MinSize v objects w = vBoxLayout.MinSize v (v_laid w objects) w.
Proof.
  unfold vBoxLayout.MinSize, v_laid; f_equal.
  apply fold_left_related_filter with (R := eq); auto.
  - intros a a' b _ ->; reflexivity.
  - intros a a' b nb ->; rewrite v_minsize_child_kind.
    now rewrite nb.
Qed.

Definition minsize_mirrors (ah : hBoxLayout.minsize F)
    (av : vBoxLayout.minsize F) : Prop :=
  hBoxLayout.minSize ah = transposeSize (vBoxLayout.minSize av) /\
  hBoxLayout.addPadding ah = vBoxLayout.addPadding av.

Lemma h_MinSize_mirror g objects w :
  hBoxLayout.MinSize g objects w
  = transposeSize (vBoxLayout.MinSize (mirrored g) objects (transposeWorld w)).
Proof.
  unfold hBoxLayout.MinSize, vBoxLayout.MinSize.
  apply (@fold_left_related _ _ _
           (hBoxLayout.minsize_child (hBoxLayout.paddingFunc g tt) w)
           (vBoxLayout.minsize_child
              (vBoxLayout.paddingFunc (mirrored g) tt) (transposeWorld w))
           minsize_mirrors).
  - intros ah av child [e1 e2].
    rewrite h_minsize_child_kind, v_minsize_child_kind.
    cbn [heap transposeWorld]; rewrite v_kind_of_transpose.
    destruct (laid_out (h_kind_of (heap w child))); [|now split].
    split; cbn; rewrite ?e1, ?e2; reflexivity.
  - now split.
Qed.

(** The main-axis minimums of the children laid out are those of their
    kinds. *)
Lemma mins_v_kinds w objects :
  mins (v_kinds w objects)
  = map (fun child => Height (MinSize (heap w child))) (v_laid w objects).
Proof.
  unfold v_kinds, v_laid; induction objects as [|c l IH]; simpl; auto.
  unfold v_kind_of at 1 3.
  destruct (Visible (heap w c)), (isVerticalSpacer (heap w c)),
    (asGrowable (heap w c)); simpl; now rewrite IH.
Qed.

Lemma v_laid_transpose w objects :
  v_laid (transposeWorld w) objects = h_laid w objects.
Proof.
  unfold v_laid, h_laid; apply filter_ext; intro c; simpl.
  now rewrite v_kind_of_transpose.
Qed.

Lemma mins_h_kinds w objects :
  mins (h_kinds w objects)
  = map (fun child => Width (MinSize (heap w child))) (h_laid w objects).
Proof.
  rewrite <- v_kinds_transpose, mins_v_kinds, v_laid_transpose.
  reflexivity.
Qed.
End MinSizeLoops.

(** ** The facts about [vBoxLayout], carried over to [hBoxLayout] *)

Section HBoxFacts.
Context {F : Type} `{Float32Ops F}.
Implicit Types (w : World F) (h child : handle) (sz : Size F)
  (g : hBoxLayout.t F).

Definition h_touched w (objects : list handle) : handle -> Prop :=
  fun h => In h objects /\ laid_out (h_kind_of (heap w h)) = true.

Lemma h_extra_spec g objects sz w :
  hBoxLayout.extra g objects sz w
  = spec_extra (Width sz) (hBoxLayout.paddingFunc g tt) (h_kinds w objects).
Proof.
  now rewrite h_extra_mirror, v_extra_spec, v_kinds_transpose.
Qed.

Lemma h_wPerFactor_spec g objects sz w :
  hBoxLayout.wPerFactor g objects sz w
  = spec_perWeightUnit (Width sz) (hBoxLayout.paddingFunc g tt)
      (h_kinds w objects).
Proof.
  now rewrite h_wPerFactor_mirror, v_hPerFactor_spec, v_kinds_transpose.
Qed.

Lemma h_spacerSize_spec g objects sz w :
  hBoxLayout.spacerSize g objects sz w
  = spec_perSpacer (Width sz) (hBoxLayout.paddingFunc g tt) (h_kinds w objects).
Proof.
  now rewrite h_spacerSize_mirror, v_spacerSize_spec, v_kinds_transpose.
Qed.

Lemma h_Layout_size g objects sz w h :
  In h objects -> laid_out (h_kind_of (heap w h)) = true ->
  size (heap (hBoxLayout.Layout g objects sz w) h)
  = NewSize
      (final_main (hBoxLayout.wPerFactor g objects sz w)
         (h_kind_of (heap w h)))
      (Height sz).
Proof.
  intros inh lo.
  destruct (h_Layout_mirror g objects sz w) as [eh _]; rewrite eh.
  cbn [heap transposeWorld size transposeObject].
  rewrite v_Layout_size; auto.
  - cbn [heap transposeWorld]; rewrite v_kind_of_transpose.
    now rewrite h_wPerFactor_mirror.
  - cbn [heap transposeWorld]; now rewrite v_kind_of_transpose.
Qed.

Lemma target_transposeCall (c : Call F) : target (transposeCall c) = target c.
Proof. now destruct c. Qed.

(** A run of the vertical layout on the transposed world, read back. *)
Lemma evolves_transposed ok w w' wh :
  evolves ok (transposeWorld w) w' -> world_eq wh (transposeWorld w') ->
  evolves ok w wh.
Proof.
  intros [(o1 & o2 & o3 & o4) (cs & ec & fc) fr] [eh ecalls]; split.
  - repeat split; intro h; rewrite eh; simpl.
    + apply o1.
    + rewrite o2; simpl; apply transposeSize_involutive.
    + apply o3.
    + rewrite o4; simpl.
      destruct (asSpacerObject (heap w h)) as [[ev ehz]|]; reflexivity.
  - exists (map (@transposeCall F) cs); split.
    + rewrite ecalls; simpl; rewrite ec; simpl.
      rewrite map_app, map_map; f_equal.
      erewrite map_ext; [apply map_id|]; apply transposeCall_involutive.
    + apply Forall_map; eapply Forall_impl; [|exact fc].
      intros c okc; now rewrite target_transposeCall.
  - intros h nh; rewrite eh; simpl; rewrite (fr h nh); simpl.
    apply transposeObject_involutive.
Qed.

Lemma h_Layout_evolves g objects sz w :
  evolves (h_touched w objects) w (hBoxLayout.Layout g objects sz w).
Proof.
  eapply evolves_transposed; [|apply h_Layout_mirror].
  assert (e : forall k, v_touched (transposeWorld w) objects k
                        <-> h_touched w objects k).
  { intro k; unfold v_touched, h_touched; simpl.
    now rewrite v_kind_of_transpose. }
  destruct (v_Layout_evolves (mirrored g) objects (transposeSize sz)
              (transposeWorld w)) as [o (cs & ec & fc) fr].
  split; auto.
  - exists cs; split; auto.
    eapply Forall_impl; [|exact fc]; intros c; apply e.
  - intros k nk; apply fr; intro vk; apply nk, e, vk.
Qed.

Lemma h_MinSize_laid g objects w :
  hBoxLayout.MinSize g objects w = hBoxLayout.MinSize g (h_laid w objects) w.
Proof.
  rewrite !h_MinSize_mirror, v_MinSize_laid, v_laid_transpose.
  reflexivity.
Qed.
End HBoxFacts.

(** ** Properties of the layouts *)

Section CrossAxis.
Context {F : Type} `{Float32Ops F}.

(** C5: after [Layout], every visible child of the slice that is not a
    spacer along the layout's axis is as wide as the container in a
    vertical box and as high as the container in a horizontal box, whatever
    its own minimum across the axis. *)
Theorem Layout_cross_axis_matches_container
    (v : vBoxLayout.t F) (g : hBoxLayout.t F) (objects : list handle)
    (sz : Size F) (w : World F) (child : handle) :
  In child objects ->
  Visible (heap w child) = true ->
  (isVerticalSpacer (heap w child) = false ->
   Width (size (heap (vBoxLayout.Layout v objects sz w) child)) = Width sz) /\
  (isHorizontalSpacer (heap w child) = false ->
   Height (size (heap (hBoxLayout.Layout g objects sz w) child)) = Height sz).
Proof.
  intros inc vis; split; intro ns.
  - rewrite v_Layout_size; auto.
    now apply v_kind_laid_out.
  - rewrite h_Layout_size; auto.
    now apply h_kind_laid_out.
Qed.
End CrossAxis.

Section Skipping.
Variables (A B : Type).

(** An element on which the loop body does nothing can be dropped from the
    slice. *)
Lemma fold_left_skip (f : A -> B -> A) (I : A -> Prop) (c : B) :
  (forall a b, I a -> I (f a b)) ->
  (forall a, I a -> f a c = a) ->
  forall l1 l2 a, I a ->
  fold_left f (l1 ++ c :: l2) a = fold_left f (l1 ++ l2) a.
Proof.
  intros inv skip l1 l2 a Ia.
  rewrite !fold_left_app; simpl.
  rewrite skip; [reflexivity|].
  now apply fold_left_invariant.
Qed.
End Skipping.

Section Invisible.
Context {F : Type} `{Float32Ops F}.
Implicit Types (w : World F) (h child : handle) (sz : Size F).

Lemma h_measure_child_observers sz w acc child :
  same_observers (hBoxLayout.measured acc) w ->
  same_observers (hBoxLayout.measured (hBoxLayout.measure_child sz acc child)) w.
Proof.
  intro e; rewrite h_measure_child_kind.
  destruct (h_kind_of (heap (hBoxLayout.measured acc) child)); simpl; auto.
  eapply same_observers_trans; [apply same_observers_Resize | exact e].
Qed.

Lemma h_place_child_observers sz padding per sp w st child :
  same_observers (hBoxLayout.placed st) w ->
  same_observers
    (hBoxLayout.placed (hBoxLayout.place_child sz padding per sp st child)) w.
Proof.
  intro e; rewrite h_place_child_kind.
  destruct (h_kind_of (heap (hBoxLayout.placed st) child)); simpl; auto.
  - eapply same_observers_trans; [apply same_observers_Move | exact e].
  - eapply same_observers_trans; [apply same_observers_Resize |].
    eapply same_observers_trans; [apply same_observers_Move | exact e].
Qed.

Lemma v_measure_all_skip before after sz w child :
  Visible (heap w child) = false ->
  vBoxLayout.measure_all (before ++ child :: after) sz w
  = vBoxLayout.measure_all (before ++ after) sz w.
Proof.
  intro inv; unfold vBoxLayout.measure_all.
  apply fold_left_skip
    with (I := fun acc => same_observers (vBoxLayout.measured acc) w).
  - intros; now apply v_measure_child_observers.
  - intros a e; rewrite v_measure_child_kind, (v_kind_of_same child e).
    apply v_kind_skipped in inv; now rewrite inv.
  - apply same_observers_refl.
Qed.

Lemma h_measure_all_skip before after sz w child :
  Visible (heap w child) = false ->
  hBoxLayout.measure_all (before ++ child :: after) sz w
  = hBoxLayout.measure_all (before ++ after) sz w.
Proof.
  intro inv; unfold hBoxLayout.measure_all.
  apply fold_left_skip
    with (I := fun acc => same_observers (hBoxLayout.measured acc) w).
  - intros; now apply h_measure_child_observers.
  - intros a e; rewrite h_measure_child_kind, (h_kind_of_same child e).
    apply h_kind_skipped in inv; now rewrite inv.
  - apply same_observers_refl.
Qed.

Lemma v_Layout_skip v before after sz w child :
  Visible (heap w child) = false ->
  vBoxLayout.Layout v (before ++ child :: after) sz w
  = vBoxLayout.Layout v (before ++ after) sz w.
Proof.
  intro inv.
  unfold vBoxLayout.Layout, vBoxLayout.place_all, vBoxLayout.hPerFactor,
    vBoxLayout.spacerSize, vBoxLayout.extra.
  rewrite (v_measure_all_skip before after sz w child inv).
  f_equal.
  apply fold_left_skip
    with (I := fun st => same_observers (vBoxLayout.placed st) w).
  - intros; now apply v_place_child_observers.
  - intros a e; rewrite v_place_child_kind, (v_kind_of_same child e).
    apply v_kind_skipped in inv; now rewrite inv.
  - simpl.
    destruct (v_measure_all_spec (before ++ after) sz w) as (ev & _).
    exact (ev_observers ev).
Qed.

Lemma h_measure_all_observers objects sz w :
  same_observers (hBoxLayout.measured (hBoxLayout.measure_all objects sz w)) w.
Proof.
  unfold hBoxLayout.measure_all.
  apply fold_left_invariant
    with (P := fun acc => same_observers (hBoxLayout.measured acc) w).
  - intros; now apply h_measure_child_observers.
  - apply same_observers_refl.
Qed.

Lemma h_Layout_skip g before after sz w child :
  Visible (heap w child) = false ->
  hBoxLayout.Layout g (before ++ child :: after) sz w
  = hBoxLayout.Layout g (before ++ after) sz w.
Proof.
  intro inv.
  unfold hBoxLayout.Layout, hBoxLayout.place_all, hBoxLayout.wPerFactor,
    hBoxLayout.spacerSize, hBoxLayout.extra.
  rewrite (h_measure_all_skip before after sz w child inv).
  f_equal.
  apply fold_left_skip
    with (I := fun st => same_observers (hBoxLayout.placed st) w).
  - intros; now apply h_place_child_observers.
  - intros a e; rewrite h_place_child_kind, (h_kind_of_same child e).
    apply h_kind_skipped in inv; now rewrite inv.
  - simpl; apply h_measure_all_observers.
Qed.

Lemma v_MinSize_skip v before after w child :
  Visible (heap w child) = false ->
  vBoxLayout.MinSize v (before ++ child :: after) w
  = vBoxLayout.MinSize v (before ++ after) w.
Proof.
  intro inv; unfold vBoxLayout.MinSize; f_equal.
  apply fold_left_skip with (I := fun _ => True); auto.
  intros a _; rewrite v_minsize_child_kind.
  apply v_kind_skipped in inv; now rewrite inv.
Qed.

Lemma h_MinSize_skip g before after w child :
  Visible (heap w child) = false ->
  hBoxLayout.MinSize g (before ++ child :: after) w
  = hBoxLayout.MinSize g (before ++ after) w.
Proof.
  intro inv; unfold hBoxLayout.MinSize; f_equal.
  apply fold_left_skip with (I := fun _ => True); auto.
  intros a _; rewrite h_minsize_child_kind.
  apply h_kind_skipped in inv; now rewrite inv.
Qed.

(** The calls [Layout] adds to the log: none of them is on [child]. *)
Definition never_called (child : handle) (w w' : World F) : Prop :=
  exists cs, calls w' = calls w ++ cs /\ Forall (fun c => target c <> child) cs.

Lemma evolves_never_called (ok : handle -> Prop) w w' child :
  ~ ok child -> evolves ok w w' ->
  heap w' child = heap w child /\ never_called child w w'.
Proof.
  intros nok [_ (cs & ec & fc) fr]; split; [now apply fr|].
  exists cs; split; auto.
  eapply Forall_impl; [|exact fc]; simpl; intros c okc e.
  apply nok; now rewrite <- e.
Qed.

(** C7: an invisible child adds no size and no padding gap to [MinSize],
    changes nothing in what [Layout] does (the slice without it gives the
    same result), and [Layout] makes no [Move] or [Resize] call on it,
    leaving its position and size as they were. *)
Theorem invisible_child_is_excluded
    (v : vBoxLayout.t F) (g : hBoxLayout.t F) (before after : list handle)
    (sz : Size F) (w : World F) (child : handle) :
  Visible (heap w child) = false ->
  (vBoxLayout.MinSize v (before ++ child :: after) w
     = vBoxLayout.MinSize v (before ++ after) w /\
   hBoxLayout.MinSize g (before ++ child :: after) w
     = hBoxLayout.MinSize g (before ++ after) w) /\
  (vBoxLayout.Layout v (before ++ child :: after) sz w
     = vBoxLayout.Layout v (before ++ after) sz w /\
   hBoxLayout.Layout g (before ++ child :: after) sz w
     = hBoxLayout.Layout g (before ++ after) sz w) /\
  (forall objects,
     (heap (vBoxLayout.Layout v objects sz w) child = heap w child /\
      never_called child w (vBoxLayout.Layout v objects sz w)) /\
     (heap (hBoxLayout.Layout g objects sz w) child = heap w child /\
      never_called child w (hBoxLayout.Layout g objects sz w))).
Proof.
  intro inv; repeat split.
  - now apply v_MinSize_skip.
  - now apply h_MinSize_skip.
  - now apply v_Layout_skip.
  - now apply h_Layout_skip.
  - apply (evolves_never_called (ok := v_touched w objects));
      [|apply v_Layout_evolves].
    intros [_ lo]; apply v_kind_laid_out in lo; destruct lo; congruence.
  - apply (evolves_never_called (ok := v_touched w objects));
      [|apply v_Layout_evolves].
    intros [_ lo]; apply v_kind_laid_out in lo; destruct lo; congruence.
  - apply (evolves_never_called (ok := h_touched w objects));
      [|apply h_Layout_evolves].
    intros [_ lo]; apply h_kind_laid_out in lo; destruct lo; congruence.
  - apply (evolves_never_called (ok := h_touched w objects));
      [|apply h_Layout_evolves].
    intros [_ lo]; apply h_kind_laid_out in lo; destruct lo; congruence.
Qed.
End Invisible.

(** ** The cursor of the second loop *)

Section Cursor.
Context {F : Type} `{Float32Ops F}.
Implicit Types (w : World F) (h child : handle) (sz : Size F).

Lemma firstn_succ_nth_error (A : Type) (l : list A) n c :
  nth_error l n = Some c -> firstn (S n) l = firstn n l ++ [c].
Proof.
  revert n; induction l as [|a l IH]; intros [|n] e; simpl in *;
    try discriminate.
  - now injection e as ->.
  - f_equal; now apply IH.
Qed.

(** The variables of the second loop after its first [n] iterations. *)
Definition v_place_upto (v : vBoxLayout.t F) (objects : list handle) sz w
    (n : nat) : vBoxLayout.place F :=
  fold_left
    (vBoxLayout.place_child sz (vBoxLayout.paddingFunc v tt)
       (vBoxLayout.hPerFactor v objects sz w)
       (vBoxLayout.spacerSize v objects sz w))
    (firstn n objects)
    {| vBoxLayout.x := of_int 0; vBoxLayout.y := of_int 0;
       vBoxLayout.placed :=
         vBoxLayout.measured (vBoxLayout.measure_all objects sz w) |}.

Definition h_place_upto (g : hBoxLayout.t F) (objects : list handle) sz w
    (n : nat) : hBoxLayout.place F :=
  fold_left
    (hBoxLayout.place_child sz (hBoxLayout.paddingFunc g tt)
       (hBoxLayout.wPerFactor g objects sz w)
       (hBoxLayout.spacerSize g objects sz w))
    (firstn n objects)
    {| hBoxLayout.x := of_int 0; hBoxLayout.y := of_int 0;
       hBoxLayout.placed :=
         hBoxLayout.measured (hBoxLayout.measure_all objects sz w) |}.

Lemma v_place_upto_all v objects sz w :
  vBoxLayout.Layout v objects sz w
  = vBoxLayout.placed (v_place_upto v objects sz w (length objects)).
Proof.
  unfold v_place_upto; now rewrite firstn_all.
Qed.

Lemma h_place_upto_all g objects sz w :
  hBoxLayout.Layout g objects sz w
  = hBoxLayout.placed (h_place_upto g objects sz w (length objects)).
Proof.
  unfold h_place_upto; now rewrite firstn_all.
Qed.

Lemma v_place_upto_step v objects sz w n child :
  nth_error objects n = Some child ->
  v_place_upto v objects sz w (S n)
  = vBoxLayout.place_child sz (vBoxLayout.paddingFunc v tt)
      (vBoxLayout.hPerFactor v objects sz w)
      (vBoxLayout.spacerSize v objects sz w)
      (v_place_upto v objects sz w n) child.
Proof.
  intro e; unfold v_place_upto.
  now rewrite (firstn_succ_nth_error _ _ e), fold_left_app.
Qed.

Lemma h_place_upto_step g objects sz w n child :
  nth_error objects n = Some child ->
  h_place_upto g objects sz w (S n)
  = hBoxLayout.place_child sz (hBoxLayout.paddingFunc g tt)
      (hBoxLayout.wPerFactor g objects sz w)
      (hBoxLayout.spacerSize g objects sz w)
      (h_place_upto g objects sz w n) child.
Proof.
  intro e; unfold h_place_upto.
  now rewrite (firstn_succ_nth_error _ _ e), fold_left_app.
Qed.

Lemma v_place_upto_observers v objects sz w n :
  same_observers (vBoxLayout.placed (v_place_upto v objects sz w n)) w.
Proof.
  unfold v_place_upto.
  apply fold_left_invariant
    with (P := fun st => same_observers (vBoxLayout.placed st) w).
  - intros; now apply v_place_child_observers.
  - simpl; destruct (v_measure_all_spec objects sz w) as (ev & _).
    exact (ev_observers ev).
Qed.

Lemma h_place_upto_observers g objects sz w n :
  same_observers (hBoxLayout.placed (h_place_upto g objects sz w n)) w.
Proof.
  unfold h_place_upto.
  apply fold_left_invariant
    with (P := fun st => same_observers (hBoxLayout.placed st) w).
  - intros; now apply h_place_child_observers.
  - simpl; apply h_measure_all_observers.
Qed.

(** At a visible spacer the second loop advances the cursor along the axis
    by [spacerSize] and does nothing else. *)
Lemma v_spacer_advances v objects sz w n child :
  nth_error objects n = Some child ->
  v_kind_of (heap w child) = IsSpacer ->
  v_place_upto v objects sz w (S n)
  = {| vBoxLayout.x := vBoxLayout.x (v_place_upto v objects sz w n);
       vBoxLayout.y :=
         (vBoxLayout.y (v_place_upto v objects sz w n)
          + vBoxLayout.spacerSize v objects sz w)%f32;
       vBoxLayout.placed :=
         vBoxLayout.placed (v_place_upto v objects sz w n) |}.
Proof.
  intros e K.
  rewrite (v_place_upto_step _ _ _ _ _ e), v_place_child_kind.
  now rewrite (v_kind_of_same child (v_place_upto_observers v objects sz w n)), K.
Qed.

Lemma h_spacer_advances g objects sz w n child :
  nth_error objects n = Some child ->
  h_kind_of (heap w child) = IsSpacer ->
  h_place_upto g objects sz w (S n)
  = {| hBoxLayout.x :=
         (hBoxLayout.x (h_place_upto g objects sz w n)
          + hBoxLayout.spacerSize g objects sz w)%f32;
       hBoxLayout.y := hBoxLayout.y (h_place_upto g objects sz w n);
       hBoxLayout.placed :=
         hBoxLayout.placed (h_place_upto g objects sz w n) |}.
Proof.
  intros e K.
  rewrite (h_place_upto_step _ _ _ _ _ e), h_place_child_kind.
  now rewrite (h_kind_of_same child (h_place_upto_observers g objects sz w n)), K.
Qed.


Lemma spec_perSpacer_pos container padding (ks : list (kind F)) :
  (0 < Z.of_nat (count_spacers ks))%Z ->
  spec_perSpacer container padding ks
  = (spec_extra container padding ks
       / of_int (Z.of_nat (count_spacers ks)))%f32.
Proof.
  intro pos; unfold spec_perSpacer.
  now apply Z.ltb_lt in pos as ->.
Qed.

Lemma spec_perWeightUnit_pos container padding (ks : list (kind F)) :
  (of_int 0 <? total (weights ks))%f32 = true ->
  spec_perWeightUnit container padding ks
  = (spec_extra container padding ks / total (weights ks))%f32.
Proof.
  intro pos; unfold spec_perWeightUnit; now rewrite pos.
Qed.

(** Dropping the spacers of a list of kinds. *)
Definition without_spacers (ks : list (kind F)) : list (kind F) :=
  filter (fun k => negb (is_spacer k)) ks.

Lemma mins_without_spacers ks : mins (without_spacers ks) = mins ks.
Proof.
  induction ks as [|[| | |] ks IH]; simpl; auto; now rewrite IH.
Qed.

Lemma weights_without_spacers ks : weights (without_spacers ks) = weights ks.
Proof.
  induction ks as [|[| | |] ks IH]; simpl; auto; now rewrite IH.
Qed.

Lemma spec_extra_without_spacers container padding ks :
  spec_extra container padding (without_spacers ks)
  = spec_extra container padding ks.
Proof. unfold spec_extra; now rewrite mins_without_spacers. Qed.

Lemma spec_perWeightUnit_without_spacers container padding ks :
  spec_perWeightUnit container padding (without_spacers ks)
  = spec_perWeightUnit container padding ks.
Proof.
  unfold spec_perWeightUnit.
  now rewrite spec_extra_without_spacers, weights_without_spacers.
Qed.

(** The slice without its visible spacers. *)
Definition v_drop_spacers w (objects : list handle) : list handle :=
  filter (fun child => negb (is_spacer (v_kind_of (heap w child)))) objects.

Definition h_drop_spacers w (objects : list handle) : list handle :=
  filter (fun child => negb (is_spacer (h_kind_of (heap w child)))) objects.

Lemma v_kinds_drop_spacers w objects :
  v_kinds w (v_drop_spacers w objects) = without_spacers (v_kinds w objects).
Proof.
  unfold v_kinds, v_drop_spacers, without_spacers.
  induction objects as [|c l IH]; simpl; auto.
  destruct (is_spacer (v_kind_of (heap w c))); simpl; now rewrite IH.
Qed.

Lemma h_kinds_drop_spacers w objects :
  h_kinds w (h_drop_spacers w objects) = without_spacers (h_kinds w objects).
Proof.
  unfold h_kinds, h_drop_spacers, without_spacers.
  induction objects as [|c l IH]; simpl; auto.
  destruct (is_spacer (h_kind_of (heap w c))); simpl; now rewrite IH.
Qed.

(** The share of a weight unit is the one of the slice without spacers. *)
Lemma v_hPerFactor_drop_spacers v objects sz w :
  vBoxLayout.hPerFactor v (v_drop_spacers w objects) sz w
  = vBoxLayout.hPerFactor v objects sz w.
Proof.
  rewrite !v_hPerFactor_spec, v_kinds_drop_spacers.
  apply spec_perWeightUnit_without_spacers.
Qed.

Lemma h_wPerFactor_drop_spacers g objects sz w :
  hBoxLayout.wPerFactor g (h_drop_spacers w objects) sz w
  = hBoxLayout.wPerFactor g objects sz w.
Proof.
  rewrite !h_wPerFactor_spec, h_kinds_drop_spacers.
  apply spec_perWeightUnit_without_spacers.
Qed.


End Cursor.

Section Spacers.
Context {F : Type} `{Float32Ops F}.
Implicit Types (w : World F) (h child : handle) (sz : Size F).



End Spacers.

Section MirrorTheorem.
Context {F : Type} `{Float32Ops F}.

(** C9: the horizontal layout is the vertical one with the axes swapped.
    [hBoxLayout.Layout] leaves every object, and the log of calls, as
    [vBoxLayout.Layout] does on the transposed world and container (x and
    y, width and height, and the two expansion directions of spacers
    exchanged), transposed back; and [hBoxLayout.MinSize] is the transposed
    [vBoxLayout.MinSize] of the transposed world. *)
Theorem hBoxLayout_is_transposed_vBoxLayout
    (g : hBoxLayout.t F) (objects : list handle) (sz : Size F) (w : World F) :
  world_eq (hBoxLayout.Layout g objects sz w)
    (transposeWorld
       (vBoxLayout.Layout (mirrored g) objects (transposeSize sz)
          (transposeWorld w))) /\
  hBoxLayout.MinSize g objects w
  = transposeSize (vBoxLayout.MinSize (mirrored g) objects (transposeWorld w)).
Proof.
  split; [apply h_Layout_mirror | apply h_MinSize_mirror].
Qed.
End MirrorTheorem.

(** ** Objects the layouts cannot tell apart *)

Section Alike.
Context {F : Type} `{Float32Ops F}.
Implicit Types (w : World F) (h child : handle) (sz : Size F)
  (o : CanvasObject F).

(** Two objects that a vertical layout cannot tell apart: they differ at
    most in how they answer the type assertion to [SpacerObject], and not
    in whether they are vertical spacers. *)
Definition v_alike o1 o2 : Prop :=
  Visible o1 = Visible o2 /\ MinSize o1 = MinSize o2 /\
  asGrowable o1 = asGrowable o2 /\
  isVerticalSpacer o1 = isVerticalSpacer o2 /\
  position o1 = position o2 /\ size o1 = size o2.

Definition v_worlds_alike w1 w2 : Prop :=
  (forall h, v_alike (heap w1 h) (heap w2 h)) /\ calls w1 = calls w2.

Lemma v_alike_kind o1 o2 : v_alike o1 o2 -> v_kind_of o1 = v_kind_of o2.
Proof.
  intros (e1 & e2 & e3 & e4 & _); unfold v_kind_of.
  now rewrite e1, e2, e3, e4.
Qed.

Lemma v_worlds_alike_Move w1 w2 child p :
  v_worlds_alike w1 w2 ->
  v_worlds_alike (Move child p w1) (Move child p w2).
Proof.
  intros [a c]; split; simpl; [|now rewrite c].
  intro h; unfold update; specialize (a h).
  destruct (Nat.eqb h child); auto.
  destruct a as (e1 & e2 & e3 & e4 & e5 & e6).
  unfold v_alike, isVerticalSpacer in *; simpl; auto 10.
Qed.

Lemma v_worlds_alike_Resize w1 w2 child s :
  v_worlds_alike w1 w2 ->
  v_worlds_alike (Resize child s w1) (Resize child s w2).
Proof.
  intros [a c]; split; simpl; [|now rewrite c].
  intro h; unfold update; specialize (a h).
  destruct (Nat.eqb h child); auto.
  destruct a as (e1 & e2 & e3 & e4 & e5 & e6).
  unfold v_alike, isVerticalSpacer in *; simpl; auto 10.
Qed.

Definition v_measures_alike (m1 m2 : vBoxLayout.measure F) : Prop :=
  vBoxLayout.spacers m1 = vBoxLayout.spacers m2 /\
  vBoxLayout.visibleObjects m1 = vBoxLayout.visibleObjects m2 /\
  vBoxLayout.totalMinHights m1 = vBoxLayout.totalMinHights m2 /\
  vBoxLayout.growFactors m1 = vBoxLayout.growFactors m2 /\
  v_worlds_alike (vBoxLayout.measured m1) (vBoxLayout.measured m2).

Definition v_places_alike (s1 s2 : vBoxLayout.place F) : Prop :=
  vBoxLayout.x s1 = vBoxLayout.x s2 /\
  vBoxLayout.y s1 = vBoxLayout.y s2 /\
  v_worlds_alike (vBoxLayout.placed s1) (vBoxLayout.placed s2).

Lemma v_measure_all_alike objects sz w1 w2 :
  v_worlds_alike w1 w2 ->
  v_measures_alike (vBoxLayout.measure_all objects sz w1)
    (vBoxLayout.measure_all objects sz w2).
Proof.
  intro a; unfold vBoxLayout.measure_all.
  apply fold_left_related with (R := v_measures_alike).
  - intros m1 m2 c (e1 & e2 & e3 & e4 & e5).
    rewrite !v_measure_child_kind.
    rewrite (v_alike_kind (proj1 e5 c)).
    destruct (v_kind_of (heap (vBoxLayout.measured m2) c));
      unfold v_measures_alike; simpl; rewrite ?e1, ?e2, ?e3, ?e4;
      repeat (split; [reflexivity|]); auto.
    now apply v_worlds_alike_Resize.
  - unfold v_measures_alike; simpl; auto 10.
Qed.

Lemma v_Layout_alike v objects sz w1 w2 :
  v_worlds_alike w1 w2 ->
  v_worlds_alike (vBoxLayout.Layout v objects sz w1)
    (vBoxLayout.Layout v objects sz w2).
Proof.
  intro a.
  destruct (v_measure_all_alike objects sz a) as (e1 & e2 & e3 & e4 & e5).
  unfold vBoxLayout.Layout, vBoxLayout.place_all, vBoxLayout.hPerFactor,
    vBoxLayout.spacerSize, vBoxLayout.extra.
  rewrite e1, e2, e3, e4.
  apply (@fold_left_related _ _ _ _ _ v_places_alike).
  - intros s1 s2 c (x1 & y1 & a').
    rewrite !v_place_child_kind.
    rewrite (v_alike_kind (proj1 a' c)).
    destruct (v_kind_of (heap (vBoxLayout.placed s2) c));
      unfold v_places_alike; simpl; rewrite ?x1, ?y1;
      repeat (split; [reflexivity|]); auto.
    + now apply v_worlds_alike_Move.
    + now apply v_worlds_alike_Resize, v_worlds_alike_Move.
  - unfold v_places_alike; simpl; auto.
Qed.

Lemma v_MinSize_alike v objects w1 w2 :
  v_worlds_alike w1 w2 ->
  vBoxLayout.MinSize v objects w1 = vBoxLayout.MinSize v objects w2.
Proof.
  intros [a _]; unfold vBoxLayout.MinSize; f_equal.
  apply fold_left_related with (R := eq); auto.
  intros m1 m2 c ->; rewrite !v_minsize_child_kind.
  rewrite (v_alike_kind (a c)).
  destruct (a c) as (_ & e2 & _); now rewrite e2.
Qed.
End Alike.

(** ** The calls on a child that is laid out *)

Section CallsMade.
Context {F : Type} `{Float32Ops F}.
Implicit Types (w : World F) (h child : handle) (sz : Size F)
  (P : Call F -> Prop) (l : list (Call F)).

(** The log [l] is [l0] followed by more calls, one of which satisfies
    [P]. *)
Definition log_grows l0 l : Prop := exists cs, l = l0 ++ cs.

Definition log_grows_with P l0 l : Prop :=
  exists cs, l = l0 ++ cs /\ Exists P cs.

Lemma log_grows_refl l : log_grows l l.
Proof. exists []; now rewrite app_nil_r. Qed.

Lemma log_grows_snoc l0 l c : log_grows l0 l -> log_grows l0 (l ++ [c]).
Proof. intros [cs ->]; exists (cs ++ [c]); now rewrite app_assoc. Qed.

Lemma log_grows_with_snoc P l0 l c :
  log_grows_with P l0 l -> log_grows_with P l0 (l ++ [c]).
Proof.
  intros (cs & -> & e); exists (cs ++ [c]); split.
  - now rewrite app_assoc.
  - apply Exists_app; now left.
Qed.

Lemma log_grows_with_here P l0 l c :
  log_grows l0 l -> P c -> log_grows_with P l0 (l ++ [c]).
Proof.
  intros [cs ->] pc; exists (cs ++ [c]); split.
  - now rewrite app_assoc.
  - apply Exists_app; right; now constructor.
Qed.

Definition is_Move_of child (c : Call F) : Prop :=
  match c with CallMove h _ => h = child | CallResize _ _ => False end.

Definition is_Resize_of child (c : Call F) : Prop :=
  match c with CallResize h _ => h = child | CallMove _ _ => False end.

Lemma v_measure_child_log sz l0 acc b :
  log_grows l0 (calls (vBoxLayout.measured acc)) ->
  log_grows l0 (calls (vBoxLayout.measured (vBoxLayout.measure_child sz acc b))).
Proof.
  intro g; rewrite v_measure_child_kind.
  destruct (v_kind_of (heap (vBoxLayout.measured acc) b)); simpl; auto.
  now apply log_grows_snoc.
Qed.

Lemma v_measure_child_log_with P sz l0 acc b :
  log_grows_with P l0 (calls (vBoxLayout.measured acc)) ->
  log_grows_with P l0
    (calls (vBoxLayout.measured (vBoxLayout.measure_child sz acc b))).
Proof.
  intro g; rewrite v_measure_child_kind.
  destruct (v_kind_of (heap (vBoxLayout.measured acc) b)); simpl; auto.
  now apply log_grows_with_snoc.
Qed.

Lemma v_place_child_log sz padding per sp l0 st b :
  log_grows l0 (calls (vBoxLayout.placed st)) ->
  log_grows l0
    (calls (vBoxLayout.placed (vBoxLayout.place_child sz padding per sp st b))).
Proof.
  intro g; rewrite v_place_child_kind.
  destruct (v_kind_of (heap (vBoxLayout.placed st) b)); simpl; auto.
  - now apply log_grows_snoc.
  - now apply log_grows_snoc, log_grows_snoc.
Qed.

Lemma v_place_child_log_with P sz padding per sp l0 st b :
  log_grows_with P l0 (calls (vBoxLayout.placed st)) ->
  log_grows_with P l0
    (calls (vBoxLayout.placed (vBoxLayout.place_child sz padding per sp st b))).
Proof.
  intro g; rewrite v_place_child_kind.
  destruct (v_kind_of (heap (vBoxLayout.placed st) b)); simpl; auto.
  - now apply log_grows_with_snoc.
  - now apply log_grows_with_snoc, log_grows_with_snoc.
Qed.

Lemma v_measure_all_log objects sz w :
  log_grows (calls w)
    (calls (vBoxLayout.measured (vBoxLayout.measure_all objects sz w))).
Proof.
  unfold vBoxLayout.measure_all.
  apply fold_left_invariant
    with (P := fun acc => log_grows (calls w) (calls (vBoxLayout.measured acc))).
  - intros; now apply v_measure_child_log.
  - apply log_grows_refl.
Qed.

(** [Layout] calls [Move] on every child it lays out. *)
Lemma v_Layout_moves v objects sz w child :
  In child objects -> laid_out (v_kind_of (heap w child)) = true ->
  log_grows_with (is_Move_of child) (calls w)
    (calls (vBoxLayout.Layout v objects sz w)).
Proof.
  intros i lo; unfold vBoxLayout.Layout, vBoxLayout.place_all.
  apply (@fold_left_established _ _ _
           (fun st => same_observers (vBoxLayout.placed st) w /\
                      log_grows (calls w) (calls (vBoxLayout.placed st)))
           (fun st => log_grows_with (is_Move_of child) (calls w)
                        (calls (vBoxLayout.placed st))) child); auto.
  - intros a b [e g]; split;
      [now apply v_place_child_observers | now apply v_place_child_log].
  - intros a b _ q; now apply v_place_child_log_with.
  - intros a [e g]; rewrite v_place_child_kind.
    rewrite (v_kind_of_same child e).
    destruct (v_kind_of (heap w child)); try discriminate; simpl.
    + apply log_grows_with_here; simpl; auto.
    + apply log_grows_with_snoc, log_grows_with_here; simpl; auto.
  - simpl; split; [|apply v_measure_all_log].
    destruct (v_measure_all_spec objects sz w) as (ev & _).
    exact (ev_observers ev).
Qed.

(** [Layout] calls [Resize] on every child it lays out: in the first loop
    when the child is ordinary, in the second when it is growable. *)
Lemma v_Layout_resizes v objects sz w child :
  In child objects -> laid_out (v_kind_of (heap w child)) = true ->
  log_grows_with (is_Resize_of child) (calls w)
    (calls (vBoxLayout.Layout v objects sz w)).
Proof.
  intros i lo; unfold vBoxLayout.Layout, vBoxLayout.place_all.
  destruct (v_kind_of (heap w child)) eqn:K; try discriminate.
  - (* ordinary: resized by the first loop *)
    apply fold_left_invariant
      with (P := fun st => log_grows_with (is_Resize_of child) (calls w)
                             (calls (vBoxLayout.placed st))).
    + intros; now apply v_place_child_log_with.
    + simpl; unfold vBoxLayout.measure_all.
      apply (@fold_left_established _ _ _
               (fun acc => same_observers (vBoxLayout.measured acc) w /\
                           log_grows (calls w) (calls (vBoxLayout.measured acc)))
               (fun acc => log_grows_with (is_Resize_of child) (calls w)
                             (calls (vBoxLayout.measured acc))) child); auto.
      * intros a b [e g]; split;
          [now apply v_measure_child_observers | now apply v_measure_child_log].
      * intros a b _ q; now apply v_measure_child_log_with.
      * intros a [e g]; rewrite v_measure_child_kind.
        rewrite (v_kind_of_same child e), K; simpl.
        apply log_grows_with_here; simpl; auto.
      * simpl; split; [apply same_observers_refl | apply log_grows_refl].
  - (* growable: resized by the second loop *)
    apply (@fold_left_established _ _ _
             (fun st => same_observers (vBoxLayout.placed st) w /\
                        log_grows (calls w) (calls (vBoxLayout.placed st)))
             (fun st => log_grows_with (is_Resize_of child) (calls w)
                          (calls (vBoxLayout.placed st))) child); auto.
    + intros a b [e g]; split;
        [now apply v_place_child_observers | now apply v_place_child_log].
    + intros a b _ q; now apply v_place_child_log_with.
    + intros a [e g]; rewrite v_place_child_kind.
      rewrite (v_kind_of_same child e), K; simpl.
      apply log_grows_with_here; simpl; auto.
      now apply log_grows_snoc.
    + simpl; split; [|apply v_measure_all_log].
      destruct (v_measure_all_spec objects sz w) as (ev & _).
      exact (ev_observers ev).
Qed.
End CallsMade.

Section CrossAxisSpacer.
Context {F : Type} `{Float32Ops F}.
Implicit Types (w : World F) (h child : handle) (sz : Size F)
  (o : CanvasObject F).

(** The object with the type assertion to [SpacerObject] failing. *)
Definition not_a_spacer o : CanvasObject F :=
  {| Visible := Visible o; MinSize := MinSize o;
     asGrowable := asGrowable o; asSpacerObject := None;
     position := position o; size := size o |}.

(** The world in which [child] does not implement [SpacerObject]. *)
Definition forget_spacer child w : World F :=
  {| heap := update child not_a_spacer (heap w); calls := calls w |}.

Lemma forget_vertical_alike w child s :
  asSpacerObject (heap w child) = Some s -> ExpandVertical s = false ->
  v_worlds_alike w (forget_spacer child w).
Proof.
  intros e nv; split; [|reflexivity].
  intro h; simpl; unfold update.
  destruct (Nat.eqb_spec h child) as [->|ne]; unfold v_alike; auto 10.
  unfold isVerticalSpacer; simpl; rewrite e; auto 10.
Qed.

Lemma forget_horizontal_alike w child s :
  asSpacerObject (heap w child) = Some s -> ExpandHorizontal s = false ->
  v_worlds_alike (transposeWorld w) (transposeWorld (forget_spacer child w)).
Proof.
  intros e nv; split; [|reflexivity].
  intro h; simpl; unfold update.
  destruct (Nat.eqb_spec h child) as [->|ne]; unfold v_alike; auto 10.
  unfold isVerticalSpacer; simpl; rewrite e; simpl; auto 10.
Qed.

(** What two runs of the horizontal layout share when the vertical runs
    on the transposed worlds are alike. *)
Lemma h_Layout_alike g objects sz w1 w2 :
  v_worlds_alike (transposeWorld w1) (transposeWorld w2) ->
  calls (hBoxLayout.Layout g objects sz w1)
    = calls (hBoxLayout.Layout g objects sz w2) /\
  forall h,
    position (heap (hBoxLayout.Layout g objects sz w1) h)
      = position (heap (hBoxLayout.Layout g objects sz w2) h) /\
    size (heap (hBoxLayout.Layout g objects sz w1) h)
      = size (heap (hBoxLayout.Layout g objects sz w2) h).
Proof.
  intro a.
  destruct (h_Layout_mirror g objects sz w1) as [h1 c1].
  destruct (h_Layout_mirror g objects sz w2) as [h2 c2].
  destruct (v_Layout_alike (mirrored g) objects (transposeSize sz) a)
    as [ah ac].
  split.
  - rewrite c1, c2; simpl; now rewrite ac.
  - intro h; rewrite h1, h2; simpl.
    destruct (ah h) as (_ & _ & _ & _ & e5 & e6); now rewrite e5, e6.
Qed.

Lemma h_MinSize_alike g objects w1 w2 :
  v_worlds_alike (transposeWorld w1) (transposeWorld w2) ->
  hBoxLayout.MinSize g objects w1 = hBoxLayout.MinSize g objects w2.
Proof.
  intro a; rewrite !h_MinSize_mirror.
  now rewrite (v_MinSize_alike (mirrored g) objects a).
Qed.

Lemma is_Move_of_transpose child (c : Call F) :
  is_Move_of child (transposeCall c) <-> is_Move_of child c.
Proof. now destruct c. Qed.

Lemma is_Resize_of_transpose child (c : Call F) :
  is_Resize_of child (transposeCall c) <-> is_Resize_of child c.
Proof. now destruct c. Qed.

(** A call made by the vertical layout on the transposed world is made by
    the horizontal layout. *)
Lemma log_grows_with_transposed (P : Call F -> Prop) w w' wh :
  (forall c, P c -> P (transposeCall c)) ->
  log_grows_with P (calls (transposeWorld w)) (calls w') ->
  world_eq wh (transposeWorld w') ->
  log_grows_with P (calls w) (calls wh).
Proof.
  intros pt (cs & e & ex) [_ ec].
  exists (map (@transposeCall F) cs); split.
  - rewrite ec; simpl; rewrite e; simpl.
    rewrite map_app, map_map; f_equal.
    erewrite map_ext; [apply map_id|]; apply transposeCall_involutive.
  - apply Exists_exists in ex as (c & i & pc).
    apply Exists_exists; exists (transposeCall c); split; auto.
    now apply in_map.
Qed.

Lemma h_Layout_moves g objects sz w child :
  In child objects -> laid_out (h_kind_of (heap w child)) = true ->
  log_grows_with (is_Move_of child) (calls w)
    (calls (hBoxLayout.Layout g objects sz w)).
Proof.
  intros i lo.
  eapply log_grows_with_transposed; [| |apply h_Layout_mirror].
  - intros c; apply is_Move_of_transpose.
  - apply v_Layout_moves; auto.
    simpl; now rewrite v_kind_of_transpose.
Qed.

Lemma h_Layout_resizes g objects sz w child :
  In child objects -> laid_out (h_kind_of (heap w child)) = true ->
  log_grows_with (is_Resize_of child) (calls w)
    (calls (hBoxLayout.Layout g objects sz w)).
Proof.
  intros i lo.
  eapply log_grows_with_transposed; [| |apply h_Layout_mirror].
  - intros c; apply is_Resize_of_transpose.
  - apply v_Layout_resizes; auto.
    simpl; now rewrite v_kind_of_transpose.
Qed.

(** The flag [addPadding] after the loop of [MinSize]: set as soon as one
    element of the slice was a visible child that is not a spacer. *)
Lemma v_minsize_addPadding padding w l acc :
  vBoxLayout.addPadding
    (fold_left (vBoxLayout.minsize_child padding w) l acc)
  = vBoxLayout.addPadding acc
    || existsb (fun c => laid_out (v_kind_of (heap w c))) l.
Proof.
  revert acc; induction l as [|c l IH]; intro acc; cbn [fold_left existsb].
  - now rewrite orb_false_r.
  - rewrite IH, v_minsize_child_kind.
    destruct (laid_out (v_kind_of (heap w c))); cbn; auto.
    now rewrite orb_true_r.
Qed.

(** [MinSize] of a slice with one more child at its end. *)
Lemma v_MinSize_snoc v l child w :
  laid_out (v_kind_of (heap w child)) = true ->
  vBoxLayout.MinSize v (l ++ [child]) w
  = let before := vBoxLayout.MinSize v l w in
    let own := MinSize (heap w child) in
    NewSize (Max (Width own) (Width before))
      (if existsb (fun c => laid_out (v_kind_of (heap w c))) l
       then (Height before + Height own + vBoxLayout.paddingFunc v tt)%f32
       else (Height before + Height own)%f32).
Proof.
  intro lo; unfold vBoxLayout.MinSize.
  rewrite fold_left_app; cbn [fold_left].
  rewrite v_minsize_child_kind, lo, v_minsize_addPadding.
  reflexivity.
Qed.

Lemma v_MinSize_nothing v l w :
  existsb (fun c => laid_out (v_kind_of (heap w c))) l = false ->
  vBoxLayout.MinSize v l w = NewSize (of_int 0) (of_int 0).
Proof.
  intro none; unfold vBoxLayout.MinSize.
  induction l as [|c l IH]; [reflexivity|].
  cbn [existsb] in none; apply orb_false_iff in none as [nc nl].
  cbn [fold_left]; rewrite v_minsize_child_kind, nc; auto.
Qed.

Lemma existsb_laid_out_v w l :
  existsb (fun c => laid_out (v_kind_of (heap w c))) l = true <->
  exists c, In c l /\ Visible (heap w c) = true /\
            isVerticalSpacer (heap w c) = false.
Proof.
  rewrite existsb_exists; split; intros (c & i & lo); exists c; split; auto;
    now apply v_kind_laid_out.
Qed.

Lemma existsb_laid_out_h w l :
  existsb (fun c => laid_out (h_kind_of (heap w c))) l = true <->
  exists c, In c l /\ Visible (heap w c) = true /\
            isHorizontalSpacer (heap w c) = false.
Proof.
  rewrite existsb_exists; split; intros (c & i & lo); exists c; split; auto;
    now apply h_kind_laid_out.
Qed.

Lemma not_existsb_laid_out_v w l :
  (forall c, In c l ->
     Visible (heap w c) = false \/ isVerticalSpacer (heap w c) = true) ->
  existsb (fun c => laid_out (v_kind_of (heap w c))) l = false.
Proof.
  intro none.
  destruct (existsb _ l) eqn:e; [|reflexivity].
  apply existsb_laid_out_v in e as (c & i & vis & ns).
  destruct (none c i); congruence.
Qed.

Lemma not_existsb_laid_out_h w l :
  (forall c, In c l ->
     Visible (heap w c) = false \/ isHorizontalSpacer (heap w c) = true) ->
  existsb (fun c => laid_out (h_kind_of (heap w c))) l = false.
Proof.
  intro none.
  destruct (existsb _ l) eqn:e; [|reflexivity].
  apply existsb_laid_out_h in e as (c & i & vis & ns).
  destruct (none c i); congruence.
Qed.

Lemma existsb_pointwise (A : Type) (p q : A -> bool) (l : list A) :
  (forall a, p a = q a) -> existsb p l = existsb q l.
Proof.
  intro e; induction l as [|a l IH]; cbn [existsb]; [reflexivity|].
  now rewrite e, IH.
Qed.

Lemma h_MinSize_snoc g l child w :
  laid_out (h_kind_of (heap w child)) = true ->
  hBoxLayout.MinSize g (l ++ [child]) w
  = let before := hBoxLayout.MinSize g l w in
    let own := MinSize (heap w child) in
    NewSize
      (if existsb (fun c => laid_out (h_kind_of (heap w c))) l
       then (Width before + Width own + hBoxLayout.paddingFunc g tt)%f32
       else (Width before + Width own)%f32)
      (Max (Height own) (Height before)).
Proof.
  intro lo; rewrite !h_MinSize_mirror, v_MinSize_snoc.
  - cbn [heap transposeWorld].
    rewrite (@existsb_pointwise _ _
               (fun c => laid_out (h_kind_of (heap w c))) l);
      [|intro c; now rewrite v_kind_of_transpose].
    destruct (existsb _ l); reflexivity.
  - cbn [heap transposeWorld]; now rewrite v_kind_of_transpose.
Qed.

Lemma h_MinSize_nothing g l w :
  existsb (fun c => laid_out (h_kind_of (heap w c))) l = false ->
  hBoxLayout.MinSize g l w = NewSize (of_int 0) (of_int 0).
Proof.
  intro none; rewrite h_MinSize_mirror, v_MinSize_nothing; [reflexivity|].
  rewrite <- none; apply existsb_pointwise.
  intro c; cbn [heap transposeWorld]; now rewrite v_kind_of_transpose.
Qed.

(** The minimum that the first loop reads of a child it lays out. *)
Lemma v_kind_laid_out_min o :
  laid_out (v_kind_of o) = true ->
  v_kind_of o = Ordinary (Height (MinSize o)) \/
  exists gf, v_kind_of o = Grows (Height (MinSize o)) gf.
Proof.
  unfold v_kind_of.
  destruct (Visible o), (isVerticalSpacer o), (asGrowable o);
    simpl; try discriminate; eauto.
Qed.

(** The counters of the first loop of [Layout] for a slice with one more
    child at its end. *)
Lemma v_measure_snoc l child sz w :
  laid_out (v_kind_of (heap w child)) = true ->
  let m0 := vBoxLayout.measure_all l sz w in
  let m1 := vBoxLayout.measure_all (l ++ [child]) sz w in
  vBoxLayout.spacers m1 = vBoxLayout.spacers m0 /\
  vBoxLayout.visibleObjects m1 = (vBoxLayout.visibleObjects m0 + 1)%Z /\
  vBoxLayout.totalMinHights m1
  = (vBoxLayout.totalMinHights m0 + Height (MinSize (heap w child)))%f32.
Proof.
  intros lo m0 m1; unfold m1, vBoxLayout.measure_all.
  rewrite fold_left_app; cbn [fold_left].
  fold (vBoxLayout.measure_all l sz w); fold m0.
  rewrite v_measure_child_kind.
  destruct (v_measure_all_spec l sz w) as (ev & _).
  fold m0 in ev; rewrite (v_kind_of_same child (ev_observers ev)).
  destruct (v_kind_laid_out_min _ lo) as [K|[gf K]]; rewrite K;
    repeat split; reflexivity.
Qed.

Lemma h_measure_snoc l child sz w :
  laid_out (h_kind_of (heap w child)) = true ->
  let m0 := hBoxLayout.measure_all l sz w in
  let m1 := hBoxLayout.measure_all (l ++ [child]) sz w in
  hBoxLayout.spacers m1 = hBoxLayout.spacers m0 /\
  hBoxLayout.visibleObjects m1 = (hBoxLayout.visibleObjects m0 + 1)%Z /\
  hBoxLayout.totalMinWidths m1
  = (hBoxLayout.totalMinWidths m0 + Width (MinSize (heap w child)))%f32.
Proof.
  intros lo m0 m1.
  destruct (measure_all_mirrors l sz w) as (a1 & a2 & a3 & _).
  destruct (measure_all_mirrors (l ++ [child]) sz w) as (b1 & b2 & b3 & _).
  destruct (@v_measure_snoc l child (transposeSize sz) (transposeWorld w))
    as (c1 & c2 & c3).
  { cbn [heap transposeWorld]; now rewrite v_kind_of_transpose. }
  unfold m0, m1; rewrite a1, a2, a3, b1, b2, b3, c1, c2, c3.
  repeat split; reflexivity.
Qed.

(** C10: a child that implements [SpacerObject] but does not expand along
    the axis of the box is not a spacer for that box.  [MinSize] and
    [Layout] give what they give when the child does not implement
    [SpacerObject] at all (the same minimum size, the same calls, the same
    positions and sizes), and when the child is visible and in the slice,
    [Layout] calls [Move] and [Resize] on it.  Such a visible child is
    counted and contributes its minimum and a padding gap: put at the end
    of any slice [l], it adds its minimum along the axis to [MinSize] of
    [l], and the padding as well when [l] holds a visible child that is
    not a spacer, and across the axis [MinSize] becomes the greater of its
    minimum and [MinSize] of [l]; in the first loop of [Layout] it adds 1
    to [visibleObjects], nothing to [spacers], and its minimum along the
    axis to the sum of the minimums. *)
Theorem cross_axis_spacer_is_laid_out
    (v : vBoxLayout.t F) (g : hBoxLayout.t F) (objects : list handle)
    (sz : Size F) (w : World F) (child : handle) (s : SpacerObject) :
  asSpacerObject (heap w child) = Some s ->
  (ExpandVertical s = false ->
   isVerticalSpacer (heap w child) = false /\
   vBoxLayout.MinSize v objects w
     = vBoxLayout.MinSize v objects (forget_spacer child w) /\
   calls (vBoxLayout.Layout v objects sz w)
     = calls (vBoxLayout.Layout v objects sz (forget_spacer child w)) /\
   (forall h,
      position (heap (vBoxLayout.Layout v objects sz w) h)
        = position
            (heap (vBoxLayout.Layout v objects sz (forget_spacer child w)) h) /\
      size (heap (vBoxLayout.Layout v objects sz w) h)
        = size
            (heap (vBoxLayout.Layout v objects sz (forget_spacer child w)) h)) /\
   (In child objects -> Visible (heap w child) = true ->
    log_grows_with (is_Move_of child) (calls w)
      (calls (vBoxLayout.Layout v objects sz w)) /\
    log_grows_with (is_Resize_of child) (calls w)
      (calls (vBoxLayout.Layout v objects sz w))) /\
   (forall l, Visible (heap w child) = true ->
      let before := vBoxLayout.MinSize v l w in
      let own := MinSize (heap w child) in
      let m0 := vBoxLayout.measure_all l sz w in
      let m1 := vBoxLayout.measure_all (l ++ [child]) sz w in
      ((exists c, In c l /\ Visible (heap w c) = true /\
                  isVerticalSpacer (heap w c) = false) ->
       vBoxLayout.MinSize v (l ++ [child]) w
       = NewSize (Max (Width own) (Width before))
           (Height before + Height own + vBoxLayout.paddingFunc v tt)%f32) /\
      ((forall c, In c l ->
          Visible (heap w c) = false \/ isVerticalSpacer (heap w c) = true) ->
       vBoxLayout.MinSize v (l ++ [child]) w
       = NewSize (Max (Width own) (of_int 0))
           (of_int 0 + Height own)%f32) /\
      vBoxLayout.spacers m1 = vBoxLayout.spacers m0 /\
      vBoxLayout.visibleObjects m1 = (vBoxLayout.visibleObjects m0 + 1)%Z /\
      vBoxLayout.totalMinHights m1
      = (vBoxLayout.totalMinHights m0 + Height own)%f32)) /\
  (ExpandHorizontal s = false ->
   isHorizontalSpacer (heap w child) = false /\
   hBoxLayout.MinSize g objects w
     = hBoxLayout.MinSize g objects (forget_spacer child w) /\
   calls (hBoxLayout.Layout g objects sz w)
     = calls (hBoxLayout.Layout g objects sz (forget_spacer child w)) /\
   (forall h,
      position (heap (hBoxLayout.Layout g objects sz w) h)
        = position
            (heap (hBoxLayout.Layout g objects sz (forget_spacer child w)) h) /\
      size (heap (hBoxLayout.Layout g objects sz w) h)
        = size
            (heap (hBoxLayout.Layout g objects sz (forget_spacer child w)) h)) /\
   (In child objects -> Visible (heap w child) = true ->
    log_grows_with (is_Move_of child) (calls w)
      (calls (hBoxLayout.Layout g objects sz w)) /\
    log_grows_with (is_Resize_of child) (calls w)
      (calls (hBoxLayout.Layout g objects sz w))) /\
   (forall l, Visible (heap w child) = true ->
      let before := hBoxLayout.MinSize g l w in
      let own := MinSize (heap w child) in
      let m0 := hBoxLayout.measure_all l sz w in
      let m1 := hBoxLayout.measure_all (l ++ [child]) sz w in
      ((exists c, In c l /\ Visible (heap w c) = true /\
                  isHorizontalSpacer (heap w c) = false) ->
       hBoxLayout.MinSize g (l ++ [child]) w
       = NewSize
           (Width before + Width own + hBoxLayout.paddingFunc g tt)%f32
           (Max (Height own) (Height before))) /\
      ((forall c, In c l ->
          Visible (heap w c) = false \/ isHorizontalSpacer (heap w c) = true) ->
       hBoxLayout.MinSize g (l ++ [child]) w
       = NewSize (of_int 0 + Width own)%f32
           (Max (Height own) (of_int 0))) /\
      hBoxLayout.spacers m1 = hBoxLayout.spacers m0 /\
      hBoxLayout.visibleObjects m1 = (hBoxLayout.visibleObjects m0 + 1)%Z /\
      hBoxLayout.totalMinWidths m1
      = (hBoxLayout.totalMinWidths m0 + Width own)%f32)).
Proof.
  intro e; split; intro ne.
  - assert (ns : isVerticalSpacer (heap w child) = false)
      by (unfold isVerticalSpacer; now rewrite e).
    pose proof (forget_vertical_alike w child e ne) as a.
    destruct (v_Layout_alike v objects sz a) as [ah ac].
    split; [exact ns|].
    split; [now apply v_MinSize_alike|].
    split; [exact ac|].
    split; [|split].
    + intro h; destruct (ah h) as (_ & _ & _ & _ & e5 & e6); now split.
    + intros i vis.
      assert (lo : laid_out (v_kind_of (heap w child)) = true)
        by (now apply v_kind_laid_out).
      split; [now apply v_Layout_moves | now apply v_Layout_resizes].
    + intros l vis before own m0 m1.
      assert (lo : laid_out (v_kind_of (heap w child)) = true)
        by (now apply v_kind_laid_out).
      split; [|split].
      * intro some; apply existsb_laid_out_v in some.
        rewrite (@v_MinSize_snoc v l child w lo); cbv zeta; now rewrite some.
      * intro none; apply not_existsb_laid_out_v in none.
        rewrite (@v_MinSize_snoc v l child w lo); cbv zeta.
        now rewrite none, (@v_MinSize_nothing v l w none).
      * apply (@v_measure_snoc l child sz w lo).
  - assert (ns : isHorizontalSpacer (heap w child) = false)
      by (unfold isHorizontalSpacer; now rewrite e).
    pose proof (forget_horizontal_alike w child e ne) as a.
    destruct (h_Layout_alike g objects sz a) as [ac ah].
    split; [exact ns|].
    split; [now apply h_MinSize_alike|].
    split; [exact ac|].
    split; [exact ah|].
    split.
    + intros i vis.
      assert (lo : laid_out (h_kind_of (heap w child)) = true)
        by (now apply h_kind_laid_out).
      split; [now apply h_Layout_moves | now apply h_Layout_resizes].
    + intros l vis before own m0 m1.
      assert (lo : laid_out (h_kind_of (heap w child)) = true)
        by (now apply h_kind_laid_out).
      split; [|split].
      * intro some; apply existsb_laid_out_h in some.
        rewrite (@h_MinSize_snoc g l child w lo); cbv zeta; now rewrite some.
      * intro none; apply not_existsb_laid_out_h in none.
        rewrite (@h_MinSize_snoc g l child w lo); cbv zeta.
        now rewrite none, (@h_MinSize_nothing g l w none).
      * apply (@h_measure_snoc l child sz w lo).
Qed.
End CrossAxisSpacer.

(** ** The two pools *)

Section Pools.
Context {F : Type} `{Float32Ops F}.
Implicit Types (w : World F) (h child : handle) (sz : Size F)
  (o : CanvasObject F).

(** The object with the type assertion to [fyne.Growable] failing. *)
Definition not_growable o : CanvasObject F :=
  {| Visible := Visible o; MinSize := MinSize o;
     asGrowable := None; asSpacerObject := asSpacerObject o;
     position := position o; size := size o |}.

(** The world in which no object is growable: the growable pool is empty. *)
Definition without_growth w : World F :=
  {| heap := fun h => not_growable (heap w h); calls := calls w |}.

Definition as_ordinary (k : kind F) : kind F :=
  match k with Grows m _ => Ordinary m | _ => k end.

Lemma v_kinds_without_growth w objects :
  v_kinds (without_growth w) objects = map as_ordinary (v_kinds w objects).
Proof.
  unfold v_kinds; rewrite map_map; apply map_ext; intro c; simpl.
  unfold v_kind_of, isVerticalSpacer; simpl.
  destruct (Visible (heap w c)), (asSpacerObject (heap w c)) as [[[] ?]|],
    (asGrowable (heap w c)); reflexivity.
Qed.

Lemma h_kinds_without_growth w objects :
  h_kinds (without_growth w) objects = map as_ordinary (h_kinds w objects).
Proof.
  unfold h_kinds; rewrite map_map; apply map_ext; intro c; simpl.
  unfold h_kind_of, isHorizontalSpacer; simpl.
  destruct (Visible (heap w c)), (asSpacerObject (heap w c)) as [[? []]|],
    (asGrowable (heap w c)); reflexivity.
Qed.

Lemma mins_as_ordinary ks : mins (map as_ordinary ks) = mins ks.
Proof.
  induction ks as [|[| | |] ks IH]; simpl; auto; now rewrite IH.
Qed.

Lemma count_spacers_as_ordinary ks :
  count_spacers (map as_ordinary ks) = count_spacers ks.
Proof.
  unfold count_spacers.
  induction ks as [|[| | |] ks IH]; simpl; auto.
Qed.

Lemma spec_perSpacer_as_ordinary container padding ks :
  spec_perSpacer container padding (map as_ordinary ks)
  = spec_perSpacer container padding ks.
Proof.
  unfold spec_perSpacer, spec_extra.
  now rewrite mins_as_ordinary, count_spacers_as_ordinary.
Qed.

Lemma v_spacerSize_without_growth v objects sz w :
  vBoxLayout.spacerSize v objects sz (without_growth w)
  = vBoxLayout.spacerSize v objects sz w.
Proof.
  rewrite !v_spacerSize_spec, v_kinds_without_growth.
  apply spec_perSpacer_as_ordinary.
Qed.

Lemma h_spacerSize_without_growth g objects sz w :
  hBoxLayout.spacerSize g objects sz (without_growth w)
  = hBoxLayout.spacerSize g objects sz w.
Proof.
  rewrite !h_spacerSize_spec, h_kinds_without_growth.
  apply spec_perSpacer_as_ordinary.
Qed.

(** C3: when the slice has visible spacers and the total weight of its
    growable children is positive, both shares come from the one [extra]
    (the container's height less the minimum heights and the padding
    gaps): each spacer advances the cursor by [extra / k], [k] the number
    of visible spacers, and a growable child of minimum [m] and factor
    [gf] ends with height [m + extra / W * gf * m], [W] the total weight.
    The share of a weight unit is the one of the slice without its
    spacers, and the share of a spacer is the one of the world in which no
    object is growable.  The same holds for the horizontal box along its
    axis. *)
Theorem distribution_pools_are_independent
    (v : vBoxLayout.t F) (g : hBoxLayout.t F) (objects : list handle)
    (sz : Size F) (w : World F) :
  (let ks := v_kinds w objects in
   let k := Z.of_nat (count_spacers ks) in
   let W := total (weights ks) in
   let extra := vBoxLayout.extra v objects sz w in
   (0 < k)%Z -> (of_int 0 <? W)%f32 = true ->
   extra = (Height sz - total (mins ks)
            - vBoxLayout.paddingFunc v tt
              * of_int (Z.of_nat (length (mins ks)) - 1))%f32 /\
   vBoxLayout.spacerSize v objects sz w = (extra / of_int k)%f32 /\
   vBoxLayout.hPerFactor v objects sz w = (extra / W)%f32 /\
   (forall n child,
      nth_error objects n = Some child ->
      v_kind_of (heap w child) = IsSpacer ->
      v_place_upto v objects sz w (S n)
      = {| vBoxLayout.x := vBoxLayout.x (v_place_upto v objects sz w n);
           vBoxLayout.y :=
             (vBoxLayout.y (v_place_upto v objects sz w n)
              + extra / of_int k)%f32;
           vBoxLayout.placed :=
             vBoxLayout.placed (v_place_upto v objects sz w n) |}) /\
   (forall child m gf,
      In child objects ->
      v_kind_of (heap w child) = Grows m gf ->
      Height (size (heap (vBoxLayout.Layout v objects sz w) child))
      = (m + extra / W * gf * m)%f32) /\
   vBoxLayout.hPerFactor v (v_drop_spacers w objects) sz w
   = vBoxLayout.hPerFactor v objects sz w /\
   vBoxLayout.spacerSize v objects sz (without_growth w)
   = vBoxLayout.spacerSize v objects sz w) /\
  (let ks := h_kinds w objects in
   let k := Z.of_nat (count_spacers ks) in
   let W := total (weights ks) in
   let extra := hBoxLayout.extra g objects sz w in
   (0 < k)%Z -> (of_int 0 <? W)%f32 = true ->
   extra = (Width sz - total (mins ks)
            - hBoxLayout.paddingFunc g tt
              * of_int (Z.of_nat (length (mins ks)) - 1))%f32 /\
   hBoxLayout.spacerSize g objects sz w = (extra / of_int k)%f32 /\
   hBoxLayout.wPerFactor g objects sz w = (extra / W)%f32 /\
   (forall n child,
      nth_error objects n = Some child ->
      h_kind_of (heap w child) = IsSpacer ->
      h_place_upto g objects sz w (S n)
      = {| hBoxLayout.x :=
             (hBoxLayout.x (h_place_upto g objects sz w n)
              + extra / of_int k)%f32;
           hBoxLayout.y := hBoxLayout.y (h_place_upto g objects sz w n);
           hBoxLayout.placed :=
             hBoxLayout.placed (h_place_upto g objects sz w n) |}) /\
   (forall child m gf,
      In child objects ->
      h_kind_of (heap w child) = Grows m gf ->
      Width (size (heap (hBoxLayout.Layout g objects sz w) child))
      = (m + extra / W * gf * m)%f32) /\
   hBoxLayout.wPerFactor g (h_drop_spacers w objects) sz w
   = hBoxLayout.wPerFactor g objects sz w /\
   hBoxLayout.spacerSize g objects sz (without_growth w)
   = hBoxLayout.spacerSize g objects sz w).
Proof.
  split; intros ks k W extra kpos Wpos.
  - assert (es : vBoxLayout.spacerSize v objects sz w = (extra / of_int k)%f32).
    { rewrite v_spacerSize_spec; unfold extra; rewrite v_extra_spec.
      now apply spec_perSpacer_pos. }
    assert (ep : vBoxLayout.hPerFactor v objects sz w = (extra / W)%f32).
    { rewrite v_hPerFactor_spec; unfold extra; rewrite v_extra_spec.
      now apply spec_perWeightUnit_pos. }
    split; [apply v_extra_spec|].
    split; [exact es|].
    split; [exact ep|].
    split; [|split; [|split]].
    + intros n child e K; rewrite <- es.
      now apply v_spacer_advances with (child := child).
    + intros child m gf i K.
      rewrite v_Layout_size, K, ep; auto.
      now rewrite K.
    + apply v_hPerFactor_drop_spacers.
    + apply v_spacerSize_without_growth.
  - assert (es : hBoxLayout.spacerSize g objects sz w = (extra / of_int k)%f32).
    { rewrite h_spacerSize_spec; unfold extra; rewrite h_extra_spec.
      now apply spec_perSpacer_pos. }
    assert (ep : hBoxLayout.wPerFactor g objects sz w = (extra / W)%f32).
    { rewrite h_wPerFactor_spec; unfold extra; rewrite h_extra_spec.
      now apply spec_perWeightUnit_pos. }
    split; [apply h_extra_spec|].
    split; [exact es|].
    split; [exact ep|].
    split; [|split; [|split]].
    + intros n child e K; rewrite <- es.
      now apply h_spacer_advances with (child := child).
    + intros child m gf i K.
      rewrite h_Layout_size, K, ep; auto.
      now rewrite K.
    + apply h_wPerFactor_drop_spacers.
    + apply h_spacerSize_without_growth.
Qed.
End Pools.

(** ** Exact arithmetic *)

(** Goals about [Qc] as goals about [Q]. *)
Ltac to_Q :=
  cbn [fadd fsub fmul fdiv of_int exact_ops] in *;
  unfold Qclt, Qcle, Qcdiv, Qcminus, Qcopp, Qcinv, Qcplus, Qcmult, Q2Qc in *;
  cbn [this] in *; rewrite ?Qred_correct in *.

Section Exact.
Open Scope Qc_scope.

Lemma exact_lt_true (a b : exact) : (a <? b)%f32 = true <-> a < b.
Proof.
  cbn [flt exact_ops]; unfold Qcltb; rewrite Qclt_alt.
  destruct (a ?= b); intuition congruence.
Qed.

Lemma exact_lt_false (a b : exact) : (a <? b)%f32 = false <-> b <= a.
Proof.
  split; intro h.
  - apply Qcnot_lt_le; intro l; apply exact_lt_true in l; congruence.
  - destruct (a <? b)%f32 eqn:e; auto.
    apply exact_lt_true in e; now apply Qcle_not_lt in h.
Qed.

Lemma exact_of_int_0 : (of_int 0 : exact) = 0.
Proof. reflexivity. Qed.

Lemma exact_of_int_1 : (of_int 1 : exact) = 1.
Proof. reflexivity. Qed.

Lemma exact_of_int_succ z : (of_int (z + 1) : exact) = of_int z + 1.
Proof.
  apply Qc_is_canon; to_Q.
  now rewrite inject_Z_plus.
Qed.

Lemma exact_of_int_pos z : (0 < z)%Z -> 0 < (of_int z : exact).
Proof.
  intro pos; to_Q.
  change 0%Q with (inject_Z 0); now rewrite <- Zlt_Qlt.
Qed.

(** A sum computed from the left, from any start. *)
Lemma exact_fold_sum (xs : list exact) (a : exact) :
  fold_left fadd xs a = a + total xs.
Proof.
  unfold total; revert a; induction xs as [|x xs IH]; intro a;
    cbn [fold_left].
  - rewrite exact_of_int_0; ring.
  - rewrite IH, (IH (fadd _ x)); cbn [fadd exact_ops].
    rewrite exact_of_int_0; ring.
Qed.

Lemma exact_total_cons (x : exact) xs : total (x :: xs) = x + total xs.
Proof.
  unfold total at 1; cbn [fold_left]; rewrite exact_fold_sum.
  cbn [fadd exact_ops]; rewrite exact_of_int_0; ring.
Qed.

Lemma exact_floor1 (m : exact) : 1 <= m -> floor1 m = m.
Proof.
  intro h; unfold floor1.
  change (of_int 1 <= m) in h.
  apply exact_lt_false in h; now rewrite h.
Qed.

Lemma exact_Max_ge_l (x y : exact) : x <= Max x y.
Proof.
  unfold Max; destruct (y <? x)%f32 eqn:e.
  - apply Qcle_refl.
  - now apply exact_lt_false in e.
Qed.

Lemma exact_Max_ge_r (x y : exact) : y <= Max x y.
Proof.
  unfold Max; destruct (y <? x)%f32 eqn:e.
  - apply exact_lt_true in e; now apply Qclt_le_weak.
  - apply Qcle_refl.
Qed.

Lemma exact_Max_cases (x y : exact) : Max x y = x \/ Max x y = y.
Proof. unfold Max; destruct (y <? x)%f32; auto. Qed.
End Exact.

(** ** [MinSize] in exact arithmetic *)

Section MinSizeExact.
Open Scope Qc_scope.
Implicit Types (w : World exact) (h child : handle).

(** [x] is the greatest element of [xs]. *)
Definition is_maximum (x : exact) (xs : list exact) : Prop :=
  In x xs /\ forall y, In y xs -> y <= x.

Lemma v_minsize_fold_height padding w l :
  (forall c, In c l -> laid_out (v_kind_of (heap w c)) = true) ->
  forall acc, vBoxLayout.addPadding acc = true ->
  Height (vBoxLayout.minSize
            (fold_left (vBoxLayout.minsize_child padding w) l acc))
  = Height (vBoxLayout.minSize acc)
    + total (map (fun c => Height (MinSize (heap w c))) l)
    + padding * of_int (Z.of_nat (length l)).
Proof.
  induction l as [|c l IH]; intros lo acc pad.
  - cbn [fold_left map length]; unfold total; cbn [fold_left].
    change (of_int (Z.of_nat 0) : exact) with 0.
    change (of_int 0 : exact) with 0; ring.
  - cbn [fold_left map length].
    rewrite IH; [|intros; apply lo; simpl; auto|].
    + rewrite v_minsize_child_kind, (lo c (or_introl eq_refl)), pad.
      cbn [vBoxLayout.minSize Height fadd exact_ops].
      rewrite exact_total_cons, Nat2Z.inj_succ.
      unfold Z.succ; rewrite exact_of_int_succ; ring.
    + rewrite v_minsize_child_kind, (lo c (or_introl eq_refl)).
      reflexivity.
Qed.

Lemma v_minsize_fold_width padding w l :
  (forall c, In c l -> laid_out (v_kind_of (heap w c)) = true) ->
  forall acc,
  let r := fold_left (vBoxLayout.minsize_child padding w) l acc in
  Width (vBoxLayout.minSize acc) <= Width (vBoxLayout.minSize r) /\
  (forall c, In c l ->
     Width (MinSize (heap w c)) <= Width (vBoxLayout.minSize r)) /\
  (Width (vBoxLayout.minSize r) = Width (vBoxLayout.minSize acc) \/
   exists c, In c l /\
     Width (vBoxLayout.minSize r) = Width (MinSize (heap w c))).
Proof.
  induction l as [|c l IH]; intros lo acc; cbn [fold_left].
  - split; [apply Qcle_refl|]; split; [intros c []|now left].
  - set (acc' := vBoxLayout.minsize_child padding w acc c).
    assert (e' : Width (vBoxLayout.minSize acc')
                 = Max (Width (MinSize (heap w c)))
                     (Width (vBoxLayout.minSize acc))).
    { unfold acc'; rewrite v_minsize_child_kind, (lo c (or_introl eq_refl)).
      reflexivity. }
    destruct (IH (fun c' i => lo c' (or_intror i)) acc') as (ge & ub & att).
    rewrite e' in ge, att.
    split; [|split].
    + eapply Qcle_trans; [apply exact_Max_ge_r | exact ge].
    + intros c' [<-|i]; [|now apply ub].
      eapply Qcle_trans; [apply exact_Max_ge_l | exact ge].
    + destruct att as [e|(c' & i & e)].
      * rewrite e.
        destruct (exact_Max_cases (Width (MinSize (heap w c)))
                    (Width (vBoxLayout.minSize acc))) as [m|m]; rewrite m.
        -- right; exists c; split; simpl; auto.
        -- now left.
      * right; exists c'; split; simpl; auto.
Qed.

(** [vBoxLayout.MinSize] of a slice of children that are all laid out. *)
Lemma v_MinSize_exact (v : vBoxLayout.t exact) objects w :
  (forall c, In c objects -> laid_out (v_kind_of (heap w c)) = true) ->
  (forall c, In c objects -> 0 <= Width (MinSize (heap w c))) ->
  objects <> [] ->
  Height (vBoxLayout.MinSize v objects w)
  = total (map (fun c => Height (MinSize (heap w c))) objects)
    + vBoxLayout.paddingFunc v tt * of_int (Z.of_nat (length objects) - 1) /\
  is_maximum (Width (vBoxLayout.MinSize v objects w))
    (map (fun c => Width (MinSize (heap w c))) objects).
Proof.
  intros lo nonneg ne; split.
  - destruct objects as [|c l]; [congruence|].
    unfold vBoxLayout.MinSize; cbn [fold_left].
    rewrite v_minsize_fold_height.
    + rewrite v_minsize_child_kind, (lo c (or_introl eq_refl)).
      cbn [vBoxLayout.minSize vBoxLayout.addPadding Height map length
           fadd exact_ops].
      rewrite exact_total_cons.
      replace (Z.of_nat (S (length l)) - 1)%Z with (Z.of_nat (length l)) by lia.
      change (of_int 0 : exact) with 0; ring.
    + intros; apply lo; simpl; auto.
    + now rewrite v_minsize_child_kind, (lo c (or_introl eq_refl)).
  - unfold vBoxLayout.MinSize.
    destruct (v_minsize_fold_width (vBoxLayout.paddingFunc v tt) w objects lo
                {| vBoxLayout.minSize := NewSize (of_int 0) (of_int 0);
                   vBoxLayout.addPadding := false |})
      as (ge & ub & att).
    cbn [vBoxLayout.minSize Width] in ge, att.
    split.
    + destruct att as [e|(c & i & e)].
      * destruct objects as [|c l]; [congruence|].
        assert (z : Width (MinSize (heap w c)) = 0).
        { apply Qcle_antisym; [|apply nonneg; simpl; auto].
          rewrite <- exact_of_int_0, <- e; apply ub; simpl; auto. }
        rewrite e, exact_of_int_0, <- z; simpl; auto.
      * rewrite e.
        now apply (in_map (fun c => Width (MinSize (heap w c)))).
    + intros y iy; apply in_map_iff in iy as (c & <- & i).
      now apply ub.
Qed.

(** [vBoxLayout.MinSize] of a slice in which no child is laid out. *)
Lemma v_MinSize_none (v : vBoxLayout.t exact) objects w :
  (forall c, In c objects -> laid_out (v_kind_of (heap w c)) = false) ->
  vBoxLayout.MinSize v objects w = NewSize (of_int 0) (of_int 0).
Proof.
  intro none; rewrite v_MinSize_laid.
  replace (v_laid w objects) with (@nil handle); [reflexivity|].
  unfold v_laid; induction objects as [|c l IH]; simpl; auto.
  rewrite (none c (or_introl eq_refl)).
  apply IH; intros; apply none; simpl; auto.
Qed.
End MinSizeExact.

Section MinSizeTheorem.
Open Scope Qc_scope.
Implicit Types (w : World exact) (h child : handle).

(** C4, in exact arithmetic: [MinSize] of a non-empty slice of [N]
    visible children, none of them a spacer along the axis (ordinary
    children in particular), with minimums that are not negative across
    the axis: along the axis it is the sum of the children's minimums plus
    [N - 1] times the padding, across the axis it is the greatest of the
    children's minimums.  [MinSize] of a slice with no visible child other
    than spacers is [(0, 0)]. *)
Theorem MinSize_sums_minimums_and_gaps
    (v : vBoxLayout.t exact) (g : hBoxLayout.t exact)
    (objects : list handle) w :
  ((forall c, In c objects ->
      Visible (heap w c) = true /\ isVerticalSpacer (heap w c) = false) ->
   (forall c, In c objects -> 0 <= Width (MinSize (heap w c))) ->
   objects <> [] ->
   Height (vBoxLayout.MinSize v objects w)
   = total (map (fun c => Height (MinSize (heap w c))) objects)
     + vBoxLayout.paddingFunc v tt * of_int (Z.of_nat (length objects) - 1) /\
   is_maximum (Width (vBoxLayout.MinSize v objects w))
     (map (fun c => Width (MinSize (heap w c))) objects)) /\
  ((forall c, In c objects ->
      Visible (heap w c) = false \/ isVerticalSpacer (heap w c) = true) ->
   vBoxLayout.MinSize v objects w = NewSize (of_int 0) (of_int 0)) /\
  ((forall c, In c objects ->
      Visible (heap w c) = true /\ isHorizontalSpacer (heap w c) = false) ->
   (forall c, In c objects -> 0 <= Height (MinSize (heap w c))) ->
   objects <> [] ->
   Width (hBoxLayout.MinSize g objects w)
   = total (map (fun c => Width (MinSize (heap w c))) objects)
     + hBoxLayout.paddingFunc g tt * of_int (Z.of_nat (length objects) - 1) /\
   is_maximum (Height (hBoxLayout.MinSize g objects w))
     (map (fun c => Height (MinSize (heap w c))) objects)) /\
  ((forall c, In c objects ->
      Visible (heap w c) = false \/ isHorizontalSpacer (heap w c) = true) ->
   hBoxLayout.MinSize g objects w = NewSize (of_int 0) (of_int 0)).
Proof.
  split; [|split; [|split]].
  - intros lo nonneg ne; apply v_MinSize_exact; auto.
    intros c i; now apply v_kind_laid_out, lo.
  - intro none; apply v_MinSize_none.
    intros c i; destruct (laid_out (v_kind_of (heap w c))) eqn:lo; auto.
    apply v_kind_laid_out in lo; destruct lo, (none c i); congruence.
  - intros lo nonneg ne; rewrite h_MinSize_mirror.
    cbn [Width Height transposeSize].
    apply (@v_MinSize_exact (mirrored g) objects (transposeWorld w)); auto.
    intros c i; cbn [heap transposeWorld]; rewrite v_kind_of_transpose.
    now apply h_kind_laid_out, lo.
  - intro none; rewrite h_MinSize_mirror, v_MinSize_none; [reflexivity|].
    intros c i; cbn [heap transposeWorld]; rewrite v_kind_of_transpose.
    destruct (laid_out (h_kind_of (heap w c))) eqn:lo; auto.
    apply h_kind_laid_out in lo; destruct lo, (none c i); congruence.
Qed.
End MinSizeTheorem.

(** ** Shares in exact arithmetic *)

Section SharesExact.
Open Scope Qc_scope.
Implicit Types (w : World exact) (h child : handle) (sz : Size exact).

Lemma mins_visible w objects :
  mins (v_kinds w (filter (fun c => Visible (heap w c)) objects))
  = mins (v_kinds w objects).
Proof.
  unfold v_kinds; induction objects as [|c l IH]; simpl; auto.
  destruct (Visible (heap w c)) eqn:vis; simpl; [now rewrite IH|].
  apply v_kind_skipped in vis; now rewrite vis.
Qed.

Lemma weights_visible w objects :
  weights (v_kinds w (filter (fun c => Visible (heap w c)) objects))
  = weights (v_kinds w objects).
Proof.
  unfold v_kinds; induction objects as [|c l IH]; simpl; auto.
  destruct (Visible (heap w c)) eqn:vis; simpl; [now rewrite IH|].
  apply v_kind_skipped in vis; now rewrite vis.
Qed.

(** Two growable children of the same minimum [m >= 1] and factors 1 and
    3, in terms of the kinds. *)
Lemma two_growables_shares (container padding m : exact) ks :
  mins ks = [m; m] ->
  weights ks = [(of_int 1 * floor1 m)%f32; (of_int 3 * floor1 m)%f32] ->
  1 <= m ->
  let extra := spec_extra container padding ks in
  extra = container - (m + m) - padding /\
  final_main (spec_perWeightUnit container padding ks) (Grows m (of_int 1))
  = m + extra / of_int 4 /\
  final_main (spec_perWeightUnit container padding ks) (Grows m (of_int 3))
  = m + of_int 3 * extra / of_int 4.
Proof.
  intros em ew ge extra.
  assert (m0 : m <> 0).
  { intro z; rewrite z in ge; revert ge; apply Qclt_not_le; reflexivity. }
  assert (four : (of_int 4 : exact) <> 0) by discriminate.
  assert (eW : total (weights ks) = of_int 4 * m).
  { rewrite ew, (exact_floor1 ge), !exact_total_cons.
    unfold total; cbn [fold_left fmul exact_ops].
    apply Qc_is_canon; to_Q; ring. }
  assert (pW : (of_int 0 <? total (weights ks))%f32 = true).
  { apply exact_lt_true; rewrite eW; to_Q.
    change (inject_Z 0) with 0%Q; change (inject_Z 4) with 4%Q; lra. }
  assert (ee : extra = container - (m + m) - padding).
  { unfold extra, spec_extra; rewrite em, !exact_total_cons.
    unfold total; cbn [fold_left length fsub fmul exact_ops].
    change (of_int (Z.of_nat 2 - 1) : exact) with 1.
    change (of_int 0 : exact) with 0; ring. }
  split; [exact ee|].
  unfold final_main; rewrite spec_perWeightUnit_pos; auto.
  fold extra; rewrite eW; cbn [fadd fmul fdiv exact_ops].
  change (of_int 1 : exact) with 1.
  split; field; auto.
Qed.
End SharesExact.

Section Proportional.
Open Scope Qc_scope.
Implicit Types (w : World exact) (h child : handle) (sz : Size exact).

Lemma visible_pair_kinds w objects first second :
  filter (fun c => Visible (heap w c)) objects = [first; second] ->
  In first objects /\ In second objects /\
  mins (v_kinds w objects) = mins (v_kinds w [first; second]) /\
  weights (v_kinds w objects) = weights (v_kinds w [first; second]) /\
  mins (h_kinds w objects) = mins (h_kinds w [first; second]) /\
  weights (h_kinds w objects) = weights (h_kinds w [first; second]).
Proof.
  intro e.
  assert (i : forall c, In c [first; second] -> In c objects).
  { intros c ic; rewrite <- e in ic; now apply filter_In in ic. }
  split; [apply i; simpl; auto|].
  split; [apply i; simpl; auto|].
  rewrite <- (mins_visible w objects), <- (weights_visible w objects), e.
  split; [reflexivity|]; split; [reflexivity|].
  rewrite <- !v_kinds_transpose.
  rewrite <- (mins_visible (transposeWorld w) objects),
    <- (weights_visible (transposeWorld w) objects).
  cbn [heap transposeWorld Visible transposeObject]; rewrite e.
  now split.
Qed.

(** X16: in exact arithmetic, when the visible children of the slice are
    exactly two growable children, not spacers, with grow factors 1 and 3
    and the same minimum [m >= 1] along the axis (so that the floor of 1
    of the first loop changes nothing), then [extra] is the container's
    size along the axis less [2 m] and one padding, the first child ends
    with [m + extra / 4] along the axis and the second with
    [m + 3 extra / 4]. *)
Theorem growable_shares_are_proportional
    (v : vBoxLayout.t exact) (g : hBoxLayout.t exact)
    (objects : list handle) sz w (first second : handle) (m : exact) :
  filter (fun c => Visible (heap w c)) objects = [first; second] ->
  1 <= m ->
  (v_kind_of (heap w first) = Grows m (of_int 1) ->
   v_kind_of (heap w second) = Grows m (of_int 3) ->
   let extra := vBoxLayout.extra v objects sz w in
   extra = Height sz - (m + m) - vBoxLayout.paddingFunc v tt /\
   Height (size (heap (vBoxLayout.Layout v objects sz w) first))
   = m + extra / of_int 4 /\
   Height (size (heap (vBoxLayout.Layout v objects sz w) second))
   = m + of_int 3 * extra / of_int 4) /\
  (h_kind_of (heap w first) = Grows m (of_int 1) ->
   h_kind_of (heap w second) = Grows m (of_int 3) ->
   let extra := hBoxLayout.extra g objects sz w in
   extra = Width sz - (m + m) - hBoxLayout.paddingFunc g tt /\
   Width (size (heap (hBoxLayout.Layout g objects sz w) first))
   = m + extra / of_int 4 /\
   Width (size (heap (hBoxLayout.Layout g objects sz w) second))
   = m + of_int 3 * extra / of_int 4).
Proof.
  intros e ge.
  destruct (visible_pair_kinds w objects e)
    as (i1 & i2 & vm & vw & hm & hw).
  split; intros K1 K3 extra.
  - destruct (@two_growables_shares (Height sz) (vBoxLayout.paddingFunc v tt)
                m (v_kinds w objects)) as (a & b & c); auto.
    + rewrite vm; unfold v_kinds; cbn [map]; now rewrite K1, K3.
    + rewrite vw; unfold v_kinds; cbn [map]; now rewrite K1, K3.
    + unfold extra; rewrite v_extra_spec.
      split; [exact a|].
      assert (l1 : laid_out (v_kind_of (heap w first)) = true)
        by now rewrite K1.
      assert (l3 : laid_out (v_kind_of (heap w second)) = true)
        by now rewrite K3.
      rewrite (@v_Layout_size _ _ v objects sz w first i1 l1),
        (@v_Layout_size _ _ v objects sz w second i2 l3).
      rewrite K1, K3, v_hPerFactor_spec.
      cbn [Height]; split; [exact b | exact c].
  - destruct (@two_growables_shares (Width sz) (hBoxLayout.paddingFunc g tt)
                m (h_kinds w objects)) as (a & b & c); auto.
    + rewrite hm; unfold h_kinds; cbn [map]; now rewrite K1, K3.
    + rewrite hw; unfold h_kinds; cbn [map]; now rewrite K1, K3.
    + unfold extra; rewrite h_extra_spec.
      split; [exact a|].
      assert (l1 : laid_out (h_kind_of (heap w first)) = true)
        by now rewrite K1.
      assert (l3 : laid_out (h_kind_of (heap w second)) = true)
        by now rewrite K3.
      rewrite (@h_Layout_size _ _ g objects sz w first i1 l1),
        (@h_Layout_size _ _ g objects sz w second i2 l3).
      rewrite K1, K3, h_wPerFactor_spec.
      cbn [Width]; split; [exact b | exact c].
Qed.
End Proportional.

(** ** A container smaller than the minimum *)

Section Overflow.
Open Scope Qc_scope.
Implicit Types (w : World exact) (h child : handle) (sz : Size exact).

Lemma exact_div_neg (a b : exact) : a < 0 -> 0 < b -> a / b < 0.
Proof.
  intros na pb; to_Q.
  assert (0 < / b)%Q by (apply Qinv_lt_0_compat; exact pb).
  nra.
Qed.

Lemma exact_share_shrinks (e W gf m : exact) :
  e < 0 -> 0 < W -> 0 <= gf -> 0 <= m -> m + e / W * gf * m <= m.
Proof.
  intros ne pW pg pm; to_Q.
  assert (0 < / W)%Q by (apply Qinv_lt_0_compat; exact pW).
  assert (e * / W < 0)%Q by nra.
  assert (0 <= gf * m)%Q by nra.
  nra.
Qed.

(** In terms of the kinds: a container smaller than the minimums and the
    padding gaps gives a negative [extra], which is what the two shares
    divide. *)
Lemma negative_extra_shares (container padding : exact) ks :
  container
    < total (mins ks) + padding * of_int (Z.of_nat (length (mins ks)) - 1) ->
  let extra := spec_extra container padding ks in
  let W := total (weights ks) in
  let k := Z.of_nat (count_spacers ks) in
  extra < 0 /\
  ((0 < k)%Z ->
   spec_perSpacer container padding ks = extra / of_int k /\
   spec_perSpacer container padding ks < 0) /\
  (0 < W ->
   spec_perWeightUnit container padding ks = extra / W /\
   spec_perWeightUnit container padding ks < 0 /\
   forall m gf, 0 <= m -> 0 <= gf ->
     final_main (spec_perWeightUnit container padding ks) (Grows m gf)
     = m + extra / W * gf * m /\
     final_main (spec_perWeightUnit container padding ks) (Grows m gf) <= m).
Proof.
  intros small extra W k.
  assert (ne : extra < 0).
  { unfold extra, spec_extra.
    set (a := total (mins ks)) in *.
    set (b := (padding * of_int (Z.of_nat (length (mins ks)) - 1))%f32) in *.
    cbn [fsub exact_ops]; change (container < a + b) in small.
    clearbody a b; to_Q; lra. }
  split; [exact ne|]; split.
  - intro kpos; rewrite spec_perSpacer_pos; auto.
    split; [reflexivity|].
    apply exact_div_neg; auto; now apply exact_of_int_pos.
  - intro Wpos.
    assert (e : spec_perWeightUnit container padding ks = extra / W).
    { unfold extra, W; rewrite spec_perWeightUnit_pos; [reflexivity|].
      now apply exact_lt_true. }
    split; [exact e|]; split.
    + rewrite e; now apply exact_div_neg.
    + intros m gf pm pg; unfold final_main; rewrite e.
      split; [reflexivity|].
      now apply exact_share_shrinks.
Qed.

(** C6, in exact arithmetic: when the container's size along the axis is
    smaller than the sum of the minimums of the children laid out plus the
    padding gaps,
    [extra] is negative and is used as it is: every spacer advances the
    cursor by the negative [extra / k], the share of a weight unit is the
    negative [extra / W], and a growable child with non-negative minimum
    [m] and factor [gf] ends with [m + extra / W * gf * m], which is at
    most [m]. *)
Theorem negative_extra_is_not_clamped
    (v : vBoxLayout.t exact) (g : hBoxLayout.t exact)
    (objects : list handle) sz w :
  (let ks := v_kinds w objects in
   let extra := vBoxLayout.extra v objects sz w in
   let W := total (weights ks) in
   let k := Z.of_nat (count_spacers ks) in
   Height sz
     < total (mins ks)
       + vBoxLayout.paddingFunc v tt * of_int (Z.of_nat (length (mins ks)) - 1) ->
   extra = Height sz - total (mins ks)
           - vBoxLayout.paddingFunc v tt
             * of_int (Z.of_nat (length (mins ks)) - 1) /\
   extra < 0 /\
   ((0 < k)%Z ->
    vBoxLayout.spacerSize v objects sz w = extra / of_int k /\
    vBoxLayout.spacerSize v objects sz w < 0) /\
   (0 < W ->
    vBoxLayout.hPerFactor v objects sz w = extra / W /\
    vBoxLayout.hPerFactor v objects sz w < 0 /\
    forall child m gf,
      In child objects -> v_kind_of (heap w child) = Grows m gf ->
      0 <= m -> 0 <= gf ->
      Height (size (heap (vBoxLayout.Layout v objects sz w) child))
      = m + extra / W * gf * m /\
      Height (size (heap (vBoxLayout.Layout v objects sz w) child)) <= m)) /\
  (let ks := h_kinds w objects in
   let extra := hBoxLayout.extra g objects sz w in
   let W := total (weights ks) in
   let k := Z.of_nat (count_spacers ks) in
   Width sz
     < total (mins ks)
       + hBoxLayout.paddingFunc g tt * of_int (Z.of_nat (length (mins ks)) - 1) ->
   extra = Width sz - total (mins ks)
           - hBoxLayout.paddingFunc g tt
             * of_int (Z.of_nat (length (mins ks)) - 1) /\
   extra < 0 /\
   ((0 < k)%Z ->
    hBoxLayout.spacerSize g objects sz w = extra / of_int k /\
    hBoxLayout.spacerSize g objects sz w < 0) /\
   (0 < W ->
    hBoxLayout.wPerFactor g objects sz w = extra / W /\
    hBoxLayout.wPerFactor g objects sz w < 0 /\
    forall child m gf,
      In child objects -> h_kind_of (heap w child) = Grows m gf ->
      0 <= m -> 0 <= gf ->
      Width (size (heap (hBoxLayout.Layout g objects sz w) child))
      = m + extra / W * gf * m /\
      Width (size (heap (hBoxLayout.Layout g objects sz w) child)) <= m)).
Proof.
  split; intros ks extra W k small.
  - destruct (@negative_extra_shares (Height sz) (vBoxLayout.paddingFunc v tt)
                ks small) as (ne & sp & pw).
    unfold extra; rewrite v_spacerSize_spec, v_hPerFactor_spec, v_extra_spec.
    split; [reflexivity|]; split; [exact ne|]; split; [exact sp|].
    intro Wpos; destruct (pw Wpos) as (a & b & c).
    split; [exact a|]; split; [exact b|].
    intros child m gf i K pm pg.
    assert (lo : laid_out (v_kind_of (heap w child)) = true) by now rewrite K.
    rewrite (@v_Layout_size _ _ v objects sz w child i lo), K.
    rewrite v_hPerFactor_spec; cbn [Height]; now apply c.
  - destruct (@negative_extra_shares (Width sz) (hBoxLayout.paddingFunc g tt)
                ks small) as (ne & sp & pw).
    unfold extra; rewrite h_spacerSize_spec, h_wPerFactor_spec, h_extra_spec.
    split; [reflexivity|]; split; [exact ne|]; split; [exact sp|].
    intro Wpos; destruct (pw Wpos) as (a & b & c).
    split; [exact a|]; split; [exact b|].
    intros child m gf i K pm pg.
    assert (lo : laid_out (h_kind_of (heap w child)) = true) by now rewrite K.
    rewrite (@h_Layout_size _ _ g objects sz w child i lo), K.
    rewrite h_wPerFactor_spec; cbn [Width]; now apply c.
Qed.
End Overflow.

(** ** The total weight in exact arithmetic *)

Section WeightExact.
Open Scope Qc_scope.

Lemma exact_floor1_ge_1 (m : exact) : 1 <= floor1 m.
Proof.
  unfold floor1; destruct (m <? of_int 1)%f32 eqn:e.
  - apply Qcle_refl.
  - now apply exact_lt_false in e.
Qed.

Lemma exact_weight_sign (g m : exact) :
  (0 <= g -> 0 <= g * floor1 m) /\ (0 < g -> 0 < g * floor1 m).
Proof.
  pose proof (exact_floor1_ge_1 m) as f.
  set (x := floor1 m) in *; clearbody x.
  split; intro pg; to_Q; nra.
Qed.

(** With grow factors that are not negative, the total weight is not
    negative, and it is positive as soon as one growable child laid out
    has a positive grow factor. *)
Lemma exact_total_weight_positive (ks : list (kind exact)) :
  (forall m g, In (Grows m g) ks -> 0 <= g) ->
  0 <= total (weights ks) /\
  ((exists m g, In (Grows m g) ks /\ 0 < g) -> 0 < total (weights ks)).
Proof.
  induction ks as [|k ks IH]; intro nonneg.
  - split; [apply Qcle_refl | intros (m & g & [] & _)].
  - destruct IH as [ge pos]; [intros; eapply nonneg; simpl; eauto|].
    destruct k as [| |m|m g]; cbn [weights flat_map app];
      try (split; [exact ge|];
           intros (m' & g' & [e|i] & pg); [discriminate e|];
           apply pos; eauto).
    fold (weights ks); rewrite exact_total_cons.
    destruct (exact_weight_sign g m) as [wge wpos].
    assert (pg : 0 <= g) by (eapply nonneg; simpl; eauto).
    specialize (wge pg).
    cbn [fmul exact_ops] in *.
    set (x := g * floor1 m) in *; set (t := total (weights ks)) in *.
    split.
    + clearbody x t; to_Q; lra.
    + intros (m' & g' & [e|i] & pg').
      * injection e as -> ->; specialize (wpos pg').
        clearbody x t; to_Q; lra.
      * assert (0 < t) by (apply pos; eauto).
        clearbody x t; to_Q; lra.
Qed.
End WeightExact.

(** ** Scenes *)

Module Scenes.
Import Samples.

Section Generic.
Context {F : Type} `{Float32Ops F}.

(** Three ordinary children of minimum heights 20, 30, 40. *)
Definition column_of_three : World F :=
  world_of [ordinary true 7 20; ordinary true 8 30; ordinary true 9 40].

(** A spacer expanding horizontally only, between two ordinary children of
    minimum widths 10 and 20. *)
Definition row_with_spacer : World F :=
  world_of [ordinary true 10 7; spacer false true 0 0; ordinary true 20 9].

(** A growable child, a spacer expanding both ways, an ordinary child. *)
Definition mixed_pools : World F :=
  world_of [growing 2 (of_int 10) (of_int 10); spacer true true 0 0;
            ordinary true 5 5].

(** An invisible child before a visible one. *)
Definition hidden_first : World F :=
  world_of [ordinary false 5 5; ordinary true 7 20].

(** One growable child of minimum size (0, 0) and grow factor 1. *)
Definition lone_growable_zero : World F :=
  world_of [growing 1 (of_int 0) (of_int 0)].

(** Two growable children of grow factors 1 and 3 and the same minimum. *)
Definition two_growables (m : F) : World F :=
  world_of [growing 1 m m; growing 3 m m].
End Generic.

End Scenes.

Section Scenarios.
Import Samples Scenes.
Open Scope Qc_scope.

(** The column of three ordinary children in a container of size
    (100, 210) with padding 5: the children are placed at y = 0, 25, 60
    and keep their minimum heights. *)
Example column_of_three_layout :
  let r := vBoxLayout.Layout (NewCustomPaddedVBoxLayout (of_int 5))
             [0; 1; 2]%nat (sizeZ 100 210) (column_of_three (F := exact)) in
  map (fun h => (position (heap r h), size (heap r h))) [0; 1; 2]%nat
  = [(NewPos (of_int 0) (of_int 0), sizeZ 100 20);
     (NewPos (of_int 0) (of_int 25), sizeZ 100 30);
     (NewPos (of_int 0) (of_int 60), sizeZ 100 40)].
Proof. vm_compute; reflexivity. Qed.

(** The same scene in binary32. *)
Example column_of_three_layout_binary32 :
  let r := vBoxLayout.Layout (NewCustomPaddedVBoxLayout (of_int 5))
             [0; 1; 2]%nat (sizeZ 100 210) (column_of_three (F := binary32)) in
  map (fun h => (position (heap r h), size (heap r h))) [0; 1; 2]%nat
  = [(NewPos (of_int 0) (of_int 0), sizeZ 100 20);
     (NewPos (of_int 0) (of_int 25), sizeZ 100 30);
     (NewPos (of_int 0) (of_int 60), sizeZ 100 40)].
Proof. vm_compute; reflexivity. Qed.

(** The row with one spacer in a container of width 100 with padding 5:
    [extra] is 65, all of it taken by the spacer, and the second child is
    placed at x = 80. *)
Example row_with_spacer_layout :
  let g := NewCustomPaddedHBoxLayout (of_int 5 : exact) in
  let r := hBoxLayout.Layout g [0; 1; 2]%nat (sizeZ 100 50) row_with_spacer in
  hBoxLayout.extra g [0; 1; 2]%nat (sizeZ 100 50) row_with_spacer = of_int 65 /\
  position (heap r 2%nat) = NewPos (of_int 80) (of_int 0) /\
  heap r 1%nat = heap row_with_spacer 1%nat.
Proof. vm_compute; repeat split; reflexivity. Qed.
End Scenarios.

(** ** The theorems at concrete scenes *)

Section Instances.
Import Samples Scenes.
Open Scope Qc_scope.

(** C2 at a failing input: a vertical box without padding, of height 100,
    holding one visible growable child of minimum height 0 and grow factor
    1.  [extra] is 100 and, thanks to the floor of 1 in the first loop,
    the total weight is 1 and [hPerFactor] is 100; yet the second loop
    multiplies by the child's own minimum, 0, and the child ends with
    height 0.  In exact arithmetic and in binary32. *)
Theorem zero_minimum_growable_gets_no_share :
  (let v := NewCustomPaddedVBoxLayout (of_int 0 : exact) in
   let w := lone_growable_zero in
   vBoxLayout.extra v [0%nat] (sizeZ 100 100) w = of_int 100 /\
   vBoxLayout.hPerFactor v [0%nat] (sizeZ 100 100) w = of_int 100 /\
   size (heap (vBoxLayout.Layout v [0%nat] (sizeZ 100 100) w) 0%nat)
   = sizeZ 100 0) /\
  (let v := NewCustomPaddedVBoxLayout (of_int 0 : binary32) in
   let w := lone_growable_zero in
   vBoxLayout.extra v [0%nat] (sizeZ 100 100) w = of_int 100 /\
   vBoxLayout.hPerFactor v [0%nat] (sizeZ 100 100) w = of_int 100 /\
   size (heap (vBoxLayout.Layout v [0%nat] (sizeZ 100 100) w) 0%nat)
   = sizeZ 100 0).
Proof. vm_compute; repeat split; reflexivity. Qed.

(** C1 at a failing input: a vertical box without padding, of height 9,
    holding two visible growable children with grow factors 1 and 3 and
    the same minimum height 1/2.  [extra] is 8 and, with the floor of 1 in
    the first loop, the total weight is 1 * 1 + 3 * 1 = 4 and [hPerFactor]
    is 8 / 4 = 2, the share C1 states for the first child; yet the second
    loop multiplies by the child's own minimum, 1/2, and the children end
    with heights 1/2 + 1 and 1/2 + 3, not 1/2 + 8/4 and 1/2 + 3 * 8/4.  In
    exact arithmetic and in binary32, where every number involved is
    represented exactly; the horizontal box does the same with widths. *)
Theorem growable_shares_miss_the_floor :
  (let v := NewCustomPaddedVBoxLayout (of_int 0 : exact) in
   let m := Q2Qc (1 # 2) in
   let w := two_growables m in
   let sz := NewSize (of_int 9) (of_int 9) in
   let r := vBoxLayout.Layout v [0; 1]%nat sz w in
   let extra := vBoxLayout.extra v [0; 1]%nat sz w in
   filter (fun c => Visible (heap w c)) [0; 1]%nat = [0; 1]%nat /\
   v_kind_of (heap w 0%nat) = Grows m (of_int 1) /\
   v_kind_of (heap w 1%nat) = Grows m (of_int 3) /\
   extra = of_int 8 /\
   vBoxLayout.growFactors (vBoxLayout.measure_all [0; 1]%nat sz w)
   = of_int 4 /\
   vBoxLayout.hPerFactor v [0; 1]%nat sz w = of_int 2 /\
   Height (size (heap r 0%nat)) = m + of_int 1 /\
   Height (size (heap r 1%nat)) = m + of_int 3 /\
   Height (size (heap r 0%nat)) <> m + extra / of_int 4 /\
   Height (size (heap r 1%nat)) <> m + of_int 3 * extra / of_int 4) /\
  (let v := NewCustomPaddedVBoxLayout (of_int 0 : binary32) in
   let m := (of_int 1 / of_int 2)%f32 in
   let w := two_growables m in
   let sz := NewSize (of_int 9) (of_int 9) in
   let r := vBoxLayout.Layout v [0; 1]%nat sz w in
   let extra := vBoxLayout.extra v [0; 1]%nat sz w in
   extra = of_int 8 /\
   vBoxLayout.growFactors (vBoxLayout.measure_all [0; 1]%nat sz w)
   = of_int 4 /\
   vBoxLayout.hPerFactor v [0; 1]%nat sz w = of_int 2 /\
   Height (size (heap r 0%nat)) = (m + of_int 1)%f32 /\
   Height (size (heap r 1%nat)) = (m + of_int 3)%f32 /\
   Height (size (heap r 0%nat)) <> (m + extra / of_int 4)%f32 /\
   Height (size (heap r 1%nat)) <> (m + of_int 3 * extra / of_int 4)%f32) /\
  (let g := NewCustomPaddedHBoxLayout (of_int 0 : exact) in
   let m := Q2Qc (1 # 2) in
   let w := two_growables m in
   let sz := NewSize (of_int 9) (of_int 9) in
   let r := hBoxLayout.Layout g [0; 1]%nat sz w in
   let extra := hBoxLayout.extra g [0; 1]%nat sz w in
   extra = of_int 8 /\
   hBoxLayout.wPerFactor g [0; 1]%nat sz w = of_int 2 /\
   Width (size (heap r 0%nat)) = m + of_int 1 /\
   Width (size (heap r 1%nat)) = m + of_int 3 /\
   Width (size (heap r 0%nat)) <> m + extra / of_int 4 /\
   Width (size (heap r 1%nat)) <> m + of_int 3 * extra / of_int 4).
Proof.
  split; [|split].
  - vm_compute; repeat split; try reflexivity;
      try (apply Qc_is_canon; reflexivity);
      intro e; apply (f_equal this) in e; discriminate e.
  - vm_compute; repeat split; try reflexivity; intro e; discriminate e.
  - vm_compute; repeat split; try reflexivity;
      try (apply Qc_is_canon; reflexivity);
      intro e; apply (f_equal this) in e; discriminate e.
Qed.

(** Two growable children of minimum 10 and factors 1 and 3 in a box of
    height 100 with padding 4, in binary32: [extra] is 76 and the heights
    are 10 + 19 and 10 + 57. *)
Example growable_shares_binary32 :
  let v := NewCustomPaddedVBoxLayout (of_int 4 : binary32) in
  let w := two_growables (of_int 10) in
  let sz := NewSize (of_int 100) (of_int 100) in
  let r := vBoxLayout.Layout v [0; 1]%nat sz w in
  vBoxLayout.extra v [0; 1]%nat sz w = of_int 76 /\
  Height (size (heap r 0%nat)) = of_int 29 /\
  Height (size (heap r 1%nat)) = of_int 67.
Proof. vm_compute; repeat split; reflexivity. Qed.

(** X15: in exact arithmetic a growable child of minimum 0 along the axis
    ends with size 0 along the axis, whatever the container, the padding,
    its grow factor and the other children are. *)
Lemma zero_minimum_growable_never_grows
    (v : vBoxLayout.t exact) (g : hBoxLayout.t exact)
    (objects : list handle) (sz : Size exact) (w : World exact)
    (child : handle) (gf : exact) :
  In child objects ->
  (v_kind_of (heap w child) = Grows 0 gf ->
   Height (size (heap (vBoxLayout.Layout v objects sz w) child)) = 0) /\
  (h_kind_of (heap w child) = Grows 0 gf ->
   Width (size (heap (hBoxLayout.Layout g objects sz w) child)) = 0).
Proof.
  intro i; split; intro K.
  - rewrite v_Layout_size, K; auto; [|now rewrite K].
    cbn [Height final_main fadd fmul exact_ops]; ring.
  - rewrite h_Layout_size, K; auto; [|now rewrite K].
    cbn [Width final_main fadd fmul exact_ops]; ring.
Qed.

Lemma growable_shares_are_proportional_witness :
  let v := NewCustomPaddedVBoxLayout (of_int 4 : exact) in
  let g := NewCustomPaddedHBoxLayout (of_int 4 : exact) in
  let w := two_growables (of_int 10) in
  let sz := NewSize (of_int 100) (of_int 100) in
  (Height (size (heap (vBoxLayout.Layout v [0; 1]%nat sz w) 0%nat))
   = of_int 10 + vBoxLayout.extra v [0; 1]%nat sz w / of_int 4 /\
   Height (size (heap (vBoxLayout.Layout v [0; 1]%nat sz w) 1%nat))
   = of_int 10 + of_int 3 * vBoxLayout.extra v [0; 1]%nat sz w / of_int 4) /\
  (Width (size (heap (hBoxLayout.Layout g [0; 1]%nat sz w) 0%nat))
   = of_int 10 + hBoxLayout.extra g [0; 1]%nat sz w / of_int 4 /\
   Width (size (heap (hBoxLayout.Layout g [0; 1]%nat sz w) 1%nat))
   = of_int 10 + of_int 3 * hBoxLayout.extra g [0; 1]%nat sz w / of_int 4).
Proof.
  intros v g w sz.
  destruct (@growable_shares_are_proportional v g [0; 1]%nat sz w
              0%nat 1%nat (of_int 10)) as [V Hz].
  - reflexivity.
  - vm_compute; discriminate.
  - split.
    + apply V; reflexivity.
    + apply Hz; reflexivity.
Defined.

Lemma distribution_pools_are_independent_witness :
  let v := NewCustomPaddedVBoxLayout (of_int 5 : binary32) in
  let g := NewCustomPaddedHBoxLayout (of_int 5 : binary32) in
  let w := mixed_pools in
  let sz := sizeZ 200 100 in
  (vBoxLayout.spacerSize v [0; 1; 2]%nat sz w
   = (vBoxLayout.extra v [0; 1; 2]%nat sz w / of_int 1)%f32 /\
   vBoxLayout.hPerFactor v [0; 1; 2]%nat sz w
   = (vBoxLayout.extra v [0; 1; 2]%nat sz w / of_int 20)%f32) /\
  (hBoxLayout.spacerSize g [0; 1; 2]%nat sz w
   = (hBoxLayout.extra g [0; 1; 2]%nat sz w / of_int 1)%f32 /\
   hBoxLayout.wPerFactor g [0; 1; 2]%nat sz w
   = (hBoxLayout.extra g [0; 1; 2]%nat sz w / of_int 20)%f32).
Proof.
  intros v g w sz.
  destruct (@distribution_pools_are_independent binary32 _ v g
              [0; 1; 2]%nat sz w) as [V Hz].
  split.
  - destruct V as (_ & a & b & _); [reflexivity | reflexivity | now split].
  - destruct Hz as (_ & a & b & _); [reflexivity | reflexivity | now split].
Defined.

(** C4 as stated fails in three ways.  For the empty slice: with padding
    5, [MinSize] is (0, 0), while the sum of the minimums plus [N - 1]
    paddings is -5.  In binary32: three ordinary children of minimum
    heights 16777216, 0 and 1 with padding 1 give the height 16777216,
    every addition of 1 being rounded away, while the sum of the minimums
    plus two paddings is 16777219 (16777218 when it is computed in
    binary32 as the formula is written).  For a negative minimum across
    the axis: one child of minimum width -3 gives the width 0, the value
    the loop starts from, not -3. *)
Lemma MinSize_differs_from_the_formula :
  (let v := NewCustomPaddedVBoxLayout (of_int 5 : exact) in
   let w := column_of_three in
   let objects := @nil handle in
   vBoxLayout.MinSize v objects w = NewSize (of_int 0) (of_int 0) /\
   total (map (fun c => Height (MinSize (heap w c))) objects)
   + vBoxLayout.paddingFunc v tt * of_int (Z.of_nat (length objects) - 1)
   = of_int (-5) /\
   Height (vBoxLayout.MinSize v objects w)
   <> total (map (fun c => Height (MinSize (heap w c))) objects)
      + vBoxLayout.paddingFunc v tt * of_int (Z.of_nat (length objects) - 1)) /\
  (let v := NewCustomPaddedVBoxLayout (of_int 1 : binary32) in
   let w := world_of [ordinary true 0 16777216; ordinary true 0 0;
                      ordinary true 0 1] in
   let objects := [0; 1; 2]%nat in
   map (fun c => v_kind_of (heap w c)) objects
   = [Ordinary (of_int 16777216); Ordinary (of_int 0); Ordinary (of_int 1)] /\
   Height (vBoxLayout.MinSize v objects w) = of_int 16777216 /\
   (total (map (fun c => Height (MinSize (heap w c))) objects)
    + vBoxLayout.paddingFunc v tt
      * of_int (Z.of_nat (length objects) - 1))%f32
   = of_int 16777218 /\
   (16777216 + 0 + 1 + 1 * (3 - 1) = 16777219)%Z /\
   Height (vBoxLayout.MinSize v objects w)
   <> (total (map (fun c => Height (MinSize (heap w c))) objects)
       + vBoxLayout.paddingFunc v tt
         * of_int (Z.of_nat (length objects) - 1))%f32 /\
   Height (vBoxLayout.MinSize v objects w) <> of_int 16777219) /\
  (let v := NewCustomPaddedVBoxLayout (of_int 5 : exact) in
   let w := world_of [ordinary true (-3) 5] in
   let objects := [0%nat] in
   map (fun c => v_kind_of (heap w c)) objects = [Ordinary (of_int 5)] /\
   map (fun c => Width (MinSize (heap w c))) objects = [of_int (-3)] /\
   Width (vBoxLayout.MinSize v objects w) = of_int 0 /\
   Width (vBoxLayout.MinSize v objects w) <> of_int (-3)).
Proof.
  split; [|split].
  - vm_compute; repeat split; try reflexivity.
    intro e; apply (f_equal this) in e; discriminate e.
  - vm_compute; repeat split; try reflexivity; intro e; discriminate e.
  - vm_compute; repeat split; try reflexivity.
    intro e; apply (f_equal this) in e; discriminate e.
Qed.

Lemma MinSize_sums_minimums_and_gaps_witness :
  let v := NewCustomPaddedVBoxLayout (of_int 5 : exact) in
  let g := NewCustomPaddedHBoxLayout (of_int 5 : exact) in
  let w := column_of_three in
  (Height (vBoxLayout.MinSize v [0; 1; 2]%nat w)
   = total [of_int 20; of_int 30; of_int 40] + of_int 5 * of_int 2 /\
   is_maximum (Width (vBoxLayout.MinSize v [0; 1; 2]%nat w))
     [of_int 7; of_int 8; of_int 9]) /\
  vBoxLayout.MinSize v [] w = NewSize (of_int 0) (of_int 0) /\
  (Width (hBoxLayout.MinSize g [0; 1; 2]%nat w)
   = total [of_int 7; of_int 8; of_int 9] + of_int 5 * of_int 2 /\
   is_maximum (Height (hBoxLayout.MinSize g [0; 1; 2]%nat w))
     [of_int 20; of_int 30; of_int 40]) /\
  hBoxLayout.MinSize g [] w = NewSize (of_int 0) (of_int 0).
Proof.
  intros v g w.
  destruct (MinSize_sums_minimums_and_gaps v g [0; 1; 2]%nat w)
    as (V & _ & Hz & _).
  destruct (MinSize_sums_minimums_and_gaps v g [] w)
    as (_ & V0 & _ & H0).
  split; [|split; [|split]].
  - apply V.
    + intros c [<-|[<-|[<-|[]]]]; split; reflexivity.
    + intros c [<-|[<-|[<-|[]]]]; vm_compute; discriminate.
    + discriminate.
  - apply V0; intros c [].
  - apply Hz.
    + intros c [<-|[<-|[<-|[]]]]; split; reflexivity.
    + intros c [<-|[<-|[<-|[]]]]; vm_compute; discriminate.
    + discriminate.
  - apply H0; intros c [].
Defined.

Lemma Layout_cross_axis_matches_container_witness :
  let v := NewCustomPaddedVBoxLayout (of_int 5 : binary32) in
  let g := NewCustomPaddedHBoxLayout (of_int 5 : binary32) in
  let w := mixed_pools in
  let sz := sizeZ 200 100 in
  Width (size (heap (vBoxLayout.Layout v [0; 1; 2]%nat sz w) 0%nat))
  = of_int 200 /\
  Height (size (heap (hBoxLayout.Layout g [0; 1; 2]%nat sz w) 0%nat))
  = of_int 100.
Proof.
  intros v g w sz.
  destruct (@Layout_cross_axis_matches_container binary32 _ v g
              [0; 1; 2]%nat sz w 0%nat) as [V Hz].
  - simpl; auto.
  - reflexivity.
  - split; [apply V | apply Hz]; reflexivity.
Defined.

(** C6 as stated fails in binary32: a vertical box of height 16777222 with
    padding 16777220, holding two ordinary children of minimum heights 1
    and 2 and a spacer.  The container is smaller than the minimums plus
    the padding gap, 16777223 (and is found smaller when the sum is
    computed in binary32), yet [extra] is 0 and not negative:
    16777222 - 3 is rounded to 16777220.  The spacer advances the cursor
    by 0. *)
Lemma negative_extra_rounds_to_zero :
  let v := NewCustomPaddedVBoxLayout (of_int 16777220 : binary32) in
  let w := world_of [ordinary true 0 1; ordinary true 0 2;
                     spacer true true 0 0] in
  let objects := [0; 1; 2]%nat in
  let sz := sizeZ 100 16777222 in
  let ks := v_kinds w objects in
  ks = [Ordinary (of_int 1); Ordinary (of_int 2); IsSpacer] /\
  (16777222 < 1 + 2 + 16777220 * (2 - 1))%Z /\
  (Height sz
   <? total (mins ks)
      + vBoxLayout.paddingFunc v tt
        * of_int (Z.of_nat (length (mins ks)) - 1))%f32 = true /\
  vBoxLayout.extra v objects sz w = of_int 0 /\
  (vBoxLayout.extra v objects sz w <? of_int 0)%f32 = false /\
  vBoxLayout.spacerSize v objects sz w = of_int 0 /\
  (vBoxLayout.spacerSize v objects sz w <? of_int 0)%f32 = false.
Proof. vm_compute; repeat split; reflexivity. Qed.

Lemma negative_extra_is_not_clamped_witness :
  let v := NewCustomPaddedVBoxLayout (of_int 4 : exact) in
  let g := NewCustomPaddedHBoxLayout (of_int 4 : exact) in
  let w := mixed_pools in
  let sz := sizeZ 12 12 in
  (vBoxLayout.extra v [0; 1; 2]%nat sz w < 0 /\
   vBoxLayout.spacerSize v [0; 1; 2]%nat sz w < 0 /\
   vBoxLayout.hPerFactor v [0; 1; 2]%nat sz w < 0 /\
   Height (size (heap (vBoxLayout.Layout v [0; 1; 2]%nat sz w) 0%nat))
   <= of_int 10) /\
  (hBoxLayout.extra g [0; 1; 2]%nat sz w < 0 /\
   hBoxLayout.spacerSize g [0; 1; 2]%nat sz w < 0 /\
   hBoxLayout.wPerFactor g [0; 1; 2]%nat sz w < 0 /\
   Width (size (heap (hBoxLayout.Layout g [0; 1; 2]%nat sz w) 0%nat))
   <= of_int 10).
Proof.
  intros v g w sz.
  destruct (negative_extra_is_not_clamped v g [0; 1; 2]%nat sz w) as [V Hz].
  split.
  - destruct V as (_ & ne & sp & pw); [reflexivity|].
    destruct sp as [_ sp]; [reflexivity|].
    destruct pw as (_ & pw & gr); [reflexivity|].
    destruct (gr 0%nat (of_int 10) (of_int 2)) as [_ le];
      [simpl; auto | reflexivity | vm_compute; discriminate
      | vm_compute; discriminate |].
    repeat split; assumption.
  - destruct Hz as (_ & ne & sp & pw); [reflexivity|].
    destruct sp as [_ sp]; [reflexivity|].
    destruct pw as (_ & pw & gr); [reflexivity|].
    destruct (gr 0%nat (of_int 10) (of_int 2)) as [_ le];
      [simpl; auto | reflexivity | vm_compute; discriminate
      | vm_compute; discriminate |].
    repeat split; assumption.
Defined.

Lemma invisible_child_is_excluded_witness :
  let v := NewCustomPaddedVBoxLayout (of_int 5 : binary32) in
  let g := NewCustomPaddedHBoxLayout (of_int 5 : binary32) in
  let w := hidden_first in
  let sz := sizeZ 100 100 in
  (vBoxLayout.MinSize v [0; 1]%nat w = vBoxLayout.MinSize v [1%nat] w /\
   hBoxLayout.MinSize g [0; 1]%nat w = hBoxLayout.MinSize g [1%nat] w) /\
  (vBoxLayout.Layout v [0; 1]%nat sz w = vBoxLayout.Layout v [1%nat] sz w /\
   hBoxLayout.Layout g [0; 1]%nat sz w = hBoxLayout.Layout g [1%nat] sz w) /\
  (heap (vBoxLayout.Layout v [0; 1]%nat sz w) 0%nat = heap w 0%nat /\
   never_called 0%nat w (vBoxLayout.Layout v [0; 1]%nat sz w)) /\
  (heap (hBoxLayout.Layout g [0; 1]%nat sz w) 0%nat = heap w 0%nat /\
   never_called 0%nat w (hBoxLayout.Layout g [0; 1]%nat sz w)).
Proof.
  intros v g w sz.
  destruct (@invisible_child_is_excluded binary32 _ v g [] [1%nat] sz w 0%nat)
    as (a & b & c); [reflexivity|].
  split; [exact a|]; split; [exact b|].
  exact (c [0; 1]%nat).
Defined.


Lemma cross_axis_spacer_is_laid_out_witness :
  let v := NewCustomPaddedVBoxLayout (of_int 5 : binary32) in
  let g := NewCustomPaddedHBoxLayout (of_int 5 : binary32) in
  let sz := sizeZ 100 50 in
  let wv := world_of [ordinary true 10 7; spacer false true 3 4] in
  let wh := world_of [ordinary true 10 7; spacer true false 3 4] in
  (vBoxLayout.MinSize v [0; 1]%nat wv
   = vBoxLayout.MinSize v [0; 1]%nat (forget_spacer 1%nat wv) /\
   calls (vBoxLayout.Layout v [0; 1]%nat sz wv)
   = calls (vBoxLayout.Layout v [0; 1]%nat sz (forget_spacer 1%nat wv)) /\
   log_grows_with (is_Move_of 1%nat) (calls wv)
     (calls (vBoxLayout.Layout v [0; 1]%nat sz wv)) /\
   log_grows_with (is_Resize_of 1%nat) (calls wv)
     (calls (vBoxLayout.Layout v [0; 1]%nat sz wv)) /\
   vBoxLayout.MinSize v [0%nat] wv = sizeZ 10 7 /\
   vBoxLayout.MinSize v ([0%nat] ++ [1%nat]) wv = sizeZ 10 16 /\
   vBoxLayout.MinSize v ([] ++ [1%nat]) wv = sizeZ 3 4 /\
   vBoxLayout.visibleObjects (vBoxLayout.measure_all ([0%nat] ++ [1%nat]) sz wv)
   = 2%Z) /\
  (hBoxLayout.MinSize g [0; 1]%nat wh
   = hBoxLayout.MinSize g [0; 1]%nat (forget_spacer 1%nat wh) /\
   calls (hBoxLayout.Layout g [0; 1]%nat sz wh)
   = calls (hBoxLayout.Layout g [0; 1]%nat sz (forget_spacer 1%nat wh)) /\
   log_grows_with (is_Move_of 1%nat) (calls wh)
     (calls (hBoxLayout.Layout g [0; 1]%nat sz wh)) /\
   log_grows_with (is_Resize_of 1%nat) (calls wh)
     (calls (hBoxLayout.Layout g [0; 1]%nat sz wh)) /\
   hBoxLayout.MinSize g [0%nat] wh = sizeZ 10 7 /\
   hBoxLayout.MinSize g ([0%nat] ++ [1%nat]) wh = sizeZ 18 7 /\
   hBoxLayout.MinSize g ([] ++ [1%nat]) wh = sizeZ 3 4 /\
   hBoxLayout.visibleObjects (hBoxLayout.measure_all ([0%nat] ++ [1%nat]) sz wh)
   = 2%Z).
Proof.
  intros v g sz wv wh.
  split.
  - destruct (@cross_axis_spacer_is_laid_out binary32 _ v g [0; 1]%nat sz wv
                1%nat {| ExpandVertical := false; ExpandHorizontal := true |})
      as [V _]; [reflexivity|].
    destruct V as (_ & a & b & _ & c & d); [reflexivity|].
    destruct c as [c c']; [simpl; auto | reflexivity |].
    destruct (d [0%nat] eq_refl) as (d1 & _ & _ & d2 & _).
    destruct (d [] eq_refl) as (_ & d3 & _).
    split; [exact a|]; split; [exact b|]; split; [exact c|];
      split; [exact c'|]; split; [reflexivity|].
    split; [|split].
    + etransitivity; [apply d1; exists 0%nat; simpl; auto | reflexivity].
    + etransitivity; [apply d3; intros x [] | reflexivity].
    + etransitivity; [apply d2 | reflexivity].
  - destruct (@cross_axis_spacer_is_laid_out binary32 _ v g [0; 1]%nat sz wh
                1%nat {| ExpandVertical := true; ExpandHorizontal := false |})
      as [_ Hz]; [reflexivity|].
    destruct Hz as (_ & a & b & _ & c & d); [reflexivity|].
    destruct c as [c c']; [simpl; auto | reflexivity |].
    destruct (d [0%nat] eq_refl) as (d1 & _ & _ & d2 & _).
    destruct (d [] eq_refl) as (_ & d3 & _).
    split; [exact a|]; split; [exact b|]; split; [exact c|];
      split; [exact c'|]; split; [reflexivity|].
    split; [|split].
    + etransitivity; [apply d1; exists 0%nat; simpl; auto | reflexivity].
    + etransitivity; [apply d3; intros x [] | reflexivity].
    + etransitivity; [apply d2 | reflexivity].
Defined.
End Instances.

(** * Further properties of the layouts *)

(** ** Where children are placed *)

Section Placement.
Context {F : Type} `{Float32Ops F}.
Implicit Types (w : World F) (h child : handle) (sz : Size F).

Lemma fold_left_nth_error (A B : Type) (f : A -> B -> A) (l : list B) n c :
  nth_error l n = Some c ->
  forall a,
  fold_left f l a
  = fold_left f (skipn (S n) l) (f (fold_left f (firstn n l) a) c).
Proof.
  revert n; induction l as [|b l IH]; intros [|n] e a; simpl in *;
    try discriminate.
  - now injection e as ->.
  - now apply IH.
Qed.

Lemma position_Move_same child p w : position (heap (Move child p w) child) = p.
Proof. now rewrite heap_Move_same. Qed.

(** The second loop never changes the coordinate across the axis. *)
Lemma v_place_child_x sz padding per sp st b :
  vBoxLayout.x (vBoxLayout.place_child sz padding per sp st b)
  = vBoxLayout.x st.
Proof.
  rewrite v_place_child_kind.
  now destruct (v_kind_of (heap (vBoxLayout.placed st) b)).
Qed.

Lemma v_place_upto_x v objects sz w n :
  vBoxLayout.x (v_place_upto v objects sz w n) = of_int 0.
Proof.
  unfold v_place_upto.
  apply fold_left_invariant with (P := fun st => vBoxLayout.x st = of_int 0);
    auto.
  intros a b e; now rewrite v_place_child_x.
Qed.

(** A step of the second loop at another child leaves the position. *)
Lemma v_place_child_position_other sz padding per sp st b h :
  h <> b ->
  position (heap (vBoxLayout.placed (vBoxLayout.place_child sz padding per sp st b)) h)
  = position (heap (vBoxLayout.placed st) h).
Proof.
  intro ne; rewrite v_place_child_kind.
  destruct (v_kind_of (heap (vBoxLayout.placed st) b));
    cbn [vBoxLayout.placed]; auto.
  - now rewrite heap_Move_other.
  - now rewrite position_Resize, heap_Move_other.
Qed.

(** A step of the second loop at a child laid out moves it to the
    cursor. *)
Lemma v_place_child_position_here sz padding per sp w st h :
  same_observers (vBoxLayout.placed st) w ->
  laid_out (v_kind_of (heap w h)) = true ->
  position (heap (vBoxLayout.placed (vBoxLayout.place_child sz padding per sp st h)) h)
  = NewPos (vBoxLayout.x st) (vBoxLayout.y st).
Proof.
  intros e lo; rewrite v_place_child_kind, (v_kind_of_same h e).
  destruct (v_kind_of (heap w h)); try discriminate;
    cbn [vBoxLayout.placed].
  - apply position_Move_same.
  - rewrite position_Resize; apply position_Move_same.
Qed.

(** After [Layout], a child laid out is where the cursor was when the
    second loop met its last occurrence in the slice. *)
Lemma v_Layout_position v objects sz w n child :
  nth_error objects n = Some child ->
  ~ In child (skipn (S n) objects) ->
  laid_out (v_kind_of (heap w child)) = true ->
  position (heap (vBoxLayout.Layout v objects sz w) child)
  = NewPos (vBoxLayout.x (v_place_upto v objects sz w n))
      (vBoxLayout.y (v_place_upto v objects sz w n)).
Proof.
  intros e last lo.
  unfold vBoxLayout.Layout, vBoxLayout.place_all.
  set (f := vBoxLayout.place_child sz (vBoxLayout.paddingFunc v tt)
              (vBoxLayout.hPerFactor v objects sz w)
              (vBoxLayout.spacerSize v objects sz w)).
  rewrite (@fold_left_nth_error _ _ f objects n child e).
  fold (v_place_upto v objects sz w n).
  apply fold_left_invariant_in
    with (P := fun st =>
            position (heap (vBoxLayout.placed st) child)
            = NewPos (vBoxLayout.x (v_place_upto v objects sz w n))
                (vBoxLayout.y (v_place_upto v objects sz w n))).
  - intros a b i pa; unfold f; rewrite v_place_child_position_other; auto.
    intros ->; now apply last.
  - unfold f; apply v_place_child_position_here with (w := w); auto.
    apply v_place_upto_observers.
Qed.

(** At a child laid out the cursor advances by the padding and the size
    along the axis the child ends with. *)
Lemma v_laid_out_advances v objects sz w n child :
  nth_error objects n = Some child ->
  laid_out (v_kind_of (heap w child)) = true ->
  vBoxLayout.y (v_place_upto v objects sz w (S n))
  = (vBoxLayout.y (v_place_upto v objects sz w n)
     + (vBoxLayout.paddingFunc v tt
        + Height (size (heap (vBoxLayout.Layout v objects sz w) child))))%f32.
Proof.
  intros e lo.
  assert (i : In child objects) by (eapply nth_error_In; eauto).
  rewrite (@v_Layout_size _ _ v objects sz w child i lo).
  rewrite (v_place_upto_step _ _ _ _ _ e), v_place_child_kind.
  rewrite (v_kind_of_same child (v_place_upto_observers v objects sz w n)).
  destruct (v_kind_of (heap w child)); try discriminate; reflexivity.
Qed.

(** At an invisible child the variables of the second loop stay. *)
Lemma v_invisible_stays v objects sz w n child :
  nth_error objects n = Some child ->
  Visible (heap w child) = false ->
  v_place_upto v objects sz w (S n) = v_place_upto v objects sz w n.
Proof.
  intros e inv.
  rewrite (v_place_upto_step _ _ _ _ _ e), v_place_child_kind.
  rewrite (v_kind_of_same child (v_place_upto_observers v objects sz w n)).
  apply v_kind_skipped in inv; now rewrite inv.
Qed.

(** The variables of the second loops correspond at every iteration. *)
Lemma place_upto_mirrors g objects sz w n :
  place_mirrors (h_place_upto g objects sz w n)
    (v_place_upto (mirrored g) objects (transposeSize sz) (transposeWorld w) n).
Proof.
  unfold h_place_upto, v_place_upto.
  rewrite h_wPerFactor_mirror, h_spacerSize_mirror.
  apply fold_left_related with (R := place_mirrors).
  - intros; now apply place_child_mirrors.
  - unfold place_mirrors; simpl; repeat split; auto;
      destruct (measure_all_mirrors objects sz w) as (_ & _ & _ & _ & e5);
      apply e5.
Qed.

Lemma h_place_upto_y g objects sz w n :
  hBoxLayout.y (h_place_upto g objects sz w n) = of_int 0.
Proof.
  destruct (place_upto_mirrors g objects sz w n) as (_ & e & _).
  rewrite e; apply v_place_upto_x.
Qed.

Lemma h_Layout_position g objects sz w n child :
  nth_error objects n = Some child ->
  ~ In child (skipn (S n) objects) ->
  laid_out (h_kind_of (heap w child)) = true ->
  position (heap (hBoxLayout.Layout g objects sz w) child)
  = NewPos (hBoxLayout.x (h_place_upto g objects sz w n))
      (hBoxLayout.y (h_place_upto g objects sz w n)).
Proof.
  intros e last lo.
  destruct (h_Layout_mirror g objects sz w) as [eh _]; rewrite eh.
  cbn [heap transposeWorld position transposeObject].
  rewrite (@v_Layout_position (mirrored g) objects (transposeSize sz)
             (transposeWorld w) n child e last).
  - destruct (place_upto_mirrors g objects sz w n) as (ex & ey & _).
    now rewrite ex, ey.
  - cbn [heap transposeWorld]; now rewrite v_kind_of_transpose.
Qed.

Lemma h_laid_out_advances g objects sz w n child :
  nth_error objects n = Some child ->
  laid_out (h_kind_of (heap w child)) = true ->
  hBoxLayout.x (h_place_upto g objects sz w (S n))
  = (hBoxLayout.x (h_place_upto g objects sz w n)
     + (hBoxLayout.paddingFunc g tt
        + Width (size (heap (hBoxLayout.Layout g objects sz w) child))))%f32.
Proof.
  intros e lo.
  assert (i : In child objects) by (eapply nth_error_In; eauto).
  rewrite (@h_Layout_size _ _ g objects sz w child i lo).
  rewrite (h_place_upto_step _ _ _ _ _ e), h_place_child_kind.
  rewrite (h_kind_of_same child (h_place_upto_observers g objects sz w n)).
  destruct (h_kind_of (heap w child)); try discriminate; reflexivity.
Qed.

Lemma h_invisible_stays g objects sz w n child :
  nth_error objects n = Some child ->
  Visible (heap w child) = false ->
  h_place_upto g objects sz w (S n) = h_place_upto g objects sz w n.
Proof.
  intros e inv.
  rewrite (h_place_upto_step _ _ _ _ _ e), h_place_child_kind.
  rewrite (h_kind_of_same child (h_place_upto_observers g objects sz w n)).
  apply h_kind_skipped in inv; now rewrite inv.
Qed.
End Placement.

Section PlacementTheorems.
Context {F : Type} `{Float32Ops F}.
Implicit Types (w : World F) (h child : handle) (sz : Size F).

Lemma in_last_occurrence (l : list handle) child :
  In child l ->
  exists n, nth_error l n = Some child /\ ~ In child (skipn (S n) l).
Proof.
  induction l as [|a l IH]; intros i; [destruct i|].
  destruct (in_dec Nat.eq_dec child l) as [il|nil].
  - destruct (IH il) as (n & e & last); exists (S n); auto.
  - destruct i as [->|i]; [|contradiction].
    exists 0%nat; split; auto.
Qed.

(** X1: a visible child that is neither a spacer along the axis nor
    growable ends with exactly its own minimum along the axis, and the
    container's size across it, whatever the container's size is. *)
Theorem ordinary_child_keeps_its_minimum
    (v : vBoxLayout.t F) (g : hBoxLayout.t F) (objects : list handle)
    sz w child :
  In child objects ->
  Visible (heap w child) = true ->
  asGrowable (heap w child) = None ->
  (isVerticalSpacer (heap w child) = false ->
   size (heap (vBoxLayout.Layout v objects sz w) child)
   = NewSize (Width sz) (Height (MinSize (heap w child)))) /\
  (isHorizontalSpacer (heap w child) = false ->
   size (heap (hBoxLayout.Layout g objects sz w) child)
   = NewSize (Width (MinSize (heap w child))) (Height sz)).
Proof.
  intros i vis ng; split; intro ns.
  - assert (K : v_kind_of (heap w child)
                = Ordinary (Height (MinSize (heap w child))))
      by (unfold v_kind_of; now rewrite vis, ns, ng).
    rewrite v_Layout_size, K; auto; now rewrite K.
  - assert (K : h_kind_of (heap w child)
                = Ordinary (Width (MinSize (heap w child))))
      by (unfold h_kind_of; now rewrite vis, ns, ng).
    rewrite h_Layout_size, K; auto; now rewrite K.
Qed.

(** X2: a vertical box moves every child it lays out to x = 0, and a
    horizontal box to y = 0. *)
Theorem children_start_at_the_cross_origin
    (v : vBoxLayout.t F) (g : hBoxLayout.t F) (objects : list handle)
    sz w child :
  In child objects ->
  Visible (heap w child) = true ->
  (isVerticalSpacer (heap w child) = false ->
   X (position (heap (vBoxLayout.Layout v objects sz w) child)) = of_int 0) /\
  (isHorizontalSpacer (heap w child) = false ->
   Y (position (heap (hBoxLayout.Layout g objects sz w) child)) = of_int 0).
Proof.
  intros i vis.
  destruct (in_last_occurrence objects child i) as (n & e & last).
  split; intro ns.
  - rewrite (@v_Layout_position _ _ v objects sz w n child e last).
    + apply v_place_upto_x.
    + now apply v_kind_laid_out.
  - rewrite (@h_Layout_position _ _ g objects sz w n child e last).
    + apply h_place_upto_y.
    + now apply h_kind_laid_out.
Qed.

(** X3: children are laid end to end.  The cursor starts at 0; at an
    invisible element of the slice it stays; at a visible child that is
    not a spacer it advances by the padding plus the size along the axis
    that the child ends with; and such a child, when it does not occur
    again later in the slice, ends at the position the cursor had when the
    loop met it.  (The second loop reads [MinSize] of the child again,
    after the first loop resized it; what an object answers to [Visible],
    [MinSize], [GrowFactor] and the spacer methods does not depend on its
    position and size, as everywhere in this development, so both loops
    read the same minimum.  For an object whose minimum changes when it
    is resized the cursor advances by the minimum read in the second
    loop.) *)
Theorem children_are_laid_end_to_end
    (v : vBoxLayout.t F) (g : hBoxLayout.t F) (objects : list handle)
    sz w (n : nat) child :
  nth_error objects n = Some child ->
  (vBoxLayout.y (v_place_upto v objects sz w 0) = of_int 0 /\
   (Visible (heap w child) = false ->
    vBoxLayout.y (v_place_upto v objects sz w (S n))
    = vBoxLayout.y (v_place_upto v objects sz w n)) /\
   (Visible (heap w child) = true ->
    isVerticalSpacer (heap w child) = false ->
    vBoxLayout.y (v_place_upto v objects sz w (S n))
    = (vBoxLayout.y (v_place_upto v objects sz w n)
       + (vBoxLayout.paddingFunc v tt
          + Height (size (heap (vBoxLayout.Layout v objects sz w) child))))%f32
    /\
    (~ In child (skipn (S n) objects) ->
     position (heap (vBoxLayout.Layout v objects sz w) child)
     = NewPos (of_int 0) (vBoxLayout.y (v_place_upto v objects sz w n))))) /\
  (hBoxLayout.x (h_place_upto g objects sz w 0) = of_int 0 /\
   (Visible (heap w child) = false ->
    hBoxLayout.x (h_place_upto g objects sz w (S n))
    = hBoxLayout.x (h_place_upto g objects sz w n)) /\
   (Visible (heap w child) = true ->
    isHorizontalSpacer (heap w child) = false ->
    hBoxLayout.x (h_place_upto g objects sz w (S n))
    = (hBoxLayout.x (h_place_upto g objects sz w n)
       + (hBoxLayout.paddingFunc g tt
          + Width (size (heap (hBoxLayout.Layout g objects sz w) child))))%f32
    /\
    (~ In child (skipn (S n) objects) ->
     position (heap (hBoxLayout.Layout g objects sz w) child)
     = NewPos (hBoxLayout.x (h_place_upto g objects sz w n)) (of_int 0)))).
Proof.
  intro e; split; (split; [reflexivity|]); split.
  - intro inv; now rewrite (@v_invisible_stays _ _ v objects sz w n child e inv).
  - intros vis ns.
    assert (lo : laid_out (v_kind_of (heap w child)) = true)
      by now apply v_kind_laid_out.
    split; [now apply v_laid_out_advances|].
    intro last.
    rewrite (@v_Layout_position _ _ v objects sz w n child e last lo).
    now rewrite v_place_upto_x.
  - intro inv; now rewrite (@h_invisible_stays _ _ g objects sz w n child e inv).
  - intros vis ns.
    assert (lo : laid_out (h_kind_of (heap w child)) = true)
      by now apply h_kind_laid_out.
    split; [now apply h_laid_out_advances|].
    intro last.
    rewrite (@h_Layout_position _ _ g objects sz w n child e last lo).
    now rewrite h_place_upto_y.
Qed.

Lemma v_measure_nothing sz w l :
  (forall c, In c l -> laid_out (v_kind_of (heap w c)) = false) ->
  vBoxLayout.measured (vBoxLayout.measure_all l sz w) = w.
Proof.
  intro none; unfold vBoxLayout.measure_all.
  apply fold_left_invariant_in
    with (P := fun acc => vBoxLayout.measured acc = w); auto.
  intros a b i e; rewrite v_measure_child_kind, e.
  specialize (none b i).
  destruct (v_kind_of (heap w b)); try discriminate; auto.
Qed.

Lemma h_measure_nothing sz w l :
  (forall c, In c l -> laid_out (h_kind_of (heap w c)) = false) ->
  hBoxLayout.measured (hBoxLayout.measure_all l sz w) = w.
Proof.
  intro none; unfold hBoxLayout.measure_all.
  apply fold_left_invariant_in
    with (P := fun acc => hBoxLayout.measured acc = w); auto.
  intros a b i e; rewrite h_measure_child_kind, e.
  specialize (none b i).
  destruct (h_kind_of (heap w b)); try discriminate; auto.
Qed.

Lemma mins_nothing (ks : list (kind F)) :
  (forall k, In k ks -> laid_out k = false) -> mins ks = [].
Proof.
  induction ks as [|k ks IH]; intro none; simpl; auto.
  rewrite IH; [|intros; apply none; simpl; auto].
  specialize (none k (or_introl eq_refl)).
  destruct k; try discriminate; reflexivity.
Qed.

(** X4: when the slice holds no visible child other than spacers (the
    empty slice included), [Layout] makes no call and returns the world as
    it was; the first loop counts no object, so [extra] is computed with
    [-1] padding gaps. *)
Theorem Layout_with_nothing_to_lay_out
    (v : vBoxLayout.t F) (g : hBoxLayout.t F) (objects : list handle) sz w :
  ((forall c, In c objects ->
      Visible (heap w c) = false \/ isVerticalSpacer (heap w c) = true) ->
   vBoxLayout.Layout v objects sz w = w /\
   vBoxLayout.extra v objects sz w
   = (Height sz - of_int 0 - vBoxLayout.paddingFunc v tt * of_int (-1))%f32) /\
  ((forall c, In c objects ->
      Visible (heap w c) = false \/ isHorizontalSpacer (heap w c) = true) ->
   hBoxLayout.Layout g objects sz w = w /\
   hBoxLayout.extra g objects sz w
   = (Width sz - of_int 0 - hBoxLayout.paddingFunc g tt * of_int (-1))%f32).
Proof.
  split; intro none.
  - assert (nk : forall c, In c objects ->
                   laid_out (v_kind_of (heap w c)) = false).
    { intros c i; destruct (laid_out (v_kind_of (heap w c))) eqn:lo; auto.
      apply v_kind_laid_out in lo; destruct lo, (none c i); congruence. }
    split.
    + unfold vBoxLayout.Layout, vBoxLayout.place_all.
      apply fold_left_invariant_in
        with (P := fun st => vBoxLayout.placed st = w).
      * intros a b i e; rewrite v_place_child_kind, e.
        specialize (nk b i).
        destruct (v_kind_of (heap w b)); try discriminate; auto.
      * now apply v_measure_nothing.
    + rewrite v_extra_spec; unfold spec_extra.
      rewrite mins_nothing; [reflexivity|].
      intros k ik; apply in_map_iff in ik as (c & <- & i); now apply nk.
  - assert (nk : forall c, In c objects ->
                   laid_out (h_kind_of (heap w c)) = false).
    { intros c i; destruct (laid_out (h_kind_of (heap w c))) eqn:lo; auto.
      apply h_kind_laid_out in lo; destruct lo, (none c i); congruence. }
    split.
    + unfold hBoxLayout.Layout, hBoxLayout.place_all.
      apply fold_left_invariant_in
        with (P := fun st => hBoxLayout.placed st = w).
      * intros a b i e; rewrite h_place_child_kind, e.
        specialize (nk b i).
        destruct (h_kind_of (heap w b)); try discriminate; auto.
      * now apply h_measure_nothing.
    + rewrite h_extra_spec; unfold spec_extra.
      rewrite mins_nothing; [reflexivity|].
      intros k ik; apply in_map_iff in ik as (c & <- & i); now apply nk.
Qed.
End PlacementTheorems.

(** ** Laying out twice *)

Section Idempotence.
Context {F : Type} `{Float32Ops F}.
Implicit Types (w : World F) (h child : handle) (sz : Size F).

Lemma object_ext (o1 o2 : CanvasObject F) :
  Visible o1 = Visible o2 -> MinSize o1 = MinSize o2 ->
  asGrowable o1 = asGrowable o2 -> asSpacerObject o1 = asSpacerObject o2 ->
  position o1 = position o2 -> size o1 = size o2 -> o1 = o2.
Proof.
  destruct o1, o2; simpl; intros; congruence.
Qed.

Lemma same_observers_transpose w w' :
  same_observers w w' ->
  same_observers (transposeWorld w) (transposeWorld w').
Proof.
  intros (e1 & e2 & e3 & e4); repeat split; intro h; simpl;
    now rewrite ?e1, ?e2, ?e3, ?e4.
Qed.

Lemma v_hPerFactor_same v objects sz w w' :
  same_observers w' w ->
  vBoxLayout.hPerFactor v objects sz w' = vBoxLayout.hPerFactor v objects sz w.
Proof. intro e; now rewrite !v_hPerFactor_spec, (v_kinds_same objects e). Qed.

Lemma v_spacerSize_same v objects sz w w' :
  same_observers w' w ->
  vBoxLayout.spacerSize v objects sz w' = vBoxLayout.spacerSize v objects sz w.
Proof. intro e; now rewrite !v_spacerSize_spec, (v_kinds_same objects e). Qed.

(** The cursor depends on the answers of the objects only, not on where
    they are or how large. *)
Lemma v_place_upto_same_cursor v objects sz w w' n :
  same_observers w' w ->
  vBoxLayout.x (v_place_upto v objects sz w' n)
  = vBoxLayout.x (v_place_upto v objects sz w n) /\
  vBoxLayout.y (v_place_upto v objects sz w' n)
  = vBoxLayout.y (v_place_upto v objects sz w n).
Proof.
  intro e; unfold v_place_upto.
  rewrite (v_hPerFactor_same v objects sz e), (v_spacerSize_same v objects sz e).
  set (f := vBoxLayout.place_child sz (vBoxLayout.paddingFunc v tt)
              (vBoxLayout.hPerFactor v objects sz w)
              (vBoxLayout.spacerSize v objects sz w)).
  assert (R : forall l (s' s : vBoxLayout.place F),
             vBoxLayout.x s' = vBoxLayout.x s ->
             vBoxLayout.y s' = vBoxLayout.y s ->
             same_observers (vBoxLayout.placed s') w ->
             same_observers (vBoxLayout.placed s) w ->
             vBoxLayout.x (fold_left f l s') = vBoxLayout.x (fold_left f l s) /\
             vBoxLayout.y (fold_left f l s') = vBoxLayout.y (fold_left f l s)).
  { induction l as [|b l IH]; intros s' s ex ey o' o; simpl; auto.
    apply IH; unfold f;
      try (now apply v_place_child_observers);
      rewrite !v_place_child_kind,
        (v_kind_of_same b o'), (v_kind_of_same b o);
      destruct (v_kind_of (heap w b)); simpl; now rewrite ?ex, ?ey. }
  apply R; simpl; auto.
  - destruct (v_measure_all_spec objects sz w') as (ev & _).
    eapply same_observers_trans; [exact (ev_observers ev) | exact e].
  - destruct (v_measure_all_spec objects sz w) as (ev & _).
    exact (ev_observers ev).
Qed.

Lemma v_Layout_idempotent v objects sz w h :
  heap (vBoxLayout.Layout v objects sz (vBoxLayout.Layout v objects sz w)) h
  = heap (vBoxLayout.Layout v objects sz w) h.
Proof.
  set (w1 := vBoxLayout.Layout v objects sz w).
  pose proof (v_Layout_evolves v objects sz w) as ev; fold w1 in ev.
  pose proof (v_Layout_evolves v objects sz w1) as ev1.
  pose proof (ev_observers ev) as o1.
  destruct (in_dec Nat.eq_dec h objects) as [i|ni];
    [destruct (laid_out (v_kind_of (heap w1 h))) eqn:lo1|].
  - assert (lo : laid_out (v_kind_of (heap w h)) = true)
      by now rewrite <- (v_kind_of_same h o1).
    destruct (ev_observers ev1) as (a1 & a2 & a3 & a4).
    apply object_ext; auto.
    + destruct (in_last_occurrence objects h i) as (n & e & last).
      rewrite (@v_Layout_position _ _ v objects sz w1 n h e last lo1).
      unfold w1 at 3.
      rewrite (@v_Layout_position _ _ v objects sz w n h e last lo).
      destruct (v_place_upto_same_cursor v objects sz n o1) as [ex ey].
      now rewrite ex, ey.
    + rewrite (@v_Layout_size _ _ v objects sz w1 h i lo1).
      unfold w1 at 3.
      rewrite (@v_Layout_size _ _ v objects sz w h i lo).
      now rewrite (v_hPerFactor_same v objects sz o1), (v_kind_of_same h o1).
  - apply (ev_frame ev1); intros [_ lo']; congruence.
  - apply (ev_frame ev1); intros [i' _]; contradiction.
Qed.

Lemma h_wPerFactor_same g objects sz w w' :
  same_observers w' w ->
  hBoxLayout.wPerFactor g objects sz w' = hBoxLayout.wPerFactor g objects sz w.
Proof. intro e; now rewrite !h_wPerFactor_spec, (h_kinds_same objects e). Qed.

Lemma h_place_upto_same_cursor g objects sz w w' n :
  same_observers w' w ->
  hBoxLayout.x (h_place_upto g objects sz w' n)
  = hBoxLayout.x (h_place_upto g objects sz w n) /\
  hBoxLayout.y (h_place_upto g objects sz w' n)
  = hBoxLayout.y (h_place_upto g objects sz w n).
Proof.
  intro e.
  destruct (place_upto_mirrors g objects sz w' n) as (x' & y' & _).
  destruct (place_upto_mirrors g objects sz w n) as (x0 & y0 & _).
  destruct (v_place_upto_same_cursor (mirrored g) objects (transposeSize sz) n
              (same_observers_transpose e)) as [ex ey].
  rewrite x', y', x0, y0; now split.
Qed.

Lemma h_Layout_idempotent g objects sz w h :
  heap (hBoxLayout.Layout g objects sz (hBoxLayout.Layout g objects sz w)) h
  = heap (hBoxLayout.Layout g objects sz w) h.
Proof.
  set (w1 := hBoxLayout.Layout g objects sz w).
  pose proof (h_Layout_evolves g objects sz w) as ev; fold w1 in ev.
  pose proof (h_Layout_evolves g objects sz w1) as ev1.
  pose proof (ev_observers ev) as o1.
  destruct (in_dec Nat.eq_dec h objects) as [i|ni];
    [destruct (laid_out (h_kind_of (heap w1 h))) eqn:lo1|].
  - assert (lo : laid_out (h_kind_of (heap w h)) = true)
      by now rewrite <- (h_kind_of_same h o1).
    destruct (ev_observers ev1) as (a1 & a2 & a3 & a4).
    apply object_ext; auto.
    + destruct (in_last_occurrence objects h i) as (n & e & last).
      rewrite (@h_Layout_position _ _ g objects sz w1 n h e last lo1).
      unfold w1 at 3.
      rewrite (@h_Layout_position _ _ g objects sz w n h e last lo).
      destruct (h_place_upto_same_cursor g objects sz n o1) as [ex ey].
      now rewrite ex, ey.
    + rewrite (@h_Layout_size _ _ g objects sz w1 h i lo1).
      unfold w1 at 3.
      rewrite (@h_Layout_size _ _ g objects sz w h i lo).
      now rewrite (h_wPerFactor_same g objects sz o1), (h_kind_of_same h o1).
  - apply (ev_frame ev1); intros [_ lo']; congruence.
  - apply (ev_frame ev1); intros [i' _]; contradiction.
Qed.

(** X5: laying out again, with the same slice and container size, leaves
    every object as the first [Layout] left it: the calls of the second
    run set the positions and sizes that are already there.  (What an
    object answers to [Visible], [MinSize], [GrowFactor] and the spacer
    methods does not depend on its position and size, as everywhere in
    this development.) *)
Theorem Layout_is_idempotent
    (v : vBoxLayout.t F) (g : hBoxLayout.t F) (objects : list handle) sz w :
  (forall h,
     heap (vBoxLayout.Layout v objects sz (vBoxLayout.Layout v objects sz w)) h
     = heap (vBoxLayout.Layout v objects sz w) h) /\
  (forall h,
     heap (hBoxLayout.Layout g objects sz (hBoxLayout.Layout g objects sz w)) h
     = heap (hBoxLayout.Layout g objects sz w) h).
Proof.
  split; intro h; [apply v_Layout_idempotent | apply h_Layout_idempotent].
Qed.
End Idempotence.

(** ** How many calls a layout makes *)

From Stdlib Require Import Permutation.

Section CallCounts.
Context {F : Type} `{Float32Ops F}.
Implicit Types (w : World F) (h child : handle) (sz : Size F).

Definition is_Move (c : Call F) : bool :=
  match c with CallMove _ _ => true | CallResize _ _ => false end.

Definition is_Resize (c : Call F) : bool :=
  match c with CallMove _ _ => false | CallResize _ _ => true end.

(** The number of [Move] calls and of [Resize] calls in a log. *)
Definition moves (cs : list (Call F)) : nat := length (filter is_Move cs).
Definition resizes (cs : list (Call F)) : nat := length (filter is_Resize cs).

(** The objects that the [Move] calls of a log are made on, in the order
    of the calls, and the same for its [Resize] calls. *)
Definition moved (cs : list (Call F)) : list handle :=
  map (@target F) (filter is_Move cs).
Definition resized (cs : list (Call F)) : list handle :=
  map (@target F) (filter is_Resize cs).

(** Whether the type assertion to [fyne.Growable] succeeds. *)
Definition is_growable (o : CanvasObject F) : bool :=
  match asGrowable o with Some _ => true | None => false end.

(** The elements of the slice that are laid out and are not growable, and
    those that are growable, in the order of the slice. *)
Definition v_ordinary w (objects : list handle) : list handle :=
  filter (fun c => negb (is_growable (heap w c))) (v_laid w objects).
Definition v_growable w (objects : list handle) : list handle :=
  filter (fun c => is_growable (heap w c)) (v_laid w objects).
Definition h_ordinary w (objects : list handle) : list handle :=
  filter (fun c => negb (is_growable (heap w c))) (h_laid w objects).
Definition h_growable w (objects : list handle) : list handle :=
  filter (fun c => is_growable (heap w c)) (h_laid w objects).

(** The log of [w'] is the log of [w] followed by calls of [Move] on the
    objects [ms] and calls of [Resize] on the objects [rs]. *)
Definition calls_to (ms rs : list handle) w w' : Prop :=
  exists cs, calls w' = calls w ++ cs /\ moved cs = ms /\ resized cs = rs.

Lemma calls_to_refl w : calls_to [] [] w w.
Proof. exists []; now rewrite app_nil_r. Qed.

Lemma calls_to_trans m1 r1 m2 r2 w1 w2 w3 :
  calls_to m1 r1 w1 w2 -> calls_to m2 r2 w2 w3 ->
  calls_to (m1 ++ m2) (r1 ++ r2) w1 w3.
Proof.
  intros (cs & e & em & er) (cs' & e' & em' & er').
  exists (cs ++ cs'); unfold moved, resized in *.
  rewrite e', e, app_assoc, !filter_app, !map_app.
  now rewrite em, em', er, er'.
Qed.

Lemma calls_to_Move child p w : calls_to [child] [] w (Move child p w).
Proof. now exists [CallMove child p]. Qed.

Lemma calls_to_Resize child s w : calls_to [] [child] w (Resize child s w).
Proof. now exists [CallResize child s]. Qed.

Lemma length_v_laid w objects :
  length (v_laid w objects) = length (mins (v_kinds w objects)).
Proof. now rewrite mins_v_kinds, length_map. Qed.

Lemma length_h_laid w objects :
  length (h_laid w objects) = length (mins (h_kinds w objects)).
Proof. now rewrite mins_h_kinds, length_map. Qed.

(** The first loop resizes each child it lays out that is not growable,
    once, in the order of the slice, and moves nothing. *)
Lemma v_measure_fold_calls sz w l :
  forall acc, same_observers (vBoxLayout.measured acc) w ->
  calls_to [] (v_ordinary w l) (vBoxLayout.measured acc)
    (vBoxLayout.measured (fold_left (vBoxLayout.measure_child sz) l acc)).
Proof.
  induction l as [|b l IH]; intros acc o; cbn [fold_left].
  - apply calls_to_refl.
  - specialize (IH (vBoxLayout.measure_child sz acc b)
                  (@v_measure_child_observers _ _ sz w acc b o)).
    rewrite v_measure_child_kind, (v_kind_of_same b o) in IH |- *.
    unfold v_ordinary, v_laid, is_growable, v_kind_of in *.
    cbn [filter].
    destruct (Visible (heap w b)), (isVerticalSpacer (heap w b)),
      (asGrowable (heap w b)) eqn:G;
      cbn [laid_out filter negb vBoxLayout.measured] in *;
      rewrite ?G; cbn [laid_out filter negb vBoxLayout.measured] in *; auto.
    apply (calls_to_trans (calls_to_Resize _ _ _) IH).
Qed.

(** The second loop moves each child it lays out, once, and resizes each
    growable one, once, in the order of the slice. *)
Lemma v_place_fold_calls sz padding per sp w l :
  forall st, same_observers (vBoxLayout.placed st) w ->
  calls_to (v_laid w l) (v_growable w l) (vBoxLayout.placed st)
    (vBoxLayout.placed
       (fold_left (vBoxLayout.place_child sz padding per sp) l st)).
Proof.
  induction l as [|b l IH]; intros st o; cbn [fold_left].
  - apply calls_to_refl.
  - specialize (IH (vBoxLayout.place_child sz padding per sp st b)
                  (@v_place_child_observers _ _ sz padding per sp w st b o)).
    rewrite v_place_child_kind, (v_kind_of_same b o) in IH |- *.
    unfold v_growable, v_laid, is_growable, v_kind_of in *.
    cbn [filter].
    destruct (Visible (heap w b)), (isVerticalSpacer (heap w b)),
      (asGrowable (heap w b)) eqn:G;
      cbn [laid_out filter negb vBoxLayout.placed] in *;
      rewrite ?G; cbn [laid_out filter negb vBoxLayout.placed] in *; auto.
    + apply (calls_to_trans
               (calls_to_trans (calls_to_Move _ _ _)
                  (calls_to_Resize _ _ _)) IH).
    + apply (calls_to_trans (calls_to_Move _ _ _) IH).
Qed.

Lemma v_Layout_calls_to v objects sz w :
  calls_to (v_laid w objects) (v_ordinary w objects ++ v_growable w objects)
    w (vBoxLayout.Layout v objects sz w).
Proof.
  destruct (v_measure_all_spec objects sz w) as (ev & _).
  pose proof (@v_measure_fold_calls sz w objects
                {| vBoxLayout.spacers := 0; vBoxLayout.visibleObjects := 0;
                   vBoxLayout.totalMinHights := of_int 0;
                   vBoxLayout.growFactors := of_int 0;
                   vBoxLayout.measured := w |} (same_observers_refl w))
    as c1.
  change (calls_to [] (v_ordinary w objects) w
            (vBoxLayout.measured (vBoxLayout.measure_all objects sz w)))
    in c1.
  pose proof (@v_place_fold_calls sz (vBoxLayout.paddingFunc v tt)
                (vBoxLayout.hPerFactor v objects sz w)
                (vBoxLayout.spacerSize v objects sz w) w objects
                {| vBoxLayout.x := of_int 0; vBoxLayout.y := of_int 0;
                   vBoxLayout.placed :=
                     vBoxLayout.measured
                       (vBoxLayout.measure_all objects sz w) |}
                (ev_observers ev)) as c2.
  change (calls_to (v_laid w objects) (v_growable w objects)
            (vBoxLayout.measured (vBoxLayout.measure_all objects sz w))
            (vBoxLayout.Layout v objects sz w)) in c2.
  exact (calls_to_trans c1 c2).
Qed.

Lemma is_Move_transpose (c : Call F) : is_Move (transposeCall c) = is_Move c.
Proof. now destruct c. Qed.

Lemma is_Resize_transpose (c : Call F) :
  is_Resize (transposeCall c) = is_Resize c.
Proof. now destruct c. Qed.

Lemma filter_map_transpose (p : Call F -> bool) cs :
  (forall c, p (transposeCall c) = p c) ->
  map (@target F) (filter p (map (@transposeCall F) cs))
  = map (@target F) (filter p cs).
Proof.
  intro e; induction cs as [|c cs IH]; simpl; auto.
  rewrite e; destruct (p c); simpl; rewrite IH; auto.
  now rewrite target_transposeCall.
Qed.

Lemma h_Layout_calls_to g objects sz w :
  calls_to (h_laid w objects) (h_ordinary w objects ++ h_growable w objects)
    w (hBoxLayout.Layout g objects sz w).
Proof.
  destruct (v_Layout_calls_to (mirrored g) objects (transposeSize sz)
              (transposeWorld w)) as (cs & e & em & er).
  destruct (h_Layout_mirror g objects sz w) as [_ ec].
  unfold v_ordinary, v_growable in er.
  rewrite v_laid_transpose in em, er.
  exists (map (@transposeCall F) cs); split; [|split].
  - rewrite ec; simpl; rewrite e; simpl.
    rewrite map_app, map_map; f_equal.
    erewrite map_ext; [apply map_id|]; apply transposeCall_involutive.
  - unfold moved in *; rewrite filter_map_transpose; auto.
    apply is_Move_transpose.
  - unfold resized in *; rewrite filter_map_transpose; auto.
    apply is_Resize_transpose.
Qed.

(** A list is, up to the order, its elements that fail a test followed by
    those that pass it. *)
Lemma filter_partition_permutation (A : Type) (p : A -> bool) (l : list A) :
  Permutation (filter (fun a => negb (p a)) l ++ filter p l) l.
Proof.
  induction l as [|a l IH]; simpl; [constructor|].
  destruct (p a); simpl.
  - apply Permutation_sym, Permutation_cons_app, Permutation_sym, IH.
  - now constructor.
Qed.

Lemma length_calls (cs : list (Call F)) :
  length cs = (moves cs + resizes cs)%nat.
Proof.
  unfold moves, resizes; induction cs as [|[? ?|? ?] cs IH]; simpl; lia.
Qed.

(** X6: [Layout] keeps the log it finds and adds to it exactly one [Move]
    and one [Resize] for each element of the slice that is a visible
    child and not a spacer, and nothing else.  The [Move] calls are made
    on these elements in the order of the slice.  The [Resize] calls are
    made first on those that are not growable, in the order of the slice
    (first loop), then on the growable ones, in the order of the slice
    (second loop): on each element laid out once. *)
Theorem Layout_calls_once_per_child
    (v : vBoxLayout.t F) (g : hBoxLayout.t F) (objects : list handle) sz w :
  ((forall c, In c (v_laid w objects) <->
      In c objects /\ Visible (heap w c) = true /\
      isVerticalSpacer (heap w c) = false) /\
   exists cs,
     calls (vBoxLayout.Layout v objects sz w) = calls w ++ cs /\
     moved cs = v_laid w objects /\
     resized cs
     = filter (fun c => negb (is_growable (heap w c))) (v_laid w objects)
       ++ filter (fun c => is_growable (heap w c)) (v_laid w objects) /\
     Permutation (resized cs) (v_laid w objects) /\
     moves cs = length (v_laid w objects) /\
     resizes cs = length (v_laid w objects) /\
     length cs = (2 * length (v_laid w objects))%nat) /\
  ((forall c, In c (h_laid w objects) <->
      In c objects /\ Visible (heap w c) = true /\
      isHorizontalSpacer (heap w c) = false) /\
   exists cs,
     calls (hBoxLayout.Layout g objects sz w) = calls w ++ cs /\
     moved cs = h_laid w objects /\
     resized cs
     = filter (fun c => negb (is_growable (heap w c))) (h_laid w objects)
       ++ filter (fun c => is_growable (heap w c)) (h_laid w objects) /\
     Permutation (resized cs) (h_laid w objects) /\
     moves cs = length (h_laid w objects) /\
     resizes cs = length (h_laid w objects) /\
     length cs = (2 * length (h_laid w objects))%nat).
Proof.
  assert (counts : forall (cs : list (Call F)) (l : list handle),
            moved cs = l ->
            resized cs
            = filter (fun c => negb (is_growable (heap w c))) l
              ++ filter (fun c => is_growable (heap w c)) l ->
            Permutation (resized cs) l /\ moves cs = length l /\
            resizes cs = length l /\ length cs = (2 * length l)%nat).
  { intros cs l em er.
    assert (pr : Permutation (resized cs) l)
      by (rewrite er; apply filter_partition_permutation).
    assert (lm : moves cs = length l)
      by (rewrite <- em; unfold moves, moved; now rewrite length_map).
    assert (lr : resizes cs = length l).
    { rewrite <- (Permutation_length pr); unfold resizes, resized.
      now rewrite length_map. }
    rewrite (length_calls cs), lm, lr; repeat split; auto; lia. }
  split; split.
  - intro c; unfold v_laid; rewrite filter_In, v_kind_laid_out; tauto.
  - destruct (v_Layout_calls_to v objects sz w) as (cs & e & em & er).
    exists cs; split; [exact e|]; split; [exact em|]; split; [exact er|].
    now apply counts.
  - intro c; unfold h_laid; rewrite filter_In, h_kind_laid_out; tauto.
  - destruct (h_Layout_calls_to g objects sz w) as (cs & e & em & er).
    exists cs; split; [exact e|]; split; [exact em|]; split; [exact er|].
    now apply counts.
Qed.
End CallCounts.

(** ** Where the cursor ends *)

Section CursorEnd.
Context {F : Type} `{Float32Ops F}.
Implicit Types (w : World F) (h child : handle) (sz : Size F).

(** What the second loop adds to the cursor, element by element. *)
Definition advances (padding per sp : F) (ks : list (kind F)) : list F :=
  flat_map (fun k => match k with
                     | Skipped => []
                     | IsSpacer => [sp]
                     | Ordinary m => [(padding + m)%f32]
                     | Grows m g => [(padding + (m + per * g * m))%f32]
                     end) ks.

Lemma v_place_fold_y sz padding per sp w l :
  forall st, same_observers (vBoxLayout.placed st) w ->
  vBoxLayout.y (fold_left (vBoxLayout.place_child sz padding per sp) l st)
  = fold_left fadd (advances padding per sp (v_kinds w l)) (vBoxLayout.y st).
Proof.
  induction l as [|b l IH]; intros st o; cbn [fold_left]; auto.
  rewrite IH; [|now apply v_place_child_observers].
  rewrite v_place_child_kind, (v_kind_of_same b o).
  unfold advances; cbn [v_kinds map flat_map]; rewrite fold_left_app.
  now destruct (v_kind_of (heap w b)).
Qed.

Lemma v_place_all_y v objects sz w :
  vBoxLayout.y (vBoxLayout.place_all v objects sz w)
  = fold_left fadd
      (advances (vBoxLayout.paddingFunc v tt)
         (vBoxLayout.hPerFactor v objects sz w)
         (vBoxLayout.spacerSize v objects sz w) (v_kinds w objects))
      (of_int 0).
Proof.
  unfold vBoxLayout.place_all; rewrite v_place_fold_y with (w := w); auto.
  destruct (v_measure_all_spec objects sz w) as (ev & _).
  exact (ev_observers ev).
Qed.
End CursorEnd.

Section CursorEndExact.
Open Scope Qc_scope.
Implicit Types (w : World exact) (h child : handle) (sz : Size exact).

Lemma exact_of_nat_succ (n : nat) :
  (of_int (Z.of_nat (S n)) : exact) = of_int (Z.of_nat n) + 1.
Proof. rewrite Nat2Z.inj_succ; apply exact_of_int_succ. Qed.

Lemma exact_of_int_pred (z : Z) : (of_int (z - 1) : exact) = of_int z - 1.
Proof.
  assert (e : (of_int z : exact) = of_int (z - 1) + 1)
    by (rewrite <- exact_of_int_succ; f_equal; lia).
  rewrite e; ring.
Qed.

(** The sum of the advances, when every growable child laid out has a
    minimum of at least 1. *)
Lemma exact_advances_sum (padding per sp : exact) ks :
  (forall m g, In (Grows m g) ks -> 1 <= m) ->
  forall y0,
  fold_left fadd (advances padding per sp ks) y0
  = y0 + total (mins ks) + padding * of_int (Z.of_nat (length (mins ks)))
    + sp * of_int (Z.of_nat (count_spacers ks)) + per * total (weights ks).
Proof.
  unfold count_spacers.
  induction ks as [|k ks IH]; intros big y0.
  - cbn [advances flat_map fold_left mins weights filter length].
    unfold total; cbn [fold_left].
    change (of_int (Z.of_nat 0) : exact) with 0.
    change (of_int 0 : exact) with 0; ring.
  - assert (big' : forall m g, In (Grows m g) ks -> 1 <= m)
      by (intros; eapply big; simpl; eauto).
    unfold advances; cbn [flat_map]; rewrite fold_left_app.
    fold (advances padding per sp ks); rewrite (IH big').
    destruct k as [| |m|m g];
      cbn [fold_left mins weights flat_map app filter is_spacer length];
      fold (mins ks); fold (weights ks);
      rewrite ?exact_total_cons, ?exact_of_nat_succ;
      try (cbn [fadd fmul exact_ops]; ring).
    rewrite (exact_floor1 (big m g (or_introl eq_refl))).
    cbn [fadd fmul exact_ops]; ring.
Qed.

(** In terms of the kinds: where the cursor ends. *)
Lemma exact_cursor_end (container padding : exact) ks :
  (forall m g, In (Grows m g) ks -> 1 <= m) ->
  let extra := spec_extra container padding ks in
  fold_left fadd
    (advances padding (spec_perWeightUnit container padding ks)
       (spec_perSpacer container padding ks) ks) (of_int 0)
  = container + padding - extra
    + (if (0 <? Z.of_nat (count_spacers ks))%Z then extra else 0)
    + (if (of_int 0 <? total (weights ks))%f32 then extra else 0).
Proof.
  intros big extra; rewrite (@exact_advances_sum _ _ _ ks big).
  assert (ee : total (mins ks)
               + padding * of_int (Z.of_nat (length (mins ks)))
               = container + padding - extra).
  { unfold extra, spec_extra; cbn [fsub fmul exact_ops].
    rewrite exact_of_int_pred; ring. }
  assert (es : spec_perSpacer container padding ks
               * of_int (Z.of_nat (count_spacers ks))
               = if (0 <? Z.of_nat (count_spacers ks))%Z then extra else 0).
  { unfold spec_perSpacer; fold extra.
    destruct (0 <? Z.of_nat (count_spacers ks))%Z eqn:e.
    - apply Z.ltb_lt, exact_of_int_pos in e.
      cbn [fdiv exact_ops]; field.
      intro z; apply Qclt_not_eq in e; apply e; now rewrite z.
    - change (of_int 0 : exact) with 0; ring. }
  assert (ep : spec_perWeightUnit container padding ks * total (weights ks)
               = if (of_int 0 <? total (weights ks))%f32 then extra else 0).
  { unfold spec_perWeightUnit; fold extra.
    destruct (of_int 0 <? total (weights ks))%f32 eqn:e.
    - apply exact_lt_true in e.
      cbn [fdiv exact_ops]; field.
      intro z; apply Qclt_not_eq in e; apply e; now rewrite z.
    - change (of_int 0 : exact) with 0; ring. }
  rewrite <- es, <- ep, <- ee; change (of_int 0 : exact) with 0; ring.
Qed.

(** X7: where the cursor ends, when every growable child laid out has a
    minimum of at least 1 along the axis.  Without a visible spacer and
    without weight the content keeps its minimum and the cursor ends at
    [container + padding - extra]; with only spacers, or only weight,
    [extra] is handed out once and the cursor ends at [container +
    padding], one padding past the container's end; with both, [extra] is
    handed out twice and the cursor ends at [container + padding +
    extra].  (Both loops read the same minimum of a child: what an object
    answers to [Visible], [MinSize], [GrowFactor] and the spacer methods
    does not depend on its position and size, as everywhere in this
    development.) *)
Theorem cursor_ends_past_the_content
    (v : vBoxLayout.t exact) (g : hBoxLayout.t exact)
    (objects : list handle) sz w :
  ((forall c m gf, In c objects ->
      v_kind_of (heap w c) = Grows m gf -> 1 <= m) ->
   let extra := vBoxLayout.extra v objects sz w in
   let m := vBoxLayout.measure_all objects sz w in
   vBoxLayout.y (vBoxLayout.place_all v objects sz w)
   = Height sz + vBoxLayout.paddingFunc v tt - extra
     + (if (0 <? vBoxLayout.spacers m)%Z then extra else 0)
     + (if (of_int 0 <? vBoxLayout.growFactors m)%f32 then extra else 0)) /\
  ((forall c m gf, In c objects ->
      h_kind_of (heap w c) = Grows m gf -> 1 <= m) ->
   let extra := hBoxLayout.extra g objects sz w in
   let m := hBoxLayout.measure_all objects sz w in
   hBoxLayout.x (hBoxLayout.place_all g objects sz w)
   = Width sz + hBoxLayout.paddingFunc g tt - extra
     + (if (0 <? hBoxLayout.spacers m)%Z then extra else 0)
     + (if (of_int 0 <? hBoxLayout.growFactors m)%f32 then extra else 0)).
Proof.
  assert (V : forall (v : vBoxLayout.t exact) sz w,
            (forall c m gf, In c objects ->
               v_kind_of (heap w c) = Grows m gf -> 1 <= m) ->
            vBoxLayout.y (vBoxLayout.place_all v objects sz w)
            = Height sz + vBoxLayout.paddingFunc v tt
              - vBoxLayout.extra v objects sz w
              + (if (0 <? vBoxLayout.spacers
                            (vBoxLayout.measure_all objects sz w))%Z
                 then vBoxLayout.extra v objects sz w else 0)
              + (if (of_int 0 <? vBoxLayout.growFactors
                                   (vBoxLayout.measure_all objects sz w))%f32
                 then vBoxLayout.extra v objects sz w else 0)).
  { intros v0 sz0 w0 big.
    destruct (v_measure_all_spec objects sz0 w0) as (_ & e1 & _ & _ & e4).
    rewrite v_place_all_y, v_hPerFactor_spec, v_spacerSize_spec, v_extra_spec,
      e1, e4.
    apply exact_cursor_end.
    intros m gf i; apply in_map_iff in i as (c & e & i); eauto. }
  split; intro big; [now apply V|].
  intros extra m.
  destruct (place_all_mirrors g objects sz w) as (ex & _).
  destruct (measure_all_mirrors objects sz w) as (e1 & _ & _ & e4 & _).
  unfold extra, m; rewrite ex, e1, e4, h_extra_mirror.
  apply (V (mirrored g) (transposeSize sz) (transposeWorld w)).
  intros c m' gf i; cbn [heap transposeWorld]; rewrite v_kind_of_transpose.
  now apply big.
Qed.
End CursorEndExact.

(** ** A container of exactly the minimum size *)

Section AtMinSize.
Open Scope Qc_scope.
Implicit Types (w : World exact) (h child : handle) (sz : Size exact).

(** [MinSize] along the axis, for any slice with a child laid out. *)
Lemma v_MinSize_main (v : vBoxLayout.t exact) objects w :
  mins (v_kinds w objects) <> [] ->
  Height (vBoxLayout.MinSize v objects w)
  = total (mins (v_kinds w objects))
    + vBoxLayout.paddingFunc v tt
      * of_int (Z.of_nat (length (mins (v_kinds w objects))) - 1).
Proof.
  rewrite mins_v_kinds, v_MinSize_laid; intro ne.
  assert (lo : forall c, In c (v_laid w objects) ->
                 laid_out (v_kind_of (heap w c)) = true)
    by (intros c i; now apply filter_In in i).
  destruct (v_laid w objects) as [|c l]; [now destruct ne|].
  unfold vBoxLayout.MinSize; cbn [fold_left].
  rewrite v_minsize_fold_height.
  - rewrite v_minsize_child_kind, (lo c (or_introl eq_refl)).
    cbn [vBoxLayout.minSize vBoxLayout.addPadding Height map length
         fadd exact_ops].
    rewrite exact_total_cons.
    replace (Z.of_nat (S (length (map (fun child => Height (MinSize (heap w child))) l))) - 1)%Z
      with (Z.of_nat (length l)) by (rewrite length_map; lia).
    change (of_int 0 : exact) with 0; ring.
  - intros; apply lo; simpl; auto.
  - now rewrite v_minsize_child_kind, (lo c (or_introl eq_refl)).
Qed.

Lemma h_MinSize_main (g : hBoxLayout.t exact) objects w :
  mins (h_kinds w objects) <> [] ->
  Width (hBoxLayout.MinSize g objects w)
  = total (mins (h_kinds w objects))
    + hBoxLayout.paddingFunc g tt
      * of_int (Z.of_nat (length (mins (h_kinds w objects))) - 1).
Proof.
  intro ne; rewrite h_MinSize_mirror; cbn [Width transposeSize].
  rewrite <- v_kinds_transpose in *.
  now rewrite (@v_MinSize_main (mirrored g) objects (transposeWorld w) ne).
Qed.

(** In terms of the kinds: with [extra = 0] nothing is handed out. *)
Lemma exact_no_extra (container padding : exact) ks :
  spec_extra container padding ks = 0 ->
  spec_perSpacer container padding ks = 0 /\
  spec_perWeightUnit container padding ks = 0 /\
  forall m gf,
    final_main (spec_perWeightUnit container padding ks) (Grows m gf) = m.
Proof.
  intro z.
  assert (s : spec_perSpacer container padding ks = 0).
  { unfold spec_perSpacer; rewrite z.
    destruct (0 <? Z.of_nat (count_spacers ks))%Z; [|reflexivity].
    cbn [fdiv exact_ops]; unfold Qcdiv; ring. }
  assert (p : spec_perWeightUnit container padding ks = 0).
  { unfold spec_perWeightUnit; rewrite z.
    destruct (of_int 0 <? total (weights ks))%f32; [|reflexivity].
    cbn [fdiv exact_ops]; unfold Qcdiv; ring. }
  split; [exact s|]; split; [exact p|].
  intros m gf; unfold final_main; rewrite p.
  cbn [fadd fmul exact_ops]; ring.
Qed.

Lemma exists_laid_mins (ks : list (kind exact)) :
  (exists k, In k ks /\ laid_out k = true) -> mins ks <> [].
Proof.
  intros (k & i & lo); induction ks as [|k' ks IH]; [destruct i|].
  destruct i as [->|i].
  - destruct k; try discriminate; simpl; discriminate.
  - simpl; intro e; apply app_eq_nil in e as [_ e]; now apply IH.
Qed.

(** X8: a container whose size along the axis is exactly [MinSize]'s, for
    a slice with at least one visible child that is not a spacer, leaves
    nothing to hand out: [extra] is 0, a spacer advances the cursor by 0,
    and every child laid out, growable or not, ends with its own minimum
    along the axis. *)
Theorem Layout_at_MinSize_gives_minimums
    (v : vBoxLayout.t exact) (g : hBoxLayout.t exact)
    (objects : list handle) sz w :
  ((exists c, In c objects /\ Visible (heap w c) = true /\
              isVerticalSpacer (heap w c) = false) ->
   Height sz = Height (vBoxLayout.MinSize v objects w) ->
   vBoxLayout.extra v objects sz w = 0 /\
   vBoxLayout.spacerSize v objects sz w = 0 /\
   forall child,
     In child objects -> Visible (heap w child) = true ->
     isVerticalSpacer (heap w child) = false ->
     size (heap (vBoxLayout.Layout v objects sz w) child)
     = NewSize (Width sz) (Height (MinSize (heap w child)))) /\
  ((exists c, In c objects /\ Visible (heap w c) = true /\
              isHorizontalSpacer (heap w c) = false) ->
   Width sz = Width (hBoxLayout.MinSize g objects w) ->
   hBoxLayout.extra g objects sz w = 0 /\
   hBoxLayout.spacerSize g objects sz w = 0 /\
   forall child,
     In child objects -> Visible (heap w child) = true ->
     isHorizontalSpacer (heap w child) = false ->
     size (heap (hBoxLayout.Layout g objects sz w) child)
     = NewSize (Width (MinSize (heap w child))) (Height sz)).
Proof.
  split; intros (c & i & vis & ns) e.
  - assert (ne : mins (v_kinds w objects) <> []).
    { apply exists_laid_mins; exists (v_kind_of (heap w c)); split.
      - unfold v_kinds; now apply (in_map (fun c => v_kind_of (heap w c))).
      - now apply v_kind_laid_out. }
    assert (z : spec_extra (Height sz) (vBoxLayout.paddingFunc v tt)
                  (v_kinds w objects) = 0).
    { unfold spec_extra; rewrite e, (@v_MinSize_main v objects w ne).
      cbn [fsub fmul exact_ops]; ring. }
    destruct (@exact_no_extra _ _ _ z) as (s & p & fm).
    rewrite v_extra_spec, v_spacerSize_spec.
    split; [exact z|]; split; [exact s|].
    intros child ic cvis cns.
    assert (lo : laid_out (v_kind_of (heap w child)) = true)
      by now apply v_kind_laid_out.
    rewrite (@v_Layout_size _ _ v objects sz w child ic lo), v_hPerFactor_spec.
    f_equal; unfold v_kind_of in *; rewrite cvis, cns in *; simpl in *.
    destruct (asGrowable (heap w child)); [apply fm | reflexivity].
  - assert (ne : mins (h_kinds w objects) <> []).
    { apply exists_laid_mins; exists (h_kind_of (heap w c)); split.
      - unfold h_kinds; now apply (in_map (fun c => h_kind_of (heap w c))).
      - now apply h_kind_laid_out. }
    assert (z : spec_extra (Width sz) (hBoxLayout.paddingFunc g tt)
                  (h_kinds w objects) = 0).
    { unfold spec_extra; rewrite e, (@h_MinSize_main g objects w ne).
      cbn [fsub fmul exact_ops]; ring. }
    destruct (@exact_no_extra _ _ _ z) as (s & p & fm).
    rewrite h_extra_spec, h_spacerSize_spec.
    split; [exact z|]; split; [exact s|].
    intros child ic cvis cns.
    assert (lo : laid_out (h_kind_of (heap w child)) = true)
      by now apply h_kind_laid_out.
    rewrite (@h_Layout_size _ _ g objects sz w child ic lo), h_wPerFactor_spec.
    f_equal; unfold h_kind_of in *; rewrite cvis, cns in *; simpl in *.
    destruct (asGrowable (heap w child)); [apply fm | reflexivity].
Qed.
End AtMinSize.

(** ** The total weight *)

Section WeightTheorem.
Open Scope Qc_scope.
Implicit Types (w : World exact) (h child : handle) (sz : Size exact).

Lemma v_growFactors_positive objects sz w child m gf :
  (forall c m' g', In c objects ->
     v_kind_of (heap w c) = Grows m' g' -> 0 <= g') ->
  In child objects -> v_kind_of (heap w child) = Grows m gf -> 0 < gf ->
  (of_int 0 <? vBoxLayout.growFactors (vBoxLayout.measure_all objects sz w))%f32
  = true.
Proof.
  intros nonneg i K pg.
  destruct (v_measure_all_spec objects sz w) as (_ & _ & _ & _ & e4).
  rewrite e4; apply exact_lt_true.
  apply exact_total_weight_positive.
  - intros m' g' ik; apply in_map_iff in ik as (c & e & ic); eauto.
  - exists m, gf; split; auto.
    rewrite <- K; unfold v_kinds.
    now apply (in_map (fun c => v_kind_of (heap w c))).
Qed.

(** X9: with grow factors that are not negative, one growable child laid
    out with a positive grow factor makes the total weight positive,
    whatever its minimum is (the floor of 1 covers a minimum of 0), so the
    share of a weight unit is [extra] divided by the total weight. *)
Theorem total_weight_is_positive
    (v : vBoxLayout.t exact) (g : hBoxLayout.t exact)
    (objects : list handle) sz w child (m gf : exact) :
  In child objects -> 0 < gf ->
  ((forall c m' g', In c objects ->
      v_kind_of (heap w c) = Grows m' g' -> 0 <= g') ->
   v_kind_of (heap w child) = Grows m gf ->
   0 < vBoxLayout.growFactors (vBoxLayout.measure_all objects sz w) /\
   vBoxLayout.hPerFactor v objects sz w
   = vBoxLayout.extra v objects sz w
     / vBoxLayout.growFactors (vBoxLayout.measure_all objects sz w)) /\
  ((forall c m' g', In c objects ->
      h_kind_of (heap w c) = Grows m' g' -> 0 <= g') ->
   h_kind_of (heap w child) = Grows m gf ->
   0 < hBoxLayout.growFactors (hBoxLayout.measure_all objects sz w) /\
   hBoxLayout.wPerFactor g objects sz w
   = hBoxLayout.extra g objects sz w
     / hBoxLayout.growFactors (hBoxLayout.measure_all objects sz w)).
Proof.
  intros i pg; split; intros nonneg K.
  - pose proof (@v_growFactors_positive objects sz w child m gf nonneg i K pg)
      as pos.
    split; [now apply exact_lt_true in pos|].
    unfold vBoxLayout.hPerFactor; now rewrite pos.
  - assert (pos : (of_int 0 <? hBoxLayout.growFactors
                                 (hBoxLayout.measure_all objects sz w))%f32
                  = true).
    { destruct (measure_all_mirrors objects sz w) as (_ & _ & _ & e4 & _).
      rewrite e4.
      apply (@v_growFactors_positive objects (transposeSize sz)
               (transposeWorld w) child m gf); auto.
      - intros c m' g' ic; cbn [heap transposeWorld].
        rewrite v_kind_of_transpose; now apply nonneg.
      - cbn [heap transposeWorld]; now rewrite v_kind_of_transpose. }
    split; [now apply exact_lt_true in pos|].
    unfold hBoxLayout.wPerFactor; now rewrite pos.
Qed.
End WeightTheorem.

(** ** [MinSize] of two slices put together *)

Section MinSizeAppend.
Open Scope Qc_scope.
Implicit Types (w : World exact) (h child : handle).

Lemma exact_total_app (xs ys : list exact) :
  total (xs ++ ys) = total xs + total ys.
Proof.
  induction xs as [|x xs IH]; cbn [app].
  - unfold total at 2; cbn [fold_left]; change (of_int 0 : exact) with 0; ring.
  - rewrite !exact_total_cons, IH; ring.
Qed.

Lemma v_laid_app w l1 l2 : v_laid w (l1 ++ l2) = v_laid w l1 ++ v_laid w l2.
Proof. apply filter_app. Qed.

Lemma v_laid_nil w l :
  (forall c, In c l ->
     Visible (heap w c) = false \/ isVerticalSpacer (heap w c) = true) ->
  v_laid w l = [].
Proof.
  intro none; unfold v_laid; induction l as [|c l IH]; simpl; auto.
  rewrite IH; [|intros; apply none; simpl; auto].
  destruct (laid_out (v_kind_of (heap w c))) eqn:lo; auto.
  apply v_kind_laid_out in lo.
  destruct lo, (none c (or_introl eq_refl)); congruence.
Qed.

Lemma v_laid_mins_ne w l :
  (exists c, In c l /\ Visible (heap w c) = true /\
             isVerticalSpacer (heap w c) = false) ->
  mins (v_kinds w l) <> [].
Proof.
  intros (c & i & vis & ns).
  apply exists_laid_mins; exists (v_kind_of (heap w c)); split.
  - unfold v_kinds; now apply (in_map (fun c => v_kind_of (heap w c))).
  - now apply v_kind_laid_out.
Qed.

Lemma v_kinds_app w l1 l2 : v_kinds w (l1 ++ l2) = v_kinds w l1 ++ v_kinds w l2.
Proof. apply map_app. Qed.

Lemma mins_app (ks1 ks2 : list (kind exact)) :
  mins (ks1 ++ ks2) = mins ks1 ++ mins ks2.
Proof. apply flat_map_app. Qed.

(** The vertical [MinSize] of two slices put together. *)
Lemma v_MinSize_app (v : vBoxLayout.t exact) l1 l2 w :
  is_maximum (Width (vBoxLayout.MinSize v (l1 ++ l2) w))
    [Width (vBoxLayout.MinSize v l1 w); Width (vBoxLayout.MinSize v l2 w)] /\
  ((exists c, In c l1 /\ Visible (heap w c) = true /\
              isVerticalSpacer (heap w c) = false) ->
   (exists c, In c l2 /\ Visible (heap w c) = true /\
              isVerticalSpacer (heap w c) = false) ->
   Height (vBoxLayout.MinSize v (l1 ++ l2) w)
   = Height (vBoxLayout.MinSize v l1 w) + Height (vBoxLayout.MinSize v l2 w)
     + vBoxLayout.paddingFunc v tt) /\
  ((forall c, In c l2 ->
      Visible (heap w c) = false \/ isVerticalSpacer (heap w c) = true) ->
   vBoxLayout.MinSize v (l1 ++ l2) w = vBoxLayout.MinSize v l1 w) /\
  ((forall c, In c l1 ->
      Visible (heap w c) = false \/ isVerticalSpacer (heap w c) = true) ->
   vBoxLayout.MinSize v (l1 ++ l2) w = vBoxLayout.MinSize v l2 w).
Proof.
  split; [|split; [|split]].
  - rewrite (v_MinSize_laid v (l1 ++ l2)), (v_MinSize_laid v l1),
      (v_MinSize_laid v l2), v_laid_app.
    assert (lo : forall l c, In c (v_laid w l) ->
                   laid_out (v_kind_of (heap w c)) = true)
      by (intros l c i; now apply filter_In in i).
    unfold vBoxLayout.MinSize; rewrite fold_left_app.
    set (p := vBoxLayout.paddingFunc v tt).
    set (init := {| vBoxLayout.minSize := NewSize (of_int 0) (of_int 0);
                    vBoxLayout.addPadding := false |}).
    set (a1 := fold_left (vBoxLayout.minsize_child p w) (v_laid w l1) init).
    destruct (v_minsize_fold_width p w (v_laid w l1) (lo l1) init)
      as (ge1 & _ & _).
    destruct (v_minsize_fold_width p w (v_laid w l2) (lo l2) a1)
      as (ge & ub & att).
    destruct (v_minsize_fold_width p w (v_laid w l2) (lo l2) init)
      as (_ & ub0 & att0).
    fold a1 in ge1.
    change (Width (vBoxLayout.minSize init)) with (of_int 0 : exact)
      in ge1, att0.
    set (W12 := Width (vBoxLayout.minSize
                         (fold_left (vBoxLayout.minsize_child p w)
                            (v_laid w l2) a1))) in *.
    set (W1 := Width (vBoxLayout.minSize a1)) in *.
    set (W2 := Width (vBoxLayout.minSize
                        (fold_left (vBoxLayout.minsize_child p w)
                           (v_laid w l2) init))) in *.
    assert (ge2 : W2 <= W12).
    { destruct att0 as [z|(c & i & e)].
      - rewrite z; eapply Qcle_trans; eauto.
      - rewrite e; now apply ub. }
    split.
    + destruct att as [e|(c & i & e)]; [left; now rewrite e|].
      right; left; apply Qcle_antisym; auto.
      rewrite e; now apply ub0.
    + intros y [<-|[<-|[]]]; auto.
  - intros ex1 ex2.
    pose proof (v_laid_mins_ne w l1 ex1) as n1.
    pose proof (v_laid_mins_ne w l2 ex2) as n2.
    assert (n12 : mins (v_kinds w (l1 ++ l2)) <> []).
    { rewrite v_kinds_app, mins_app; intro e.
      apply app_eq_nil in e as [e _]; contradiction. }
    rewrite (@v_MinSize_main v (l1 ++ l2) w n12),
      (@v_MinSize_main v l1 w n1), (@v_MinSize_main v l2 w n2).
    rewrite v_kinds_app, mins_app, exact_total_app, length_app.
    rewrite !exact_of_int_pred, Nat2Z.inj_add.
    set (a := Z.of_nat (length (mins (v_kinds w l1)))).
    set (b := Z.of_nat (length (mins (v_kinds w l2)))).
    assert (e : (of_int (a + b) : exact) = of_int a + of_int b).
    { apply Qc_is_canon; to_Q; now rewrite inject_Z_plus. }
    rewrite e; cbn [fadd fmul exact_ops]; ring.
  - intro none.
    rewrite (v_MinSize_laid v (l1 ++ l2)), (v_MinSize_laid v l1), v_laid_app.
    now rewrite (v_laid_nil w l2 none), app_nil_r.
  - intro none.
    rewrite (v_MinSize_laid v (l1 ++ l2)), (v_MinSize_laid v l2), v_laid_app.
    now rewrite (v_laid_nil w l1 none).
Qed.

(** X10: [MinSize] of two slices put together.  Across the axis it is the
    greater of the two [MinSize]s; along the axis it is their sum plus one
    padding, when both slices hold a visible child that is not a spacer;
    and a slice without such a child adds nothing. *)
Theorem MinSize_of_two_slices
    (v : vBoxLayout.t exact) (g : hBoxLayout.t exact)
    (l1 l2 : list handle) w :
  (is_maximum (Width (vBoxLayout.MinSize v (l1 ++ l2) w))
     [Width (vBoxLayout.MinSize v l1 w); Width (vBoxLayout.MinSize v l2 w)] /\
   ((exists c, In c l1 /\ Visible (heap w c) = true /\
               isVerticalSpacer (heap w c) = false) ->
    (exists c, In c l2 /\ Visible (heap w c) = true /\
               isVerticalSpacer (heap w c) = false) ->
    Height (vBoxLayout.MinSize v (l1 ++ l2) w)
    = Height (vBoxLayout.MinSize v l1 w) + Height (vBoxLayout.MinSize v l2 w)
      + vBoxLayout.paddingFunc v tt) /\
   ((forall c, In c l2 ->
       Visible (heap w c) = false \/ isVerticalSpacer (heap w c) = true) ->
    vBoxLayout.MinSize v (l1 ++ l2) w = vBoxLayout.MinSize v l1 w) /\
   ((forall c, In c l1 ->
       Visible (heap w c) = false \/ isVerticalSpacer (heap w c) = true) ->
    vBoxLayout.MinSize v (l1 ++ l2) w = vBoxLayout.MinSize v l2 w)) /\
  (is_maximum (Height (hBoxLayout.MinSize g (l1 ++ l2) w))
     [Height (hBoxLayout.MinSize g l1 w); Height (hBoxLayout.MinSize g l2 w)] /\
   ((exists c, In c l1 /\ Visible (heap w c) = true /\
               isHorizontalSpacer (heap w c) = false) ->
    (exists c, In c l2 /\ Visible (heap w c) = true /\
               isHorizontalSpacer (heap w c) = false) ->
    Width (hBoxLayout.MinSize g (l1 ++ l2) w)
    = Width (hBoxLayout.MinSize g l1 w) + Width (hBoxLayout.MinSize g l2 w)
      + hBoxLayout.paddingFunc g tt) /\
   ((forall c, In c l2 ->
       Visible (heap w c) = false \/ isHorizontalSpacer (heap w c) = true) ->
    hBoxLayout.MinSize g (l1 ++ l2) w = hBoxLayout.MinSize g l1 w) /\
   ((forall c, In c l1 ->
       Visible (heap w c) = false \/ isHorizontalSpacer (heap w c) = true) ->
    hBoxLayout.MinSize g (l1 ++ l2) w = hBoxLayout.MinSize g l2 w)).
Proof.
  split; [apply v_MinSize_app|].
  destruct (v_MinSize_app (mirrored g) l1 l2 (transposeWorld w))
    as (mx & hs & r & l).
  rewrite !h_MinSize_mirror; cbn [Width Height transposeSize].
  split; [exact mx|]; split; [|split].
  - intros (c1 & i1 & v1 & s1) (c2 & i2 & v2 & s2); apply hs.
    + exists c1; cbn [heap transposeWorld];
        now rewrite isVerticalSpacer_transpose.
    + exists c2; cbn [heap transposeWorld];
        now rewrite isVerticalSpacer_transpose.
  - intro none; rewrite r; auto.
    intros c i; cbn [heap transposeWorld];
      rewrite isVerticalSpacer_transpose; now apply none.
  - intro none; rewrite l; auto.
    intros c i; cbn [heap transposeWorld];
      rewrite isVerticalSpacer_transpose; now apply none.
Qed.
End MinSizeAppend.

(** ** What a layout leaves alone *)

Section FrameTheorem.
Context {F : Type} `{Float32Ops F}.
Implicit Types (w : World F) (h child : handle) (sz : Size F).

(** X11: [Layout] calls [Move] and [Resize] on elements of the slice that
    are visible and not spacers along the axis, and on nothing else; an
    object that is not such an element (it is not in the slice, or it is
    invisible, or it is a spacer) is left exactly as it was. *)
Theorem Layout_touches_only_children_laid_out
    (v : vBoxLayout.t F) (g : hBoxLayout.t F) (objects : list handle) sz w :
  ((exists cs,
      calls (vBoxLayout.Layout v objects sz w) = calls w ++ cs /\
      Forall (fun c => In (target c) objects /\
                       Visible (heap w (target c)) = true /\
                       isVerticalSpacer (heap w (target c)) = false) cs) /\
   (forall h,
      ~ (In h objects /\ Visible (heap w h) = true /\
         isVerticalSpacer (heap w h) = false) ->
      heap (vBoxLayout.Layout v objects sz w) h = heap w h)) /\
  ((exists cs,
      calls (hBoxLayout.Layout g objects sz w) = calls w ++ cs /\
      Forall (fun c => In (target c) objects /\
                       Visible (heap w (target c)) = true /\
                       isHorizontalSpacer (heap w (target c)) = false) cs) /\
   (forall h,
      ~ (In h objects /\ Visible (heap w h) = true /\
         isHorizontalSpacer (heap w h) = false) ->
      heap (hBoxLayout.Layout g objects sz w) h = heap w h)).
Proof.
  split.
  - destruct (v_Layout_evolves v objects sz w) as [_ (cs & e & fc) fr].
    split.
    + exists cs; split; auto.
      eapply Forall_impl; [|exact fc]; intros c [i lo].
      apply v_kind_laid_out in lo; tauto.
    + intros h nh; apply fr; intros [i lo].
      apply v_kind_laid_out in lo; tauto.
  - destruct (h_Layout_evolves g objects sz w) as [_ (cs & e & fc) fr].
    split.
    + exists cs; split; auto.
      eapply Forall_impl; [|exact fc]; intros c [i lo].
      apply h_kind_laid_out in lo; tauto.
    + intros h nh; apply fr; intros [i lo].
      apply h_kind_laid_out in lo; tauto.
Qed.
End FrameTheorem.

(** ** Shares of growable children *)

Section Shares.
Open Scope Qc_scope.
Implicit Types (w : World exact) (h child : handle) (sz : Size exact).

(** X12: what a growable child receives beyond its minimum is
    proportional to its grow factor times its own minimum: for two
    growable children laid out by the same call, the gain of the first
    times (factor times minimum) of the second equals the gain of the
    second times (factor times minimum) of the first. *)
Theorem growth_is_proportional_to_factor_times_minimum
    (v : vBoxLayout.t exact) (g : hBoxLayout.t exact)
    (objects : list handle) sz w (a b : handle) (ma ga mb gb : exact) :
  In a objects -> In b objects ->
  (v_kind_of (heap w a) = Grows ma ga ->
   v_kind_of (heap w b) = Grows mb gb ->
   (Height (size (heap (vBoxLayout.Layout v objects sz w) a)) - ma)
   * (gb * mb)
   = (Height (size (heap (vBoxLayout.Layout v objects sz w) b)) - mb)
     * (ga * ma)) /\
  (h_kind_of (heap w a) = Grows ma ga ->
   h_kind_of (heap w b) = Grows mb gb ->
   (Width (size (heap (hBoxLayout.Layout g objects sz w) a)) - ma)
   * (gb * mb)
   = (Width (size (heap (hBoxLayout.Layout g objects sz w) b)) - mb)
     * (ga * ma)).
Proof.
  intros ia ib; split; intros Ka Kb.
  - assert (la : laid_out (v_kind_of (heap w a)) = true) by now rewrite Ka.
    assert (lb : laid_out (v_kind_of (heap w b)) = true) by now rewrite Kb.
    rewrite (@v_Layout_size _ _ v objects sz w a ia la),
      (@v_Layout_size _ _ v objects sz w b ib lb), Ka, Kb.
    cbn [Height final_main fadd fmul exact_ops]; ring.
  - assert (la : laid_out (h_kind_of (heap w a)) = true) by now rewrite Ka.
    assert (lb : laid_out (h_kind_of (heap w b)) = true) by now rewrite Kb.
    rewrite (@h_Layout_size _ _ g objects sz w a ia la),
      (@h_Layout_size _ _ g objects sz w b ib lb), Ka, Kb.
    cbn [Width final_main fadd fmul exact_ops]; ring.
Qed.
End Shares.

(** ** The order of the slice *)

Section Order.
Open Scope Qc_scope.
Implicit Types (w : World exact) (h child : handle) (sz : Size exact).

Lemma exact_total_permutation (xs ys : list exact) :
  Permutation xs ys -> total xs = total ys.
Proof.
  induction 1 as [|x xs ys p IH|x y xs|xs ys zs p1 IH1 p2 IH2].
  - reflexivity.
  - now rewrite !exact_total_cons, IH.
  - rewrite !exact_total_cons; ring.
  - congruence.
Qed.

Lemma count_spacers_permutation (ks1 ks2 : list (kind exact)) :
  Permutation ks1 ks2 -> count_spacers ks1 = count_spacers ks2.
Proof.
  unfold count_spacers.
  induction 1 as [|k ks1 ks2 p IH|k k' ks|ks1 ks2 ks3 p1 IH1 p2 IH2];
    simpl; auto.
  - destruct (is_spacer k); simpl; auto.
  - destruct (is_spacer k), (is_spacer k'); reflexivity.
  - congruence.
Qed.

(** The shares do not depend on the order of the kinds. *)
Lemma spec_shares_permutation (container padding : exact) ks1 ks2 :
  Permutation ks1 ks2 ->
  spec_extra container padding ks1 = spec_extra container padding ks2 /\
  spec_perWeightUnit container padding ks1
  = spec_perWeightUnit container padding ks2 /\
  spec_perSpacer container padding ks1 = spec_perSpacer container padding ks2.
Proof.
  intro p.
  assert (pm : Permutation (mins ks1) (mins ks2))
    by (unfold mins; now apply Permutation_flat_map).
  assert (pw : Permutation (weights ks1) (weights ks2))
    by (unfold weights; now apply Permutation_flat_map).
  assert (e : spec_extra container padding ks1
              = spec_extra container padding ks2).
  { unfold spec_extra.
    now rewrite (exact_total_permutation pm), (Permutation_length pm). }
  split; [exact e|]; split.
  - unfold spec_perWeightUnit.
    now rewrite e, (exact_total_permutation pw).
  - unfold spec_perSpacer.
    now rewrite e, (count_spacers_permutation p).
Qed.

Lemma v_laid_permutation_in w l1 l2 c :
  Permutation l1 l2 -> In c (v_laid w l1) -> In c (v_laid w l2).
Proof.
  intros p i; apply filter_In in i as [i lo]; apply filter_In; split; auto.
  eapply Permutation_in; eauto.
Qed.

Lemma size_eta (s : Size exact) : s = NewSize (Width s) (Height s).
Proof. now destruct s. Qed.

(** Half of the equality of the widths of two vertical [MinSize]s. *)
Lemma v_MinSize_width_le (v : vBoxLayout.t exact) l1 l2 w :
  Permutation l1 l2 ->
  Width (vBoxLayout.MinSize v l1 w) <= Width (vBoxLayout.MinSize v l2 w).
Proof.
  intro p.
  rewrite (v_MinSize_laid v l1), (v_MinSize_laid v l2).
  assert (lo : forall l c, In c (v_laid w l) ->
                 laid_out (v_kind_of (heap w c)) = true)
    by (intros l c i; now apply filter_In in i).
  unfold vBoxLayout.MinSize.
  set (init := {| vBoxLayout.minSize := NewSize (of_int 0) (of_int 0);
                  vBoxLayout.addPadding := false |}).
  destruct (v_minsize_fold_width (vBoxLayout.paddingFunc v tt) w
              (v_laid w l1) (lo l1) init) as (_ & _ & att).
  destruct (v_minsize_fold_width (vBoxLayout.paddingFunc v tt) w
              (v_laid w l2) (lo l2) init) as (ge & ub & _).
  destruct att as [e|(c & i & e)]; rewrite e; auto.
  apply ub; eapply v_laid_permutation_in; eauto.
Qed.

Lemma v_MinSize_permutation (v : vBoxLayout.t exact) l1 l2 w :
  Permutation l1 l2 ->
  vBoxLayout.MinSize v l1 w = vBoxLayout.MinSize v l2 w.
Proof.
  intro p.
  rewrite (size_eta (vBoxLayout.MinSize v l1 w)),
    (size_eta (vBoxLayout.MinSize v l2 w)); f_equal.
  - apply Qcle_antisym; apply v_MinSize_width_le; auto.
    now apply Permutation_sym.
  - assert (pm : Permutation (mins (v_kinds w l1)) (mins (v_kinds w l2))).
    { unfold mins; apply Permutation_flat_map.
      unfold v_kinds; now apply Permutation_map. }
    destruct (mins (v_kinds w l1)) as [|x xs] eqn:e1.
    + apply Permutation_nil in pm.
      rewrite mins_v_kinds in e1, pm.
      apply map_eq_nil in e1; apply map_eq_nil in pm.
      now rewrite (v_MinSize_laid v l1), (v_MinSize_laid v l2), e1, pm.
    + assert (n1 : mins (v_kinds w l1) <> []) by (rewrite e1; discriminate).
      assert (n2 : mins (v_kinds w l2) <> []).
      { intro z; rewrite z in pm; apply Permutation_sym, Permutation_nil in pm.
        discriminate. }
      rewrite (@v_MinSize_main v l1 w n1), (@v_MinSize_main v l2 w n2), e1.
      now rewrite (exact_total_permutation pm), (Permutation_length pm).
Qed.

Lemma v_sizes_permutation (v : vBoxLayout.t exact) l1 l2 sz w h :
  Permutation l1 l2 ->
  size (heap (vBoxLayout.Layout v l1 sz w) h)
  = size (heap (vBoxLayout.Layout v l2 sz w) h).
Proof.
  intro p.
  assert (pk : Permutation (v_kinds w l1) (v_kinds w l2))
    by (unfold v_kinds; now apply Permutation_map).
  destruct (in_dec Nat.eq_dec h l1) as [i|ni];
    [destruct (laid_out (v_kind_of (heap w h))) eqn:lo|].
  - assert (i2 : In h l2) by (eapply Permutation_in; eauto).
    rewrite (@v_Layout_size _ _ v l1 sz w h i lo),
      (@v_Layout_size _ _ v l2 sz w h i2 lo), !v_hPerFactor_spec.
    destruct (spec_shares_permutation (Height sz) (vBoxLayout.paddingFunc v tt)
                pk) as (_ & e & _).
    now rewrite e.
  - destruct (v_Layout_evolves v l1 sz w) as [_ _ f1].
    destruct (v_Layout_evolves v l2 sz w) as [_ _ f2].
    rewrite f1, f2; auto; intros [_ lo']; congruence.
  - destruct (v_Layout_evolves v l1 sz w) as [_ _ f1].
    destruct (v_Layout_evolves v l2 sz w) as [_ _ f2].
    rewrite f1, f2; auto; intros [i' _]; apply ni.
    + eapply Permutation_in; [apply Permutation_sym|]; eauto.
    + exact i'.
Qed.

(** X13: neither [MinSize] nor the size any object ends with after
    [Layout] depends on the order of the elements of the slice; only the
    positions do. *)
Theorem sizes_do_not_depend_on_the_order
    (v : vBoxLayout.t exact) (g : hBoxLayout.t exact)
    (l1 l2 : list handle) sz w :
  Permutation l1 l2 ->
  (vBoxLayout.MinSize v l1 w = vBoxLayout.MinSize v l2 w /\
   forall h,
     size (heap (vBoxLayout.Layout v l1 sz w) h)
     = size (heap (vBoxLayout.Layout v l2 sz w) h)) /\
  (hBoxLayout.MinSize g l1 w = hBoxLayout.MinSize g l2 w /\
   forall h,
     size (heap (hBoxLayout.Layout g l1 sz w) h)
     = size (heap (hBoxLayout.Layout g l2 sz w) h)).
Proof.
  intro p; split; split.
  - now apply v_MinSize_permutation.
  - intro h; now apply v_sizes_permutation.
  - rewrite !h_MinSize_mirror.
    now rewrite (v_MinSize_permutation (mirrored g) (transposeWorld w) p).
  - intro h.
    destruct (h_Layout_mirror g l1 sz w) as [e1 _].
    destruct (h_Layout_mirror g l2 sz w) as [e2 _].
    rewrite e1, e2; cbn [heap transposeWorld size transposeObject].
    now rewrite (v_sizes_permutation (mirrored g) (transposeSize sz)
                   (transposeWorld w) h p).
Qed.
End Order.

(** ** A growable spacer *)

Section GrowableSpacer.
Context {F : Type} `{Float32Ops F}.
Implicit Types (w : World F) (h child : handle) (sz : Size F)
  (o : CanvasObject F).

(** Two worlds whose objects are of the same kinds for a vertical box, at
    the same places and of the same sizes, with the same log. *)
Definition v_same_kinds w1 w2 : Prop :=
  (forall h, v_kind_of (heap w1 h) = v_kind_of (heap w2 h) /\
             position (heap w1 h) = position (heap w2 h) /\
             size (heap w1 h) = size (heap w2 h)) /\
  calls w1 = calls w2.

Lemma v_same_kinds_Move w1 w2 child p :
  v_same_kinds w1 w2 -> v_same_kinds (Move child p w1) (Move child p w2).
Proof.
  intros [a c]; split; [|simpl; now rewrite c].
  intro h; destruct (a h) as (k & ps & s).
  rewrite (v_kind_of_same h (same_observers_Move child p w1)),
    (v_kind_of_same h (same_observers_Move child p w2)), !size_Move.
  repeat split; auto.
  simpl; unfold update; destruct (Nat.eqb h child); auto.
Qed.

Lemma v_same_kinds_Resize w1 w2 child s :
  v_same_kinds w1 w2 -> v_same_kinds (Resize child s w1) (Resize child s w2).
Proof.
  intros [a c]; split; [|simpl; now rewrite c].
  intro h; destruct (a h) as (k & ps & sz).
  rewrite (v_kind_of_same h (same_observers_Resize child s w1)),
    (v_kind_of_same h (same_observers_Resize child s w2)), !position_Resize.
  repeat split; auto.
  simpl; unfold update; destruct (Nat.eqb h child); auto.
Qed.

Lemma v_measured_same_kinds objects sz w1 w2 :
  v_same_kinds w1 w2 ->
  v_same_kinds (vBoxLayout.measured (vBoxLayout.measure_all objects sz w1))
    (vBoxLayout.measured (vBoxLayout.measure_all objects sz w2)).
Proof.
  intro a; unfold vBoxLayout.measure_all.
  apply (@fold_left_related _ _ _ (vBoxLayout.measure_child sz)
           (vBoxLayout.measure_child sz)
           (fun m1 m2 => v_same_kinds (vBoxLayout.measured m1)
                           (vBoxLayout.measured m2))); auto.
  intros m1 m2 c r; rewrite !v_measure_child_kind.
  destruct (proj1 r c) as (k & _); rewrite k.
  destruct (v_kind_of (heap (vBoxLayout.measured m2) c)); simpl; auto.
  now apply v_same_kinds_Resize.
Qed.

Lemma v_kinds_same_kinds w1 w2 objects :
  v_same_kinds w1 w2 -> v_kinds w1 objects = v_kinds w2 objects.
Proof.
  intros [a _]; unfold v_kinds; apply map_ext; intro c; apply a.
Qed.

(** [Layout] on two such worlds makes the same calls and leaves the
    objects at the same places, with the same sizes. *)
Lemma v_Layout_same_kinds v objects sz w1 w2 :
  v_same_kinds w1 w2 ->
  v_same_kinds (vBoxLayout.Layout v objects sz w1)
    (vBoxLayout.Layout v objects sz w2).
Proof.
  intro a.
  unfold vBoxLayout.Layout, vBoxLayout.place_all.
  rewrite !v_hPerFactor_spec, !v_spacerSize_spec,
    (v_kinds_same_kinds objects a).
  apply (@fold_left_related _ _ _ _ _
           (fun s1 s2 => vBoxLayout.x s1 = vBoxLayout.x s2 /\
                         vBoxLayout.y s1 = vBoxLayout.y s2 /\
                         v_same_kinds (vBoxLayout.placed s1)
                           (vBoxLayout.placed s2))).
  - intros s1 s2 c (ex & ey & r); rewrite !v_place_child_kind.
    destruct (proj1 r c) as (k & _); rewrite k.
    destruct (v_kind_of (heap (vBoxLayout.placed s2) c)); simpl;
      rewrite ?ex, ?ey; repeat (split; [reflexivity|]); auto.
    + now apply v_same_kinds_Move.
    + now apply v_same_kinds_Resize, v_same_kinds_Move.
  - simpl; repeat (split; [reflexivity|]).
    now apply v_measured_same_kinds.
Qed.

(** The world in which [child] does not implement [fyne.Growable]. *)
Definition forget_growable child w : World F :=
  {| heap := update child (@not_growable F) (heap w); calls := calls w |}.

Lemma forget_growable_vertical w child :
  laid_out (v_kind_of (heap w child)) = false ->
  v_same_kinds w (forget_growable child w) /\
  forall h, fyne.MinSize (heap w h) = fyne.MinSize (heap (forget_growable child w) h).
Proof.
  intro nl; split; [split; [|reflexivity]|];
    intro h; simpl; unfold update;
    destruct (Nat.eqb_spec h child) as [->|ne]; auto.
  repeat split; auto.
  revert nl; unfold v_kind_of, isVerticalSpacer; simpl.
  destruct (Visible (heap w child)), (asSpacerObject (heap w child)) as [[[] ?]|],
    (asGrowable (heap w child)); simpl; congruence.
Qed.

Lemma forget_growable_horizontal w child :
  laid_out (h_kind_of (heap w child)) = false ->
  v_same_kinds (transposeWorld w) (transposeWorld (forget_growable child w)) /\
  forall h, fyne.MinSize (heap w h) = fyne.MinSize (heap (forget_growable child w) h).
Proof.
  intro nl; split; [split; [|reflexivity]|];
    intro h; simpl; unfold update;
    destruct (Nat.eqb_spec h child) as [->|ne]; auto.
  repeat split; auto.
  rewrite !v_kind_of_transpose.
  revert nl; unfold h_kind_of, isHorizontalSpacer; simpl.
  destruct (Visible (heap w child)), (asSpacerObject (heap w child)) as [[? []]|],
    (asGrowable (heap w child)); simpl; congruence.
Qed.

Lemma v_MinSize_same_kinds v objects w1 w2 :
  v_same_kinds w1 w2 ->
  (forall h, fyne.MinSize (heap w1 h) = fyne.MinSize (heap w2 h)) ->
  vBoxLayout.MinSize v objects w1 = vBoxLayout.MinSize v objects w2.
Proof.
  intros [a _] ms; unfold vBoxLayout.MinSize; f_equal.
  apply fold_left_related with (R := eq); auto.
  intros m1 m2 c ->; rewrite !v_minsize_child_kind.
  destruct (a c) as (k & _); now rewrite k, (ms c).
Qed.

(** X14: being a spacer takes precedence over being growable.  For a
    child that is a visible spacer along the axis of the box (or is
    invisible), implementing [fyne.Growable] changes nothing: the total
    weight, the calls made, and the positions and sizes of all objects are
    those of the world in which the child is not growable, and so is
    [MinSize]. *)
Theorem spacer_takes_precedence_over_growable
    (v : vBoxLayout.t F) (g : hBoxLayout.t F) (objects : list handle)
    sz w child :
  (Visible (heap w child) = false \/ isVerticalSpacer (heap w child) = true ->
   vBoxLayout.growFactors (vBoxLayout.measure_all objects sz w)
   = vBoxLayout.growFactors
       (vBoxLayout.measure_all objects sz (forget_growable child w)) /\
   calls (vBoxLayout.Layout v objects sz w)
   = calls (vBoxLayout.Layout v objects sz (forget_growable child w)) /\
   (forall h,
      position (heap (vBoxLayout.Layout v objects sz w) h)
      = position
          (heap (vBoxLayout.Layout v objects sz (forget_growable child w)) h) /\
      size (heap (vBoxLayout.Layout v objects sz w) h)
      = size
          (heap (vBoxLayout.Layout v objects sz (forget_growable child w)) h)) /\
   vBoxLayout.MinSize v objects w
   = vBoxLayout.MinSize v objects (forget_growable child w)) /\
  (Visible (heap w child) = false \/ isHorizontalSpacer (heap w child) = true ->
   hBoxLayout.growFactors (hBoxLayout.measure_all objects sz w)
   = hBoxLayout.growFactors
       (hBoxLayout.measure_all objects sz (forget_growable child w)) /\
   calls (hBoxLayout.Layout g objects sz w)
   = calls (hBoxLayout.Layout g objects sz (forget_growable child w)) /\
   (forall h,
      position (heap (hBoxLayout.Layout g objects sz w) h)
      = position
          (heap (hBoxLayout.Layout g objects sz (forget_growable child w)) h) /\
      size (heap (hBoxLayout.Layout g objects sz w) h)
      = size
          (heap (hBoxLayout.Layout g objects sz (forget_growable child w)) h)) /\
   hBoxLayout.MinSize g objects w
   = hBoxLayout.MinSize g objects (forget_growable child w)).
Proof.
  split; intro sp.
  - assert (nl : laid_out (v_kind_of (heap w child)) = false).
    { destruct (laid_out (v_kind_of (heap w child))) eqn:lo; auto.
      apply v_kind_laid_out in lo; destruct lo, sp; congruence. }
    destruct (forget_growable_vertical w child nl) as [a ms].
    destruct (v_Layout_same_kinds v objects sz a) as [ah ac].
    split; [|split; [exact ac|split]].
    + destruct (v_measure_all_spec objects sz w) as (_ & _ & _ & _ & e).
      destruct (v_measure_all_spec objects sz (forget_growable child w))
        as (_ & _ & _ & _ & e').
      now rewrite e, e', (v_kinds_same_kinds objects a).
    + intro h; destruct (ah h) as (_ & ps & s); now split.
    + now apply v_MinSize_same_kinds.
  - assert (nl : laid_out (h_kind_of (heap w child)) = false).
    { destruct (laid_out (h_kind_of (heap w child))) eqn:lo; auto.
      apply h_kind_laid_out in lo; destruct lo, sp; congruence. }
    destruct (forget_growable_horizontal w child nl) as [a ms].
    destruct (v_Layout_same_kinds (mirrored g) objects (transposeSize sz) a)
      as [ah ac].
    destruct (h_Layout_mirror g objects sz w) as [h1 c1].
    destruct (h_Layout_mirror g objects sz (forget_growable child w))
      as [h2 c2].
    split; [|split; [|split]].
    + destruct (measure_all_mirrors objects sz w) as (_ & _ & _ & e & _).
      destruct (measure_all_mirrors objects sz (forget_growable child w))
        as (_ & _ & _ & e' & _).
      rewrite e, e'.
      destruct (v_measure_all_spec objects (transposeSize sz)
                  (transposeWorld w)) as (_ & _ & _ & _ & k).
      destruct (v_measure_all_spec objects (transposeSize sz)
                  (transposeWorld (forget_growable child w)))
        as (_ & _ & _ & _ & k').
      now rewrite k, k', (v_kinds_same_kinds objects a).
    + rewrite c1, c2; simpl; now rewrite ac.
    + intro h; rewrite h1, h2; simpl.
      destruct (ah h) as (_ & ps & s); now rewrite ps, s.
    + rewrite !h_MinSize_mirror; f_equal.
      apply v_MinSize_same_kinds; auto.
      intro h; simpl; now rewrite (ms h).
Qed.
End GrowableSpacer.

(** ** The further properties at concrete scenes *)

Section MoreInstances.
Import Samples Scenes.
Open Scope Qc_scope.

(** A spacer expanding both ways that also implements [fyne.Growable],
    after an ordinary child. *)
Definition growable_spacer_scene : World binary32 :=
  world_of [ordinary true 10 7;
            {| Visible := true; MinSize := sizeZ 3 4;
               asGrowable := Some {| GrowFactor := of_int 2 |};
               asSpacerObject :=
                 Some {| ExpandVertical := true; ExpandHorizontal := true |};
               position := zeroPos; size := zeroSize |}].

Lemma ordinary_child_keeps_its_minimum_witness :
  let v := NewCustomPaddedVBoxLayout (of_int 5 : binary32) in
  let g := NewCustomPaddedHBoxLayout (of_int 5 : binary32) in
  let w := mixed_pools in
  let sz := sizeZ 200 100 in
  size (heap (vBoxLayout.Layout v [0; 1; 2]%nat sz w) 2%nat) = sizeZ 200 5 /\
  size (heap (hBoxLayout.Layout g [0; 1; 2]%nat sz w) 2%nat) = sizeZ 5 100.
Proof.
  intros v g w sz.
  destruct (@ordinary_child_keeps_its_minimum binary32 _ v g [0; 1; 2]%nat
              sz w 2%nat) as [V Hz];
    [simpl; auto | reflexivity | reflexivity |].
  split; [apply V | apply Hz]; reflexivity.
Defined.

Lemma children_start_at_the_cross_origin_witness :
  let v := NewCustomPaddedVBoxLayout (of_int 5 : binary32) in
  let g := NewCustomPaddedHBoxLayout (of_int 5 : binary32) in
  let w := mixed_pools in
  let sz := sizeZ 200 100 in
  X (position (heap (vBoxLayout.Layout v [0; 1; 2]%nat sz w) 2%nat)) = of_int 0 /\
  Y (position (heap (hBoxLayout.Layout g [0; 1; 2]%nat sz w) 2%nat)) = of_int 0.
Proof.
  intros v g w sz.
  destruct (@children_start_at_the_cross_origin binary32 _ v g [0; 1; 2]%nat
              sz w 2%nat) as [V Hz]; [simpl; auto | reflexivity |].
  split; [apply V | apply Hz]; reflexivity.
Defined.

Lemma children_are_laid_end_to_end_witness :
  let v := NewCustomPaddedVBoxLayout (of_int 5 : binary32) in
  let g := NewCustomPaddedHBoxLayout (of_int 5 : binary32) in
  let sz := sizeZ 100 210 in
  (position (heap (vBoxLayout.Layout v [0; 1; 2]%nat sz column_of_three) 1%nat)
   = NewPos (of_int 0)
       (vBoxLayout.y (v_place_upto v [0; 1; 2]%nat sz column_of_three 1)) /\
   position (heap (hBoxLayout.Layout g [0; 1; 2]%nat sz column_of_three) 1%nat)
   = NewPos (hBoxLayout.x (h_place_upto g [0; 1; 2]%nat sz column_of_three 1))
       (of_int 0)) /\
  (vBoxLayout.y (v_place_upto v [0; 1]%nat sz hidden_first 1)
   = vBoxLayout.y (v_place_upto v [0; 1]%nat sz hidden_first 0) /\
   hBoxLayout.x (h_place_upto g [0; 1]%nat sz hidden_first 1)
   = hBoxLayout.x (h_place_upto g [0; 1]%nat sz hidden_first 0)).
Proof.
  intros v g sz; split.
  - destruct (@children_are_laid_end_to_end binary32 _ v g [0; 1; 2]%nat sz
                column_of_three 1%nat 1%nat eq_refl)
      as [(_ & _ & V) (_ & _ & Hz)].
    destruct V as [_ V]; [reflexivity | reflexivity |].
    destruct Hz as [_ Hz]; [reflexivity | reflexivity |].
    split; [apply V | apply Hz]; simpl; intros [e|[]]; discriminate e.
  - destruct (@children_are_laid_end_to_end binary32 _ v g [0; 1]%nat sz
                hidden_first 0%nat 0%nat eq_refl)
      as [(_ & V & _) (_ & Hz & _)].
    split; [apply V | apply Hz]; reflexivity.
Defined.

Lemma Layout_with_nothing_to_lay_out_witness :
  let v := NewCustomPaddedVBoxLayout (of_int 5 : binary32) in
  let g := NewCustomPaddedHBoxLayout (of_int 5 : binary32) in
  let w := world_of [spacer true true 0 0; ordinary false 3 4] in
  let sz := sizeZ 100 50 in
  (vBoxLayout.Layout v [0; 1]%nat sz w = w /\
   hBoxLayout.Layout g [0; 1]%nat sz w = w) /\
  (vBoxLayout.Layout v [] sz w = w /\ hBoxLayout.Layout g [] sz w = w).
Proof.
  intros v g w sz; split.
  - destruct (@Layout_with_nothing_to_lay_out binary32 _ v g [0; 1]%nat sz w)
      as [V Hz].
    split; [apply V | apply Hz];
      intros c [<-|[<-|[]]]; simpl; auto.
  - destruct (@Layout_with_nothing_to_lay_out binary32 _ v g [] sz w)
      as [V Hz].
    split; [apply V | apply Hz]; intros c [].
Defined.

Lemma cursor_ends_past_the_content_witness :
  let v := NewCustomPaddedVBoxLayout (of_int 5 : exact) in
  let g := NewCustomPaddedHBoxLayout (of_int 5 : exact) in
  let w := mixed_pools in
  let sz := sizeZ 200 100 in
  vBoxLayout.y (vBoxLayout.place_all v [0; 1; 2]%nat sz w)
  = of_int 100 + of_int 5 + vBoxLayout.extra v [0; 1; 2]%nat sz w /\
  hBoxLayout.x (hBoxLayout.place_all g [0; 1; 2]%nat sz w)
  = of_int 200 + of_int 5 + hBoxLayout.extra g [0; 1; 2]%nat sz w.
Proof.
  intros v g w sz.
  destruct (@cursor_ends_past_the_content v g [0; 1; 2]%nat sz w) as [V Hz].
  assert (big : forall k : handle -> kind exact,
            (k 0%nat = Grows (of_int 10) (of_int 2)) ->
            (k 1%nat = IsSpacer) -> (k 2%nat = Ordinary (of_int 5)) ->
            forall c m gf, In c [0; 1; 2]%nat -> k c = Grows m gf -> 1 <= m).
  { intros k k0 k1 k2 c m gf [<-|[<-|[<-|[]]]] e;
      rewrite ?k0, ?k1, ?k2 in e; try discriminate e.
    injection e as <- _; vm_compute; discriminate. }
  split.
  - rewrite V; [|apply (big (fun c => v_kind_of (heap w c))); reflexivity].
    apply Qc_is_canon; vm_compute; reflexivity.
  - rewrite Hz; [|apply (big (fun c => h_kind_of (heap w c))); reflexivity].
    apply Qc_is_canon; vm_compute; reflexivity.
Defined.

Lemma Layout_at_MinSize_gives_minimums_witness :
  let v := NewCustomPaddedVBoxLayout (of_int 4 : exact) in
  let g := NewCustomPaddedHBoxLayout (of_int 4 : exact) in
  let w := two_growables (of_int 10) in
  let sz := sizeZ 24 24 in
  (vBoxLayout.extra v [0; 1]%nat sz w = 0 /\
   size (heap (vBoxLayout.Layout v [0; 1]%nat sz w) 1%nat)
   = NewSize (of_int 24) (of_int 10)) /\
  (hBoxLayout.extra g [0; 1]%nat sz w = 0 /\
   size (heap (hBoxLayout.Layout g [0; 1]%nat sz w) 1%nat)
   = NewSize (of_int 10) (of_int 24)).
Proof.
  intros v g w sz.
  destruct (@Layout_at_MinSize_gives_minimums v g [0; 1]%nat sz w) as [V Hz].
  split.
  - destruct V as (e & _ & s).
    + exists 0%nat; simpl; auto.
    + apply Qc_is_canon; vm_compute; reflexivity.
    + split; [exact e|].
      apply (s 1%nat); [simpl; auto | reflexivity | reflexivity].
  - destruct Hz as (e & _ & s).
    + exists 0%nat; simpl; auto.
    + apply Qc_is_canon; vm_compute; reflexivity.
    + split; [exact e|].
      apply (s 1%nat); [simpl; auto | reflexivity | reflexivity].
Defined.

Lemma total_weight_is_positive_witness :
  let v := NewCustomPaddedVBoxLayout (of_int 0 : exact) in
  let g := NewCustomPaddedHBoxLayout (of_int 0 : exact) in
  let w := lone_growable_zero in
  let sz := sizeZ 100 100 in
  0 < vBoxLayout.growFactors (vBoxLayout.measure_all [0%nat] sz w) /\
  0 < hBoxLayout.growFactors (hBoxLayout.measure_all [0%nat] sz w).
Proof.
  intros v g w sz.
  destruct (@total_weight_is_positive v g [0%nat] sz w 0%nat (of_int 0)
              (of_int 1)) as [V Hz]; [simpl; auto | reflexivity |].
  split.
  - apply V; [|reflexivity].
    intros c m' g' [<-|[]] e; injection e as _ <-; vm_compute; discriminate.
  - apply Hz; [|reflexivity].
    intros c m' g' [<-|[]] e; injection e as _ <-; vm_compute; discriminate.
Defined.

Lemma MinSize_of_two_slices_witness :
  let v := NewCustomPaddedVBoxLayout (of_int 5 : exact) in
  let g := NewCustomPaddedHBoxLayout (of_int 5 : exact) in
  let w := column_of_three in
  Height (vBoxLayout.MinSize v ([0%nat] ++ [1; 2]%nat) w)
  = Height (vBoxLayout.MinSize v [0%nat] w)
    + Height (vBoxLayout.MinSize v [1; 2]%nat w) + of_int 5 /\
  Width (hBoxLayout.MinSize g ([0%nat] ++ [1; 2]%nat) w)
  = Width (hBoxLayout.MinSize g [0%nat] w)
    + Width (hBoxLayout.MinSize g [1; 2]%nat w) + of_int 5.
Proof.
  intros v g w.
  destruct (@MinSize_of_two_slices v g [0%nat] [1; 2]%nat w)
    as [(_ & V & _) (_ & Hz & _)].
  split.
  - apply V; [exists 0%nat | exists 1%nat]; simpl; auto.
  - apply Hz; [exists 0%nat | exists 1%nat]; simpl; auto.
Defined.

Lemma Layout_touches_only_children_laid_out_witness :
  let v := NewCustomPaddedVBoxLayout (of_int 5 : binary32) in
  let g := NewCustomPaddedHBoxLayout (of_int 5 : binary32) in
  let w := mixed_pools in
  let sz := sizeZ 200 100 in
  heap (vBoxLayout.Layout v [0; 2]%nat sz w) 1%nat = heap w 1%nat /\
  heap (hBoxLayout.Layout g [0; 2]%nat sz w) 1%nat = heap w 1%nat.
Proof.
  intros v g w sz.
  destruct (@Layout_touches_only_children_laid_out binary32 _ v g [0; 2]%nat
              sz w) as [[_ V] [_ Hz]].
  split; [apply V | apply Hz]; intros ([e|[e|[]]] & _); discriminate e.
Defined.

Lemma growth_is_proportional_witness :
  let v := NewCustomPaddedVBoxLayout (of_int 4 : exact) in
  let g := NewCustomPaddedHBoxLayout (of_int 4 : exact) in
  let w := two_growables (of_int 10) in
  let sz := sizeZ 100 100 in
  (Height (size (heap (vBoxLayout.Layout v [0; 1]%nat sz w) 0%nat)) - of_int 10)
  * (of_int 3 * of_int 10)
  = (Height (size (heap (vBoxLayout.Layout v [0; 1]%nat sz w) 1%nat))
     - of_int 10) * (of_int 1 * of_int 10) /\
  (Width (size (heap (hBoxLayout.Layout g [0; 1]%nat sz w) 0%nat)) - of_int 10)
  * (of_int 3 * of_int 10)
  = (Width (size (heap (hBoxLayout.Layout g [0; 1]%nat sz w) 1%nat))
     - of_int 10) * (of_int 1 * of_int 10).
Proof.
  intros v g w sz.
  destruct (@growth_is_proportional_to_factor_times_minimum v g [0; 1]%nat
              sz w 0%nat 1%nat (of_int 10) (of_int 1) (of_int 10) (of_int 3))
    as [V Hz]; [simpl; auto | simpl; auto |].
  split; [apply V | apply Hz]; reflexivity.
Defined.

Lemma sizes_do_not_depend_on_the_order_witness :
  let v := NewCustomPaddedVBoxLayout (of_int 4 : exact) in
  let g := NewCustomPaddedHBoxLayout (of_int 4 : exact) in
  let w := mixed_pools in
  let sz := sizeZ 200 100 in
  (vBoxLayout.MinSize v [0; 1; 2]%nat w = vBoxLayout.MinSize v [1; 0; 2]%nat w /\
   size (heap (vBoxLayout.Layout v [0; 1; 2]%nat sz w) 0%nat)
   = size (heap (vBoxLayout.Layout v [1; 0; 2]%nat sz w) 0%nat)) /\
  (hBoxLayout.MinSize g [0; 1; 2]%nat w = hBoxLayout.MinSize g [1; 0; 2]%nat w /\
   size (heap (hBoxLayout.Layout g [0; 1; 2]%nat sz w) 0%nat)
   = size (heap (hBoxLayout.Layout g [1; 0; 2]%nat sz w) 0%nat)).
Proof.
  intros v g w sz.
  destruct (@sizes_do_not_depend_on_the_order v g [0; 1; 2]%nat [1; 0; 2]%nat
              sz w (perm_swap 1%nat 0%nat [2%nat])) as [[a b] [c d]].
  split; split; auto.
Defined.

Lemma spacer_takes_precedence_over_growable_witness :
  let v := NewCustomPaddedVBoxLayout (of_int 5 : binary32) in
  let g := NewCustomPaddedHBoxLayout (of_int 5 : binary32) in
  let w := growable_spacer_scene in
  let sz := sizeZ 100 50 in
  (vBoxLayout.growFactors (vBoxLayout.measure_all [0; 1]%nat sz w)
   = vBoxLayout.growFactors
       (vBoxLayout.measure_all [0; 1]%nat sz (forget_growable 1%nat w)) /\
   calls (vBoxLayout.Layout v [0; 1]%nat sz w)
   = calls (vBoxLayout.Layout v [0; 1]%nat sz (forget_growable 1%nat w))) /\
  (hBoxLayout.growFactors (hBoxLayout.measure_all [0; 1]%nat sz w)
   = hBoxLayout.growFactors
       (hBoxLayout.measure_all [0; 1]%nat sz (forget_growable 1%nat w)) /\
   calls (hBoxLayout.Layout g [0; 1]%nat sz w)
   = calls (hBoxLayout.Layout g [0; 1]%nat sz (forget_growable 1%nat w))).
Proof.
  intros v g w sz.
  destruct (@spacer_takes_precedence_over_growable binary32 _ v g [0; 1]%nat
              sz w 1%nat) as [V Hz].
  split.
  - destruct V as (a & b & _); [right; reflexivity | now split].
  - destruct Hz as (a & b & _); [right; reflexivity | now split].
Defined.

Lemma zero_minimum_growable_never_grows_witness :
  let v := NewCustomPaddedVBoxLayout (of_int 0 : exact) in
  let g := NewCustomPaddedHBoxLayout (of_int 0 : exact) in
  let w := lone_growable_zero in
  let sz := sizeZ 100 100 in
  Height (size (heap (vBoxLayout.Layout v [0%nat] sz w) 0%nat)) = 0 /\
  Width (size (heap (hBoxLayout.Layout g [0%nat] sz w) 0%nat)) = 0.
Proof.
  intros v g w sz.
  destruct (@zero_minimum_growable_never_grows v g [0%nat] sz w 0%nat
              (of_int 1)) as [V Hz]; [simpl; auto |].
  split; [apply V | apply Hz]; reflexivity.
Defined.
End MoreInstances.
